(** * Fetch: the command language of the Marionette firmware

    A shallow embedding of [fetch.c] (token matcher, tokenizer, dispatcher,
    gpio handler) and of [gpio.c] (port/pin resolution and the four gpio
    actions), together with the properties of the specification that
    concern them.

    C strings are NUL-terminated byte sequences living in memory blocks;
    the static work buffers of [fetch.c] and the line owned by the caller
    are separate blocks, and every write goes through a pointer, so that
    aliasing and frame properties are statements about the model and not
    consequences of its shape. *)

From Stdlib Require Import ZArith Ascii String List Lia Bool.
From stdpp Require Import base list.
Import ListNotations.

Local Open Scope nat_scope.

(** ** Bytes and C strings *)

Definition NUL : ascii := Ascii.zero.

Definition is_NUL (c : ascii) : bool := Ascii.eqb c NUL.

(** [tolower] of the C locale: only 'A'..'Z' are changed. *)
Definition tolower (c : ascii) : ascii :=
  let n := nat_of_ascii c in
  if (65 <=? n) && (n <=? 90) then ascii_of_nat (n + 32) else c.

Definition char_val (c : ascii) : Z := Z.of_nat (nat_of_ascii c).

(** The contents of a C string, as seen through [load_cstr] below, is the
    list of its bytes before the terminator.  Reading past the end of such
    a list yields the terminator. *)
Definition cstring := list ascii.

Definition str (s : string) : cstring := list_ascii_of_string s.

(** libc [strncasecmp]: compare at most [n] bytes, ignoring case, stopping
    at the first difference or at the terminator. *)
Fixpoint strncasecmp (s1 s2 : cstring) (n : nat) : Z :=
  match n with
  | O => 0%Z
  | S n' =>
      let c1 := tolower (hd NUL s1) in
      let c2 := tolower (hd NUL s2) in
      if Ascii.eqb c1 c2
      then if is_NUL c1 then 0%Z else strncasecmp (tl s1) (tl s2) n'
      else (char_val c1 - char_val c2)%Z
  end.

(** libc [strspn] and [strpbrk], on the bytes that follow a pointer. *)
Definition is_delim (delim : cstring) (c : ascii) : bool :=
  existsb (Ascii.eqb c) delim.

Fixpoint strspn (s delim : cstring) : nat :=
  match s with
  | c :: r => if is_delim delim c then S (strspn r delim) else 0
  | [] => 0
  end.

Fixpoint strpbrk (s delim : cstring) : option nat :=
  match s with
  | c :: r => if is_delim delim c then Some 0
              else option_map S (strpbrk r delim)
  | [] => None
  end.

(** ** Constants of [fetch.h] *)

Definition FETCH_MAX_COMMANDS : nat := 8.
Definition FETCH_MAX_DATA_ITEMS : nat := 50.
Definition FETCH_MAX_LINE_CHARS : nat := 256.
Definition FETCH_MAX_CMD_TOKS : nat := 32.
Definition FETCH_MAX_DATA_TOKS : nat := 256.
Definition FETCH_MAX_CMD_STRLEN : nat := 25.

(** Modelled from the spec: [get_longest_str_length] is defined outside
    the sources at hand ([fetch.c] and [gpio.c] include [util_strings.h]).
    The specification gives the number of compared bytes as
    [min(max_token_length, max(len(a), len(b)))]. *)
Definition get_longest_str_length (s1 s2 : cstring) (max_length : nat) : nat :=
  Nat.min (Nat.max (length s1) (length s2)) max_length.

(** Modelled from the spec: [fetch_remove_spaces] is defined outside the
    sources at hand; the specification says that the command part is
    stripped of spaces and tabs. *)
Definition is_blank (c : ascii) : bool :=
  Ascii.eqb c " "%char || Ascii.eqb c "009"%char.

Definition fetch_remove_spaces_str (s : cstring) : cstring :=
  List.filter (fun c => negb (is_blank c)) s.

(** ** Memory: blocks, pointers, loads and stores *)

Inductive block := Binput | Blocalinput | Bcommandstr | Bdatastr.

Definition block_eqb (a b : block) : bool :=
  match a, b with
  | Binput, Binput | Blocalinput, Blocalinput
  | Bcommandstr, Bcommandstr | Bdatastr, Bdatastr => true
  | _, _ => false
  end.

(** [Binput] is the line buffer owned by the caller of [fetch_parse]; the
    other three are the static arrays [localinput], [commandstr] and
    [datastr]. *)
Record memory := {
  m_input : list ascii;
  m_localinput : list ascii;
  m_commandstr : list ascii;
  m_datastr : list ascii
}.

Definition get_block (m : memory) (b : block) : list ascii :=
  match b with
  | Binput => m_input m
  | Blocalinput => m_localinput m
  | Bcommandstr => m_commandstr m
  | Bdatastr => m_datastr m
  end.

Definition set_block (m : memory) (b : block) (l : list ascii) : memory :=
  match b with
  | Binput => {| m_input := l; m_localinput := m_localinput m;
                 m_commandstr := m_commandstr m; m_datastr := m_datastr m |}
  | Blocalinput => {| m_input := m_input m; m_localinput := l;
                      m_commandstr := m_commandstr m; m_datastr := m_datastr m |}
  | Bcommandstr => {| m_input := m_input m; m_localinput := m_localinput m;
                      m_commandstr := l; m_datastr := m_datastr m |}
  | Bdatastr => {| m_input := m_input m; m_localinput := m_localinput m;
                   m_commandstr := m_commandstr m; m_datastr := l |}
  end.

(** A pointer is null, points into a block at an offset, or points to a
    string literal in read-only storage. *)
Inductive ptr :=
| NULL
| Ptr (b : block) (off : nat)
| Lit (s : string).

Definition is_null (p : ptr) : bool :=
  match p with NULL => true | _ => false end.

(** Bytes of [l] before the first NUL; [None] when [l] holds no NUL, that
    is when the read runs off the end of the block. *)
Fixpoint cstr_of (l : list ascii) : option cstring :=
  match l with
  | [] => None
  | c :: r => if is_NUL c then Some []
              else match cstr_of r with
                   | Some s => Some (c :: s)
                   | None => None
                   end
  end.

(** A literal always carries its terminator. *)
Fixpoint lit_cstr (l : list ascii) : cstring :=
  match l with
  | [] => []
  | c :: r => if is_NUL c then [] else c :: lit_cstr r
  end.

Definition load_cstr (m : memory) (p : ptr) : option cstring :=
  match p with
  | NULL => None
  | Ptr b off => cstr_of (drop off (get_block m b))
  | Lit s => Some (lit_cstr (str s))
  end.

Definition store (m : memory) (p : ptr) (c : ascii) : option memory :=
  match p with
  | Ptr b off =>
      if off <? length (get_block m b)
      then Some (set_block m b (<[off := c]> (get_block m b)))
      else None
  | _ => None
  end.

(** Write the bytes [l] at [p], one after the other. *)
Fixpoint store_bytes (m : memory) (b : block) (off : nat) (l : list ascii)
  : option memory :=
  match l with
  | [] => Some m
  | c :: r => match store m (Ptr b off) c with
              | Some m' => store_bytes m' b (S off) r
              | None => None
              end
  end.

(** ** Hardware types of [gpio.h] and the ChibiOS PAL *)

(** Modelled from the spec: the types [GPIO_TypeDef] and [GPIO_pinnums]
    are declared outside the sources at hand.  [gpio.c] names nine ports
    and sixteen pins, which the specification numbers 0 to 15; a pin
    variable initialised with 0 holds [PIN0]. *)

Inductive GPIO_TypeDef :=
| GPIOA | GPIOB | GPIOC | GPIOD | GPIOE | GPIOF | GPIOG | GPIOH | GPIOI.

Inductive GPIO_pinnums :=
| PIN0 | PIN1 | PIN2 | PIN3 | PIN4 | PIN5 | PIN6 | PIN7
| PIN8 | PIN9 | PIN10 | PIN11 | PIN12 | PIN13 | PIN14 | PIN15.

Definition pin_number (p : GPIO_pinnums) : nat :=
  match p with
  | PIN0 => 0 | PIN1 => 1 | PIN2 => 2 | PIN3 => 3
  | PIN4 => 4 | PIN5 => 5 | PIN6 => 6 | PIN7 => 7
  | PIN8 => 8 | PIN9 => 9 | PIN10 => 10 | PIN11 => 11
  | PIN12 => 12 | PIN13 => 13 | PIN14 => 14 | PIN15 => 15
  end.

(** Mode bits of the STM32 PAL driver ([pal_lld.h]). *)
Definition PAL_STM32_MODE_INPUT : Z := Z.shiftl 0 0.
Definition PAL_STM32_MODE_OUTPUT : Z := Z.shiftl 1 0.
Definition PAL_STM32_MODE_ANALOG : Z := Z.shiftl 3 0.
Definition PAL_STM32_PUDR_FLOATING : Z := Z.shiftl 0 5.
Definition PAL_STM32_PUDR_PULLUP : Z := Z.shiftl 1 5.
Definition PAL_STM32_PUDR_PULLDOWN : Z := Z.shiftl 2 5.

(** ** Observable behaviour

    Everything the interpreter does to the outside world is recorded, in
    order, in a trace: text on the output stream and calls of the PAL.
    [Invoke] is a ghost event marking the indirect call through [cmd_fns]
    in [fetch_dispatch]. *)

Inductive handler := Fetch_info | Fetch_gpio | Fetch_resetpins | Fetch_not_yet.

Inductive dbg_value :=
| Dbg_pin (p : GPIO_pinnums)
| Dbg_port (p : option GPIO_TypeDef)
| Dbg_int (z : Z).

Inductive event :=
| Errormsg (msg : string)
| Infomsg (msg : string)
| Dbgmsg (msg : string)
| Dbgvmsg (fmt : string) (v : dbg_value)
| Chprintf_s (s : string)
| Chprintf_d (v : Z)
| PalReadPad (port : GPIO_TypeDef) (pin : GPIO_pinnums)
| PalSetPad (port : GPIO_TypeDef) (pin : GPIO_pinnums)
| PalClearPad (port : GPIO_TypeDef) (pin : GPIO_pinnums)
| PalSetPadMode (port : GPIO_TypeDef) (pin : GPIO_pinnums) (mode : Z)
| PalInit
| Invoke (h : handler).

Definition is_hardware (e : event) : bool :=
  match e with
  | PalReadPad _ _ | PalSetPad _ _ | PalClearPad _ _
  | PalSetPadMode _ _ _ | PalInit => true
  | _ => false
  end.

Definition is_invoke (e : event) : bool :=
  match e with Invoke _ => true | _ => false end.

(** ** Interpreter state and the monad of C computations *)

Record state := {
  st_mem : memory;
  command_toks : list ptr;
  data_toks : list ptr;
  cmd_fns : list (option handler);
  trace : list event
}.

(** A computation ends with a value, stops at a failed [chDbgAssert],
    runs into undefined behaviour (a read or write outside a block, a
    null function pointer), or runs out of the fuel given to a loop. *)
Inductive outcome (A : Type) :=
| Ok (a : A)
| Assert_failed (msg : string)
| Undefined
| Out_of_fuel.

Arguments Ok {A} a.
Arguments Assert_failed {A} msg.
Arguments Undefined {A}.
Arguments Out_of_fuel {A}.

Definition M (A : Type) : Type := state -> outcome A * state.

Definition ret {A} (a : A) : M A := fun s => (Ok a, s).

Definition bind {A B} (c : M A) (k : A -> M B) : M B :=
  fun s =>
    match c s with
    | (Ok a, s') => k a s'
    | (Assert_failed msg, s') => (Assert_failed msg, s')
    | (Undefined, s') => (Undefined, s')
    | (Out_of_fuel, s') => (Out_of_fuel, s')
    end.

Notation "x <- c1 ;; c2" := (bind c1 (fun x => c2))
  (at level 100, c1 at next level, right associativity).
Notation "c1 ;; c2" := (bind c1 (fun _ => c2))
  (at level 100, right associativity).

Definition undefined {A} : M A := fun s => (Undefined, s).
Definition out_of_fuel {A} : M A := fun s => (Out_of_fuel, s).
Definition chDbgAssert (c : bool) (msg : string) : M unit :=
  fun s => if c then (Ok tt, s) else (Assert_failed msg, s).

Definition of_option {A} (o : option A) : M A :=
  match o with Some a => ret a | None => undefined end.

Definition get_mem : M memory := fun s => (Ok (st_mem s), s).

Definition put_mem (m : memory) : M unit :=
  fun s => (Ok tt, {| st_mem := m; command_toks := command_toks s;
                      data_toks := data_toks s; cmd_fns := cmd_fns s;
                      trace := trace s |}).

Definition emit (e : event) : M unit :=
  fun s => (Ok tt, {| st_mem := st_mem s; command_toks := command_toks s;
                      data_toks := data_toks s; cmd_fns := cmd_fns s;
                      trace := trace s ++ [e] |}).

Definition get_command_toks : M (list ptr) := fun s => (Ok (command_toks s), s).
Definition get_data_toks : M (list ptr) := fun s => (Ok (data_toks s), s).

(** [command_toks[i] = p] and [data_toks[i] = p]; both arrays have
    [FETCH_MAX_LINE_CHARS] entries. *)
Definition set_command_tok (i : nat) (p : ptr) : M unit :=
  fun s =>
    if i <? length (command_toks s)
    then (Ok tt, {| st_mem := st_mem s;
                    command_toks := <[i := p]> (command_toks s);
                    data_toks := data_toks s; cmd_fns := cmd_fns s;
                    trace := trace s |})
    else (Undefined, s).

Definition set_data_tok (i : nat) (p : ptr) : M unit :=
  fun s =>
    if i <? length (data_toks s)
    then (Ok tt, {| st_mem := st_mem s; command_toks := command_toks s;
                    data_toks := <[i := p]> (data_toks s);
                    cmd_fns := cmd_fns s; trace := trace s |})
    else (Undefined, s).

Definition set_cmd_fns (t : list (option handler)) : M unit :=
  fun s => (Ok tt, {| st_mem := st_mem s; command_toks := command_toks s;
                      data_toks := data_toks s; cmd_fns := t;
                      trace := trace s |}).

(** ** libc and utility routines on memory *)

Definition load_str (p : ptr) : M cstring :=
  m <- get_mem ;; of_option (load_cstr m p).

Definition strlen (p : ptr) : M nat :=
  s <- load_str p ;; ret (length s).

Definition load_char (p : ptr) : M ascii :=
  m <- get_mem ;;
  match p with
  | Ptr b off => of_option (get_block m b !! off)
  | Lit s => ret (hd NUL (str s))
  | NULL => undefined
  end.

Definition store_char (p : ptr) (c : ascii) : M unit :=
  m <- get_mem ;; m' <- of_option (store m p c) ;; put_mem m'.

(** Bytes read by [strncpy] from a source: up to [n] of them, stopping
    at the terminator. *)
Fixpoint strn_of (l : list ascii) (n : nat) : option cstring :=
  match n with
  | O => Some []
  | S n' =>
      match l with
      | [] => None
      | c :: r => if is_NUL c then Some []
                  else match strn_of r n' with
                       | Some s => Some (c :: s)
                       | None => None
                       end
      end
  end.

Definition read_strn (m : memory) (p : ptr) (n : nat) : option cstring :=
  match p with
  | NULL => None
  | Ptr b off => strn_of (drop off (get_block m b)) n
  | Lit s => Some (take n (lit_cstr (str s)))
  end.

Definition same_block (p q : ptr) : bool :=
  match p, q with
  | Ptr a _, Ptr b _ => block_eqb a b
  | _, _ => false
  end.

(** libc [strncpy]: exactly [n] bytes are written at [dst], the bytes of
    [src] followed by NUL padding.  Source and destination must not
    overlap; in [fetch.c] they never share a block. *)
Definition strncpy (dst src : ptr) (n : nat) : M unit :=
  m <- get_mem ;;
  if same_block dst src then undefined
  else
    s <- of_option (read_strn m src n) ;;
    match dst with
    | Ptr b off =>
        m' <- of_option (store_bytes m b off (s ++ repeat NUL (n - length s))) ;;
        put_mem m'
    | _ => undefined
    end.

(** In-place version of [fetch_remove_spaces_str]. *)
Definition fetch_remove_spaces (p : ptr) : M unit :=
  s <- load_str p ;;
  m <- get_mem ;;
  match p with
  | Ptr b off =>
      m' <- of_option (store_bytes m b off (fetch_remove_spaces_str s ++ [NUL])) ;;
      put_mem m'
  | _ => undefined
  end.

(** Modelled from the spec: [_strtok] is defined outside the sources at
    hand.  The specification has the tokenizer split the work buffer in
    place at a delimiter and treats an empty line as a line without any
    command part, so [_strtok] yields NULL when no token is left; this is
    the contract of the re-entrant libc tokenizer [strtok_r], followed
    here: skip leading delimiters, overwrite the delimiter that ends the
    token with NUL, and remember where to resume in [saveptr].  The
    result is the token together with the new value of [*saveptr]. *)
Definition _strtok (s : ptr) (delim : string) (saveptr : ptr) : M (ptr * ptr) :=
  let start := if is_null s then saveptr else s in
  match start with
  | NULL => ret (NULL, NULL)
  | Lit _ => undefined
  | Ptr b off =>
      skipped <- load_str start ;;
      let token := Ptr b (off + strspn skipped (str delim)) in
      rest <- load_str token ;;
      match strpbrk rest (str delim) with
      | Some j =>
          store_char (Ptr b (off + strspn skipped (str delim) + j)) NUL ;;
          c <- load_char token ;;
          ret (if is_NUL c then NULL else token,
               Ptr b (off + strspn skipped (str delim) + j + 1))
      | None =>
          c <- load_char token ;;
          ret (if is_NUL c then NULL else token, NULL)
      end
  end.

(** ** The vocabularies of [fetch.c] *)

Record Command_terminals := {
  command : list ptr;
  gpio_subcommandA : list ptr;
  gpio_direction : list ptr;
  gpio_sense : list ptr;
  port_subcommand : list ptr;
  pin_subcommand : list ptr;
  subcommandD : list ptr;
  digit : list ptr;
  EOL : list ptr;
  whitespace : list ptr
}.

Definition fetch_terminals : Command_terminals := {|
  command := map Lit ["?"; "help"; "gpio"; "adc"; "spi"; "i2c"; "resetpins"]%string;
  gpio_subcommandA := map Lit ["get"; "set"; "clear"; "configure"]%string;
  gpio_direction := map Lit ["input"; "output"]%string;
  gpio_sense := map Lit ["pullup"; "pulldown"; "floating"; "analog"]%string;
  port_subcommand :=
    map Lit ["porta"; "portb"; "portc"; "portd"; "porte"; "portf"; "portg";
             "porth"; "porti"]%string;
  pin_subcommand :=
    map Lit ["pin0"; "pin1"; "pin2"; "pin3"; "pin4"; "pin5"; "pin6"; "pin7";
             "pin8"; "pin9"; "pin10"; "pin11"; "pin12"; "pin13"; "pin14";
             "pin15"]%string;
  subcommandD := [];
  digit :=
    map Lit ["0"; "1"; "2"; "3"; "4"; "5"; "6"; "7"; "8"; "9"; "a"; "b"; "c";
             "d"; "e"]%string;
  EOL := [Lit (String "010" EmptyString)];
  whitespace := [Lit " "; Lit (String "009" EmptyString)]
|}.

(** [NELEMS(a)]: the number of elements of an array. *)
Definition NELEMS {A} (a : list A) : Z := Z.of_nat (length a).

(** ** Token matcher *)

(** The [for] loop of [fetch_token_match], from index [i] with [k]
    iterations to go. *)
Fixpoint fetch_token_match_from (tok_array : list ptr) (chk_tok : ptr)
    (i k : nat) : M Z :=
  match k with
  | O => ret (-1)%Z
  | S k' =>
      e <- of_option (tok_array !! i) ;;
      chDbgAssert (negb (is_null e) && negb (is_null chk_tok))
                  "fetch_token_match() #1" ;;
      s <- load_str e ;;
      t <- load_str chk_tok ;;
      let maxlen := get_longest_str_length s t FETCH_MAX_CMD_STRLEN in
      if (strncasecmp s t maxlen =? 0)%Z
      then ret (Z.of_nat i)
      else fetch_token_match_from tok_array chk_tok (S i) k'
  end.

Definition fetch_token_match (tok_array : list ptr) (chk_tok : ptr)
    (num_elems : Z) : M Z :=
  fetch_token_match_from tok_array chk_tok 0 (Z.to_nat num_elems).

Definition fetch_is_valid_command (chkcommand : ptr) : M Z :=
  fetch_token_match (command fetch_terminals) chkcommand
                    (NELEMS (command fetch_terminals)).

Definition fetch_is_valid_gpio_direction (chk : ptr) : M Z :=
  fetch_token_match (gpio_direction fetch_terminals) chk
                    (NELEMS (gpio_direction fetch_terminals)).

Definition fetch_is_valid_gpio_sense (chk : ptr) : M Z :=
  fetch_token_match (gpio_sense fetch_terminals) chk
                    (NELEMS (gpio_sense fetch_terminals)).

Definition fetch_is_valid_gpio_subcommandA (chk : ptr) : M Z :=
  fetch_token_match (gpio_subcommandA fetch_terminals) chk
                    (NELEMS (gpio_subcommandA fetch_terminals)).

Definition fetch_is_valid_port_subcommand (chk : ptr) : M Z :=
  fetch_token_match (port_subcommand fetch_terminals) chk
                    (NELEMS (port_subcommand fetch_terminals)).

Definition fetch_is_valid_pin_subcommand (chk : ptr) : M Z :=
  fetch_token_match (pin_subcommand fetch_terminals) chk
                    (NELEMS (pin_subcommand fetch_terminals)).

Definition fetch_is_valid_digit (chk : ptr) : M Z :=
  fetch_token_match (digit fetch_terminals) chk
                    (NELEMS (digit fetch_terminals)).

Definition fetch_is_valid_EOL (chk : ptr) : M Z :=
  fetch_token_match (EOL fetch_terminals) chk
                    (NELEMS (EOL fetch_terminals)).

Definition fetch_is_valid_whitespace (chk : ptr) : M Z :=
  fetch_token_match (whitespace fetch_terminals) chk
                    (NELEMS (whitespace fetch_terminals)).

(** ** [gpio.c] *)

(** Modelled from the spec: the positions of the sub-tokens in the command
    list are declared outside the sources at hand ([fetch.h] includes
    [fetch_defs.h]).  The grammar
    [gpio:<action>:<port>:<pin>[:<direction>:<sense>]] fixes them, and
    [fetch_gpio] itself reads the action at index 1. *)
Definition ACTION : nat := 1.
Definition PORT : nat := 2.
Definition PIN : nat := 3.
Definition DIRECTION : nat := 4.
Definition SENSE : nat := 5.

(** [l[i]] for an array passed as argument. *)
Definition nth_tok (l : list ptr) (i : nat) : M ptr := of_option (l !! i).

(** [strncasecmp(s, "lit", n) == 0] *)
Definition streq_n (s : cstring) (lit : string) (n : nat) : bool :=
  (strncasecmp s (lit_cstr (str lit)) n =? 0)%Z.

(** [strlen("lit")] *)
Definition strlen_lit (lit : string) : nat := length (lit_cstr (str lit)).

Section Firmware.

(** [MAX_PIN_STR_LEN] is a constant declared outside the sources at hand
    and the level read from a pad belongs to the hardware; both are
    parameters of the model. *)
Variable MAX_PIN_STR_LEN : nat.
Variable pad_level : GPIO_TypeDef -> GPIO_pinnums -> Z.

(** The port chain of [gpio_get_port_pin]; every comparison uses
    [strlen("porta")]. *)
Definition gpio_port_of (s : cstring) (port : option GPIO_TypeDef)
  : option GPIO_TypeDef :=
  if streq_n s "porta" (strlen_lit "porta") then Some GPIOA
  else if streq_n s "portb" (strlen_lit "porta") then Some GPIOB
  else if streq_n s "portc" (strlen_lit "porta") then Some GPIOC
  else if streq_n s "portd" (strlen_lit "porta") then Some GPIOD
  else if streq_n s "porte" (strlen_lit "porta") then Some GPIOE
  else if streq_n s "portf" (strlen_lit "porta") then Some GPIOF
  else if streq_n s "portg" (strlen_lit "porta") then Some GPIOG
  else if streq_n s "porth" (strlen_lit "porta") then Some GPIOH
  else if streq_n s "porti" (strlen_lit "porta") then Some GPIOI
  else port.

(** The pin chain of [gpio_get_port_pin]. *)
Definition gpio_pin_of (s : cstring) (pin : GPIO_pinnums) : GPIO_pinnums :=
  let maxlen := get_longest_str_length s (lit_cstr (str "pinX")) MAX_PIN_STR_LEN in
  if maxlen =? 4 then
    if streq_n s "pin0" maxlen then PIN0
    else if streq_n s "pin1" maxlen then PIN1
    else if streq_n s "pin2" maxlen then PIN2
    else if streq_n s "pin3" maxlen then PIN3
    else if streq_n s "pin4" maxlen then PIN4
    else if streq_n s "pin5" maxlen then PIN5
    else if streq_n s "pin6" maxlen then PIN6
    else if streq_n s "pin7" maxlen then PIN7
    else if streq_n s "pin8" (maxlen + 5) then PIN8
    else if streq_n s "pin9" maxlen then PIN9
    else pin
  else
    if streq_n s "pin10" maxlen then PIN10
    else if streq_n s "pin11" maxlen then PIN11
    else if streq_n s "pin12" maxlen then PIN12
    else if streq_n s "pin13" maxlen then PIN13
    else if streq_n s "pin14" maxlen then PIN14
    else if streq_n s "pin15" maxlen then PIN15
    else pin.

(** [gpio_get_port_pin(chp, commandl, &port, &pin)]: the two out
    parameters come in with the values the caller initialised them to. *)
Definition gpio_get_port_pin (commandl : list ptr)
    (port : option GPIO_TypeDef) (pin : GPIO_pinnums)
  : M (option GPIO_TypeDef * GPIO_pinnums) :=
  pp <- nth_tok commandl PORT ;;
  ps <- load_str pp ;;
  pn <- nth_tok commandl PIN ;;
  s <- load_str pn ;;
  ret (gpio_port_of ps port, gpio_pin_of s pin).

(** The PAL macros dereference the port: a null port is undefined
    behaviour, as the FIXME notes of [gpio.c] say. *)
Definition palReadPad (port : option GPIO_TypeDef) (pin : GPIO_pinnums) : M Z :=
  match port with
  | Some p => emit (PalReadPad p pin) ;; ret (pad_level p pin)
  | None => undefined
  end.

Definition palSetPad (port : option GPIO_TypeDef) (pin : GPIO_pinnums) : M unit :=
  match port with
  | Some p => emit (PalSetPad p pin)
  | None => undefined
  end.

Definition palClearPad (port : option GPIO_TypeDef) (pin : GPIO_pinnums) : M unit :=
  match port with
  | Some p => emit (PalClearPad p pin)
  | None => undefined
  end.

Definition palSetPadMode (port : option GPIO_TypeDef) (pin : GPIO_pinnums)
    (mode : Z) : M unit :=
  match port with
  | Some p => emit (PalSetPadMode p pin mode)
  | None => undefined
  end.

Definition gpio_get (commandl : list ptr) : M Z :=
  pp <- gpio_get_port_pin commandl None PIN0 ;;
  palReadPad (fst pp) (snd pp).

Definition gpio_set (commandl : list ptr) : M unit :=
  pp <- gpio_get_port_pin commandl None PIN0 ;;
  palSetPad (fst pp) (snd pp).

Definition gpio_clear (commandl : list ptr) : M unit :=
  pp <- gpio_get_port_pin commandl None PIN0 ;;
  palClearPad (fst pp) (snd pp).

(** The direction and sense chains of [gpio_config]; both start from the
    initial value 0. *)
Definition gpio_direction_of (s : cstring) (direction : Z) : Z :=
  if streq_n s "input" (strlen_lit "input") then PAL_STM32_MODE_INPUT
  else if streq_n s "output" (strlen_lit "output") then PAL_STM32_MODE_OUTPUT
  else direction.

Definition gpio_sense_of (s : cstring) (sense : Z) : Z :=
  if streq_n s "pullup" (strlen_lit "pullup") then PAL_STM32_PUDR_PULLUP
  else if streq_n s "pulldown" (strlen_lit "pulldown") then PAL_STM32_PUDR_PULLDOWN
  else if streq_n s "floating" (strlen_lit "floating") then PAL_STM32_PUDR_FLOATING
  else if streq_n s "analog" (strlen_lit "analog") then PAL_STM32_MODE_ANALOG
  else sense.

Definition gpio_config (commandl : list ptr) : M unit :=
  pp <- gpio_get_port_pin commandl None PIN0 ;;
  pd <- nth_tok commandl DIRECTION ;;
  d <- load_str pd ;;
  let direction := gpio_direction_of d 0 in
  psn <- nth_tok commandl SENSE ;;
  sn <- load_str psn ;;
  let sense := gpio_sense_of sn 0 in
  emit (Dbgvmsg "pin: %d" (Dbg_pin (snd pp))) ;;
  emit (Dbgvmsg "port: 0x%x\t0x%x" (Dbg_port (fst pp))) ;;
  emit (Dbgvmsg "dir: %d" (Dbg_int direction)) ;;
  emit (Dbgvmsg "sense: %d" (Dbg_int sense)) ;;
  palSetPadMode (fst pp) (snd pp) (Z.lor direction sense).

(** ** [fetch.c]: handlers *)

Definition HELP_HELPSTRING : string := "\r\n".
Definition GPIO_HELPSTRING : string :=
  "GPIO:\tgpio:<get,set,clear,configure>:port:pin:<input,output>:<pullup,pulldown,floating,analog>".
Definition VERSION_HELPSTRING : string := "VERSION:\tversion".
Definition RESETPINS_HELPSTRING : string := "RESETPINS:\tresetpins".

Definition fetch_not_yet (cmd_list data_list : list ptr) : M bool :=
  emit (Dbgmsg "Not implemented") ;;
  ret false.

Definition fetch_info (cl dl : list ptr) : M bool :=
  emit (Infomsg "Fetch commandstr Help") ;;
  emit (Chprintf_s VERSION_HELPSTRING) ;;
  emit (Chprintf_s RESETPINS_HELPSTRING) ;;
  emit (Chprintf_s GPIO_HELPSTRING) ;;
  ret true.

(** [strncasecmp(p, "lit", strlen("lit")) == 0] on a pointer. *)
Definition starts_with (p : ptr) (lit : string) : M bool :=
  s <- load_str p ;; ret (streq_n s lit (strlen_lit lit)).

Definition fetch_gpio (cmd_list data_list : list ptr) : M bool :=
  pa <- nth_tok cmd_list ACTION ;;
  va <- fetch_is_valid_gpio_subcommandA pa ;;
  if (0 <=? va)%Z then
    pp <- nth_tok cmd_list PORT ;;
    vp <- fetch_is_valid_port_subcommand pp ;;
    if (0 <=? vp)%Z then
      pn <- nth_tok cmd_list PIN ;;
      vn <- fetch_is_valid_pin_subcommand pn ;;
      if (0 <=? vn)%Z then
        c1 <- nth_tok cmd_list 1 ;;
        is_get <- starts_with c1 "get" ;;
        if is_get then
          v <- gpio_get cmd_list ;;
          emit (Chprintf_d v) ;;
          ret true
        else
          is_set <- starts_with c1 "set" ;;
          if is_set then gpio_set cmd_list ;; ret true
          else
            is_clear <- starts_with c1 "clear" ;;
            if is_clear then gpio_clear cmd_list ;; ret true
            else
              is_config <- starts_with c1 "config" ;;
              if is_config then
                pd <- nth_tok cmd_list DIRECTION ;;
                ps <- nth_tok cmd_list SENSE ;;
                if negb (is_null pd) && negb (is_null ps)
                then gpio_config cmd_list ;; ret true
                else ret false
              else
                fetch_not_yet cmd_list data_list ;;
                ret true
      else ret false
    else ret false
  else ret false.

Definition fetch_resetpins (cmd_list data_list : list ptr) : M bool :=
  emit (Dbgmsg "Resetting pins") ;;
  emit PalInit ;;
  ret true.

Definition run_handler (h : handler) (cl dl : list ptr) : M bool :=
  match h with
  | Fetch_info => fetch_info cl dl
  | Fetch_gpio => fetch_gpio cl dl
  | Fetch_resetpins => fetch_resetpins cl dl
  | Fetch_not_yet => fetch_not_yet cl dl
  end.

(** The callback chosen for a command name by [fetch_init_cmd_fns]; each
    comparison runs over [strlen(fetch_terminals.command[i])] bytes. *)
Definition cmd_fn_for (c : cstring) : handler :=
  if streq_n c "?" (length c) then Fetch_info
  else if streq_n c "help" (length c) then Fetch_info
  else if streq_n c "gpio" (length c) then Fetch_gpio
  else if streq_n c "resetpins" (length c) then Fetch_resetpins
  else Fetch_not_yet.

Fixpoint fetch_init_cmd_fns_from (l : list ptr) (acc : list (option handler))
  : M unit :=
  match l with
  | [] => set_cmd_fns acc
  | p :: r => c <- load_str p ;;
              fetch_init_cmd_fns_from r (acc ++ [Some (cmd_fn_for c)])
  end.

Definition fetch_init_cmd_fns : M unit :=
  fetch_init_cmd_fns_from (command fetch_terminals) [].

Definition fetch_init : M unit := fetch_init_cmd_fns.

(** ** Dispatcher *)

Definition fetch_dispatch (command_list data_list : list ptr) : M bool :=
  c0 <- nth_tok command_list 0 ;;
  cindex <- fetch_is_valid_command c0 ;;
  if (cindex <? 0)%Z then
    emit (Dbgmsg "Unrecognized command.") ;;
    ret false
  else
    fun s =>
      match cmd_fns s !! Z.to_nat cindex with
      | Some (Some h) =>
          (emit (Invoke h) ;; run_handler h command_list data_list) s
      | _ => (Undefined, s)
      end.

(** ** Tokenizer *)

Definition localinput : ptr := Ptr Blocalinput 0.
Definition commandstr : ptr := Ptr Bcommandstr 0.
Definition datastr : ptr := Ptr Bdatastr 0.

(** The literal ["\0"] that ends both token arrays. *)
Definition END_OF_TOKS : ptr := Lit (String "000" EmptyString).

(** [++n] on a [uint8_t]. *)
Definition incr_u8 (n : nat) : nat := (n + 1) mod 256.

(** The [while] loop that fills a token array: [delim] is [":"] with
    [set_tok := set_command_tok], or [" "] with [set_tok := set_data_tok].
    The result is the final [n] and the final [tokp].  Each iteration
    consumes at least one byte of a work buffer, so
    [FETCH_MAX_LINE_CHARS] iterations are more than the loop can make. *)
Fixpoint tok_loop (delim : string) (set_tok : nat -> ptr -> M unit)
    (fuel n : nat) (tokp : ptr) : M (nat * ptr) :=
  match fuel with
  | O => out_of_fuel
  | S fuel' =>
      r <- _strtok NULL delim tokp ;;
      if is_null (fst r) then ret (n, snd r)
      else if FETCH_MAX_COMMANDS <=? n then
        emit (Errormsg "Too many commands.") ;;
        set_tok 0 NULL ;;
        ret (n, snd r)
      else
        set_tok (incr_u8 n) (fst r) ;;
        tok_loop delim set_tok fuel' (incr_u8 n) (snd r)
  end.

(** [fetch_parse] from the test of [colonpart] on. *)
Definition fetch_parse_parts (colonpart parenpart tokp : ptr) : M bool :=
  if negb (is_null colonpart) then
    clen <- strlen colonpart ;;
    strncpy commandstr colonpart clen ;;
    store_char (Ptr Bcommandstr clen) NUL ;;
    fetch_remove_spaces commandstr ;;
    (if negb (is_null parenpart) then
       plen <- strlen parenpart ;;
       strncpy datastr parenpart plen ;;
       store_char (Ptr Bdatastr plen) NUL
     else ret tt) ;;
    (* break commandstr into array of strings *)
    r <- _strtok commandstr ":" tokp ;;
    set_command_tok 0 (fst r) ;;
    nt <- tok_loop ":" set_command_tok FETCH_MAX_LINE_CHARS 0 (snd r) ;;
    set_command_tok (incr_u8 (fst nt)) END_OF_TOKS ;;
    (if negb (is_null parenpart) then
       (* break data into array of strings *)
       r <- _strtok datastr " " (snd nt) ;;
       set_data_tok 0 (fst r) ;;
       nd <- tok_loop " " set_data_tok FETCH_MAX_LINE_CHARS 0 (snd r) ;;
       set_data_tok (incr_u8 (fst nd)) END_OF_TOKS
     else set_data_tok 0 NULL) ;;
    cl <- get_command_toks ;;
    dl <- get_data_toks ;;
    fetch_dispatch cl dl
  else
    (* empty line *)
    ret true.

Definition fetch_parse (inputline : ptr) : M bool :=
  (* don't mess up the string passed from outside this function *)
  strncpy localinput inputline FETCH_MAX_LINE_CHARS ;;
  c0 <- load_char localinput ;;
  if negb (Ascii.eqb c0 "("%char) || Ascii.eqb c0 ")"%char then
    r1 <- _strtok localinput "(" NULL ;;
    r2 <- _strtok NULL "(" (snd r1) ;;
    fetch_parse_parts (fst r1) (fst r2) (snd r2)
  else
    emit (Errormsg "No command-(only data?)") ;;
    ret false.

End Firmware.

(** ** Initial state and whole-line runs *)

Definition zeroed : list ascii := repeat NUL FETCH_MAX_LINE_CHARS.

(** The statics of [fetch.c] as the C runtime leaves them at start-up,
    with the caller's buffer holding [buf]. *)
Definition boot_state (buf : list ascii) : state := {|
  st_mem := {| m_input := buf; m_localinput := zeroed;
               m_commandstr := zeroed; m_datastr := zeroed |};
  command_toks := repeat NULL FETCH_MAX_LINE_CHARS;
  data_toks := repeat NULL FETCH_MAX_LINE_CHARS;
  cmd_fns := repeat None 7;
  trace := []
|}.

(** The caller's buffer for a line: its bytes and the terminator. *)
Definition line_buffer (line : string) : list ascii := str line ++ [NUL].

Definition set_input (s : state) (buf : list ascii) : state := {|
  st_mem := set_block (st_mem s) Binput buf;
  command_toks := command_toks s;
  data_toks := data_toks s;
  cmd_fns := cmd_fns s;
  trace := trace s
|}.

(** The state after [fetch_init], ready for the first line. *)
Definition init_state : state := snd (fetch_init (boot_state [])).

(** Hand one line to [fetch_parse]. *)
Definition run_line (M_PIN : nat) (lvl : GPIO_TypeDef -> GPIO_pinnums -> Z)
    (s : state) (line : string) : outcome bool * state :=
  fetch_parse M_PIN lvl (Ptr Binput 0) (set_input s (line_buffer line)).

(** The strings of a token array up to its end marker (a null pointer
    or an empty string). *)
Fixpoint tok_strings (m : memory) (toks : list ptr) : list cstring :=
  match toks with
  | [] => []
  | p :: r => match load_cstr m p with
              | Some (c :: s) => (c :: s) :: tok_strings m r
              | _ => []
              end
  end.

Definition command_path (s : state) : list cstring :=
  tok_strings (st_mem s) (command_toks s).
Definition data_items (s : state) : list cstring :=
  tok_strings (st_mem s) (data_toks s).

(** ** Notions used in the statements *)

(** The strings denoted by a vocabulary of literals. *)
Definition vocab (V : list string) : list cstring :=
  map (fun e => lit_cstr (str e)) V.

Definition nul_free (s : cstring) : Prop := Forall (fun c => c <> NUL) s.

Definition lower (s : cstring) : cstring := map tolower s.

Fixpoint cstr_eqb (s t : cstring) : bool :=
  match s, t with
  | [], [] => true
  | c :: s', d :: t' => Ascii.eqb c d && cstr_eqb s' t'
  | _, _ => false
  end.

(** [s] and [t] agree on their first [n] bytes, letter case ignored. *)
Definition caseless_upto (n : nat) (s t : cstring) : bool :=
  cstr_eqb (lower (take n s)) (lower (take n t)).

(** [s] and [t] are the same token up to letter case. *)
Definition caseless_eq (s t : cstring) : bool :=
  cstr_eqb (lower s) (lower t).

(** Index, counted from [i], of the first entry that satisfies [f];
    [-1] when there is none. *)
Fixpoint first_match (f : cstring -> bool) (V : list cstring) (i : nat) : Z :=
  match V with
  | [] => (-1)%Z
  | e :: r => if f e then Z.of_nat i else first_match f r (S i)
  end.

(** A pointer that does not point into the caller's line buffer. *)
Definition internal (p : ptr) : Prop :=
  match p with
  | Ptr Binput _ => False
  | _ => True
  end.

(** [c], started with the caller's buffer holding [buf], leaves it so,
    does not exhaust the fuel of its loops, and its result satisfies [R]. *)
Definition keeps {A} (buf : list ascii) (R : A -> Prop) (c : M A) : Prop :=
  forall s, m_input (st_mem s) = buf ->
    m_input (st_mem (snd (c s))) = buf /\
    match fst (c s) with
    | Ok a => R a
    | Out_of_fuel => False
    | _ => True
    end.

(** The comparison the specification asks for: case-insensitive, over
    [min(FETCH_MAX_CMD_STRLEN, max(len(entry), len(candidate)))] bytes. *)
Definition spec_compare (t e : cstring) : bool :=
  caseless_upto
    (Nat.min FETCH_MAX_CMD_STRLEN (Nat.max (length e) (length t))) e t.

(** The pin vocabulary, as source text. *)
Definition pin_names : list string :=
  ["pin0"; "pin1"; "pin2"; "pin3"; "pin4"; "pin5"; "pin6"; "pin7";
   "pin8"; "pin9"; "pin10"; "pin11"; "pin12"; "pin13"; "pin14";
   "pin15"]%string.

(** A vocabulary entry of exactly [FETCH_MAX_CMD_STRLEN] bytes, and a
    candidate one byte longer. *)
Definition a25 : string := "aaaaaaaaaaaaaaaaaaaaaaaaa".
Definition a26 : string := "aaaaaaaaaaaaaaaaaaaaaaaaaa".

Definition with_mem (s : state) (m : memory) : state := {|
  st_mem := m;
  command_toks := command_toks s;
  data_toks := data_toks s;
  cmd_fns := cmd_fns s;
  trace := trace s
|}.

(** *** Well-formed states

    A static work buffer has [FETCH_MAX_LINE_CHARS] bytes, the last of
    which is NUL, so that a string read from any offset of it ends inside
    it.  The entries of the token arrays are null, literals, or pointers
    into the work buffers.  The callback table has been filled by
    [fetch_init]. *)
Definition terminated (blk : list ascii) : Prop :=
  length blk = FETCH_MAX_LINE_CHARS /\
  blk !! (FETCH_MAX_LINE_CHARS - 1) = Some NUL.

Definition wf_mem (m : memory) : Prop :=
  terminated (m_localinput m) /\ terminated (m_commandstr m) /\
  terminated (m_datastr m).

Definition good_ptr (p : ptr) : Prop :=
  match p with
  | NULL | Lit _ => True
  | Ptr b off => b <> Binput /\ off < FETCH_MAX_LINE_CHARS
  end.

(** Null, or a pointer into the work buffer [b]. *)
Definition in_block (b : block) (p : ptr) : Prop :=
  match p with
  | NULL => True
  | Ptr b' off => b' = b /\ off < FETCH_MAX_LINE_CHARS
  | Lit _ => False
  end.

Definition wf (s : state) : Prop :=
  wf_mem (st_mem s) /\
  length (command_toks s) = FETCH_MAX_LINE_CHARS /\
  Forall good_ptr (command_toks s) /\
  length (data_toks s) = FETCH_MAX_LINE_CHARS /\
  Forall good_ptr (data_toks s) /\
  cmd_fns s = cmd_fns init_state.

(** From a well-formed state, [c] ends with a result that satisfies [R]
    or at a failed assertion, in a well-formed state either way: no
    undefined behaviour, no loop out of fuel. *)
Definition safe {A} (R : A -> Prop) (c : M A) : Prop :=
  forall s, wf s ->
    match c s with
    | (Ok a, s') => wf s' /\ R a
    | (Assert_failed _, s') => wf s'
    | _ => False
    end.

(** The caller's buffer holds, at [p], a line shorter than the work
    buffers. *)
Definition holds_line (s : state) (p : ptr) : Prop :=
  exists (off : nat) (line : cstring),
    p = Ptr Binput off /\
    cstr_of (drop off (m_input (st_mem s))) = Some line /\
    length line < FETCH_MAX_LINE_CHARS.

(** A run that ends with a result or at a failed assertion, in a
    well-formed state. *)
Definition ends_well {A} (r : outcome A * state) : Prop :=
  match r with
  | (Ok _, s') | (Assert_failed _, s') => wf s'
  | _ => False
  end.

(** The other vocabularies, as source text. *)
Definition command_names : list string :=
  ["?"; "help"; "gpio"; "adc"; "spi"; "i2c"; "resetpins"]%string.
Definition action_names : list string :=
  ["get"; "set"; "clear"; "configure"]%string.
Definition port_names : list string :=
  ["porta"; "portb"; "portc"; "portd"; "porte"; "portf"; "portg"; "porth";
   "porti"]%string.

(** The input lines examined below. *)
Definition LF : string := String "010" EmptyString.
Definition line_unmapped_mode : string := "gpio:configure:porta:pin1:foo:bar".
Definition line_no_sense : string := "gpio:configure:porta:pin1:output".
Definition line_nine_tokens : string := "gpio:set:porta:pin1:a:b:c:d:e".
Definition line_ten_tokens : string := "gpio:set:porta:pin1:a:b:c:d:e:f".
Definition line_close_paren : string := ")".
Definition line_with_data : string :=
  ("gpio:set:porta:pin3(01 02 0a)" ++ LF)%string.

Definition line_full_configure : string :=
  "gpio:configure:porta:pin1:input:pullup".
Definition line_bare_configure : string := "gpio:configure:portb:pin2".

Definition line_newline_only : string := LF.

(** A pad level for the runs that never read a pad. *)
Definition low_level (port : GPIO_TypeDef) (pin : GPIO_pinnums) : Z := 0%Z.

(** *** Notions for the handlers and the dispatcher *)

Definition port_number (p : GPIO_TypeDef) : nat :=
  match p with
  | GPIOA => 0 | GPIOB => 1 | GPIOC => 2 | GPIOD => 3 | GPIOE => 4
  | GPIOF => 5 | GPIOG => 6 | GPIOH => 7 | GPIOI => 8
  end.

Definition direction_names : list string := ["input"; "output"]%string.
Definition sense_names : list string :=
  ["pullup"; "pulldown"; "floating"; "analog"]%string.

(** The mode bits that [gpio_config] associates with the entries of the
    direction and of the sense vocabulary. *)
Definition direction_bits (i : nat) : Z :=
  nth i [PAL_STM32_MODE_INPUT; PAL_STM32_MODE_OUTPUT] 0%Z.
Definition sense_bits (i : nat) : Z :=
  nth i [PAL_STM32_PUDR_PULLUP; PAL_STM32_PUDR_PULLDOWN;
         PAL_STM32_PUDR_FLOATING; PAL_STM32_MODE_ANALOG] 0%Z.

(** The state [s] after the events [evs]. *)
Definition add_events (s : state) (evs : list event) : state := {|
  st_mem := st_mem s;
  command_toks := command_toks s;
  data_toks := data_toks s;
  cmd_fns := cmd_fns s;
  trace := trace s ++ evs
|}.

(** [c] does nothing to the state but add events to the trace. *)
Definition quiet {A} (c : M A) : Prop :=
  forall s, exists evs, snd (c s) = add_events s evs.

(** The callback table that [fetch_init] builds. *)
Definition bound_handlers : list (option handler) :=
  [Some Fetch_info; Some Fetch_info; Some Fetch_gpio; Some Fetch_not_yet;
   Some Fetch_not_yet; Some Fetch_not_yet; Some Fetch_resetpins].

(** *** Notions for the tokenizer *)

(** The fields of [s] between the occurrences of the byte [d], empty ones
    included: [fields ":" "a::b"] is ["a"; ""; "b"]. *)
Fixpoint fields (d : ascii) (s : cstring) : list cstring :=
  match s with
  | [] => [[]]
  | c :: r =>
      if Ascii.eqb c d then [] :: fields d r
      else match fields d r with
           | f :: fs => (c :: f) :: fs
           | [] => [[c]]
           end
  end.

Definition nonempty (s : cstring) : bool :=
  match s with [] => false | _ => true end.

(** The non-empty fields of [s], in order. *)
Definition tokens (d : ascii) (s : cstring) : list cstring :=
  List.filter nonempty (fields d s).

(** The remaining tokens behind a save pointer. *)
Definition tokens_opt (d : ascii) (r : option cstring) : list cstring :=
  match r with Some s => tokens d s | None => [] end.

(** A token list is kept when it has at most [FETCH_MAX_COMMANDS + 1]
    entries and dropped as a whole otherwise. *)
Definition capped (L : list cstring) : list cstring :=
  if length L <=? FETCH_MAX_COMMANDS + 1 then L else [].

(** The token array chosen by [w] and the assignment to it. *)
Definition arr_of (w : bool) (s : state) : list ptr :=
  if w then command_toks s else data_toks s.

Definition set_tok_of (w : bool) : nat -> ptr -> M unit :=
  if w then set_command_tok else set_data_tok.

(** The entries [0 .. length L - 1] of [arr] point into block [b] at the
    strings of [L], which are not empty. *)
Definition holds_toks (b : block) (m : memory) (arr : list ptr)
    (L : list cstring) : Prop :=
  forall i t, L !! i = Some t ->
    exists off, arr !! i = Some (Ptr b off) /\
                load_cstr m (Ptr b off) = Some t /\ t <> [].

(** The same, every string ending before offset [bound]. *)
Definition holds_toks_below (b : block) (m : memory) (arr : list ptr)
    (L : list cstring) (bound : nat) : Prop :=
  forall i t, L !! i = Some t ->
    exists off, arr !! i = Some (Ptr b off) /\
                load_cstr m (Ptr b off) = Some t /\ t <> [] /\
                off + length t < bound.

(** [m'] differs from [m] in block [b] at most, whose size is kept. *)
Definition only_block (b : block) (m m' : memory) : Prop :=
  (forall b', b' <> b -> get_block m' b' = get_block m b') /\
  length (get_block m' b) = length (get_block m b).

(** The save pointer [p] stands for the rest [r] of the string being
    tokenized in block [b]. *)
Definition saveptr_is (b : block) (m : memory) (p : ptr) (r : option cstring)
  : Prop :=
  match p with
  | NULL => r = None
  | Ptr b' off => b' = b /\ exists s, r = Some s /\ load_cstr m p = Some s
  | Lit _ => False
  end.

Definition ptr_offset (p : ptr) : nat :=
  match p with Ptr _ off => off | _ => 0 end.

(** What a token loop on array [w] and block [b] leaves alone. *)
Definition loop_frame (w : bool) (b : block) (s s' : state) : Prop :=
  only_block b (st_mem s) (st_mem s') /\
  arr_of (negb w) s' = arr_of (negb w) s /\
  cmd_fns s' = cmd_fns s /\
  length (arr_of w s') = length (arr_of w s).

Definition too_many : event := Errormsg "Too many commands.".

(** The array [arr] lists the strings of [L], held in block [b], and
    ends right after them: with the end marker, or, when nothing is
    listed, with a null pointer in front. *)
Definition array_holds (b : block) (m : memory) (arr : list ptr)
    (L : list cstring) : Prop :=
  holds_toks b m arr L /\
  match L with
  | [] => arr !! 0 = Some NULL
  | _ => arr !! length L = Some END_OF_TOKS
  end.

(** The error messages of one token loop that met [L]. *)
Definition overflow_msgs (L : list cstring) : list event :=
  if length L <=? FETCH_MAX_COMMANDS + 1 then [] else [too_many].


(** The error messages of the data token loop, for the fields [rest]
    that follow the command part of a line. *)
Definition data_msgs (rest : list cstring) : list event :=
  match head rest with
  | None => []
  | Some dpart => overflow_msgs (tokens " " dpart)
  end.

(** The command tokens and the data tokens that [fetch_parse] keeps of
    a line whose fields between ['('] are [cpart :: rest]. *)
Definition command_tokens_of (cpart : cstring) : list cstring :=
  capped (tokens ":" (fetch_remove_spaces_str cpart)).

Definition data_tokens_of (rest : list cstring) : list cstring :=
  match head rest with
  | None => []
  | Some dpart => capped (tokens " " dpart)
  end.

(** The caller's buffer holds [line] at offset [off]; the line fits the
    work buffers and does not start with ['(']. *)
Definition command_line (s : state) (off : nat) (line : cstring) : Prop :=
  cstr_of (drop off (m_input (st_mem s))) = Some line /\
  length line < FETCH_MAX_LINE_CHARS /\
  hd NUL line <> "("%char.


(** The states of a session: the state left by [fetch_init] at start-up,
    and the state left by every call of [fetch_parse] that returned, on a
    line shorter than the work buffers. *)
Inductive reachable (M_PIN : nat) (lvl : GPIO_TypeDef -> GPIO_pinnums -> Z)
  : state -> Prop :=
| reach_init : reachable M_PIN lvl init_state
| reach_line (s : state) (line : string) (b : bool) (s' : state) :
    reachable M_PIN lvl s ->
    String.length line < FETCH_MAX_LINE_CHARS ->
    run_line M_PIN lvl s line = (Ok b, s') ->
    reachable M_PIN lvl s'.


(** ** Bytes and comparisons *)

Lemma tolower_NUL_inv (c : ascii) : tolower c = NUL -> c = NUL.
Proof.
  destruct c as [[] [] [] [] [] [] [] []]; vm_compute; congruence.
Qed.

Lemma tolower_idem (c : ascii) : tolower (tolower c) = tolower c.
Proof.
  destruct c as [[] [] [] [] [] [] [] []]; reflexivity.
Qed.

Lemma char_val_inj (c d : ascii) : char_val c = char_val d -> c = d.
Proof.
  unfold char_val. intros H. apply Nat2Z.inj in H.
  rewrite <- (ascii_nat_embedding c), <- (ascii_nat_embedding d).
  now rewrite H.
Qed.

Lemma is_NUL_true (c : ascii) : is_NUL c = true <-> c = NUL.
Proof. unfold is_NUL. apply Ascii.eqb_eq. Qed.

Lemma is_NUL_false (c : ascii) : is_NUL c = false <-> c <> NUL.
Proof. unfold is_NUL. apply Ascii.eqb_neq. Qed.

Lemma cstr_eqb_eq (s t : cstring) : cstr_eqb s t = true <-> s = t.
Proof.
  revert t. induction s as [|c s IH]; intros [|d t]; simpl;
    try (split; [discriminate | congruence]); try tauto.
  rewrite andb_true_iff, Ascii.eqb_eq, IH.
  split; [intros [-> ->]; reflexivity | intros [= -> ->]; auto].
Qed.

(** [strncasecmp] returns 0 exactly when the first [n] bytes agree up to
    letter case. *)
Lemma strncasecmp_zero (n : nat) (s t : cstring) :
  nul_free s -> nul_free t ->
  (strncasecmp s t n =? 0)%Z = caseless_upto n s t.
Proof.
  unfold caseless_upto, lower.
  revert s t. induction n as [|n IH]; intros s t Hs Ht; [reflexivity|].
  destruct Hs as [|c s Hc Hs], Ht as [|d t Hd Ht];
    cbn [strncasecmp hd tl firstn map cstr_eqb];
    change (tolower NUL) with NUL.
  - reflexivity.
  - destruct (Ascii.eqb_spec NUL (tolower d)) as [E|E].
    + symmetry in E. apply tolower_NUL_inv in E. contradiction.
    + apply Z.eqb_neq. intros H. apply E, char_val_inj. lia.
  - destruct (Ascii.eqb_spec (tolower c) NUL) as [E|E].
    + apply tolower_NUL_inv in E. contradiction.
    + apply Z.eqb_neq. intros H. apply E, char_val_inj. lia.
  - destruct (Ascii.eqb_spec (tolower c) (tolower d)) as [E|E]; cbn [andb].
    + destruct (is_NUL (tolower c)) eqn:Z0.
      * apply is_NUL_true, tolower_NUL_inv in Z0. contradiction.
      * now apply IH.
    + apply Z.eqb_neq. intros H. apply E, char_val_inj. lia.
Qed.

Lemma cstr_of_nul_free (l : list ascii) (s : cstring) :
  cstr_of l = Some s -> nul_free s.
Proof.
  revert s. induction l as [|c l IH]; simpl; intros s H; [discriminate|].
  destruct (is_NUL c) eqn:E.
  - injection H as <-. constructor.
  - destruct (cstr_of l) as [s'|]; [|discriminate].
    injection H as <-. constructor; [now apply is_NUL_false | now apply IH].
Qed.

Lemma lit_cstr_nul_free (l : list ascii) : nul_free (lit_cstr l).
Proof.
  induction l as [|c l IH]; simpl; [constructor|].
  destruct (is_NUL c) eqn:E; constructor; [now apply is_NUL_false | exact IH].
Qed.

Lemma load_cstr_nul_free (m : memory) (p : ptr) (s : cstring) :
  load_cstr m p = Some s -> nul_free s.
Proof.
  destruct p as [|b off|l]; simpl; intros H.
  - discriminate.
  - eapply cstr_of_nul_free; eauto.
  - injection H as <-. apply lit_cstr_nul_free.
Qed.

(** ** Running computations *)

Lemma bind_ok {A B} (c : M A) (k : A -> M B) (s s' : state) (a : A) :
  c s = (Ok a, s') -> bind c k s = k a s'.
Proof. unfold bind. now intros ->. Qed.

Lemma load_str_ok (p : ptr) (t : cstring) (s : state) :
  load_cstr (st_mem s) p = Some t -> load_str p s = (Ok t, s).
Proof. unfold load_str, get_mem, bind, of_option. now intros ->. Qed.

Lemma load_cstr_not_null (m : memory) (p : ptr) (t : cstring) :
  load_cstr m p = Some t -> is_null p = false.
Proof. destruct p; simpl; congruence. Qed.

(** ** Token matcher *)

Lemma fetch_token_match_from_spec (V : list string) :
  forall (pre : list ptr) (p : ptr) (t : cstring) (s : state),
    load_cstr (st_mem s) p = Some t ->
    fetch_token_match_from (pre ++ map Lit V) p (length pre) (length V) s
    = (Ok (first_match (spec_compare t) (vocab V) (length pre)), s).
Proof.
  induction V as [|e V IH]; intros pre p t s Hp; [reflexivity|].
  cbn [fetch_token_match_from length map vocab first_match].
  rewrite (bind_ok _ _ s s (Lit e))
    by (unfold of_option; now rewrite list_lookup_middle).
  rewrite (bind_ok _ _ s s tt)
    by (unfold chDbgAssert; now rewrite (load_cstr_not_null _ _ _ Hp)).
  rewrite (bind_ok _ _ s s (lit_cstr (str e))) by now apply load_str_ok.
  rewrite (bind_ok _ _ s s t) by now apply load_str_ok.
  unfold get_longest_str_length, spec_compare.
  rewrite strncasecmp_zero, Nat.min_comm
    by eauto using lit_cstr_nul_free, load_cstr_nul_free.
  destruct (caseless_upto _ _ _); [reflexivity|].
  specialize (IH (pre ++ [Lit e]) p t s Hp).
  rewrite <- app_assoc, length_app, Nat.add_1_r in IH. exact IH.
Qed.

(** C1. [fetch_token_match(vocabulary, candidate)] compares every entry
    with the candidate case-insensitively over exactly
    [min(FETCH_MAX_CMD_STRLEN, max(len(entry), len(candidate)))] bytes and
    returns the index of the first entry, in vocabulary order, that matches
    under this comparison ([-1] when none does); it changes nothing. *)
Theorem fetch_token_match_first_match
    (V : list string) (p : ptr) (t : cstring) (s : state) :
  load_cstr (st_mem s) p = Some t ->
  fetch_token_match (map Lit V) p (NELEMS (map Lit V)) s
  = (Ok (first_match
           (fun e => caseless_upto
              (Nat.min FETCH_MAX_CMD_STRLEN (Nat.max (length e) (length t)))
              e t)
           (vocab V) 0), s).
Proof.
  intros Hp. unfold fetch_token_match, NELEMS.
  rewrite Nat2Z.id, length_map.
  exact (fetch_token_match_from_spec V [] p t s Hp).
Qed.

Lemma fetch_token_match_first_match_witness :
  load_cstr (st_mem init_state) (Lit "PIN10") = Some (str "PIN10") /\
  fetch_token_match (map Lit pin_names) (Lit "PIN10")
                    (NELEMS (map Lit pin_names)) init_state
  = (Ok 10%Z, init_state).
Proof.
  split; [reflexivity|].
  exact (fetch_token_match_first_match pin_names (Lit "PIN10") (str "PIN10")
           init_state eq_refl).
Defined.

(** *** Vocabularies of short entries *)

Lemma cstr_eqb_length (s t : cstring) :
  cstr_eqb s t = true -> length s = length t.
Proof. intros H. apply cstr_eqb_eq in H. now rewrite H. Qed.

Lemma caseless_eq_length (s t : cstring) :
  caseless_eq s t = true -> length s = length t.
Proof.
  unfold caseless_eq, lower. intros H. apply cstr_eqb_length in H.
  now rewrite !length_map in H.
Qed.

(** With an entry shorter than the cap the capped comparison is plain
    equality up to letter case. *)
Lemma spec_compare_short (t e : cstring) :
  length e < FETCH_MAX_CMD_STRLEN ->
  spec_compare t e = caseless_eq e t.
Proof.
  intros He. unfold spec_compare, caseless_upto, caseless_eq.
  destruct (Nat.le_gt_cases (length t) FETCH_MAX_CMD_STRLEN) as [Ht|Ht].
  - rewrite !firstn_all2; [reflexivity | lia | lia].
  - rewrite Nat.min_l by lia.
    rewrite (firstn_all2 e) by lia.
    apply eq_true_iff_eq. split; intros H; apply cstr_eqb_length in H;
      unfold lower in H; rewrite !length_map in H.
    + rewrite length_take in H. lia.
    + lia.
Qed.

Lemma first_match_ext (f g : cstring -> bool) (V : list cstring) (i : nat) :
  Forall (fun e => f e = g e) V -> first_match f V i = first_match g V i.
Proof.
  intros H. revert i. induction H as [|e V He _ IH]; intros i; simpl;
    [reflexivity|].
  rewrite He. destruct (g e); [reflexivity | apply IH].
Qed.

Lemma first_match_inv (f : cstring -> bool) (V : list cstring) :
  forall (k : nat) (z : Z),
    first_match f V k = z ->
    (z = (-1)%Z /\ Forall (fun e => f e = false) V) \/
    (exists (j : nat) (e : cstring),
        V !! j = Some e /\ f e = true /\ z = Z.of_nat (k + j) /\
        Forall (fun e' => f e' = false) (take j V)).
Proof.
  induction V as [|e V IH]; intros k z H; simpl in H.
  - left. split; [now symmetry | constructor].
  - destruct (f e) eqn:Fe.
    + right. exists 0, e. rewrite Nat.add_0_r.
      repeat split; [assumption | now symmetry | constructor].
    + destruct (IH (S k) z H) as [[Hz Hall]|(j & e' & Hj & Fe' & Hz & Hall)].
      * left. split; [assumption | now constructor].
      * right. exists (S j), e'. repeat split; try assumption.
        -- rewrite Hz. f_equal. lia.
        -- simpl. now constructor.
Qed.

(** For a vocabulary whose entries are shorter than the cap, the matcher
    returns the first entry equal to the candidate up to letter case. *)
Lemma fetch_token_match_short (V : list string) (p : ptr) (t : cstring)
    (s : state) :
  load_cstr (st_mem s) p = Some t ->
  Forall (fun e => length e < FETCH_MAX_CMD_STRLEN) (vocab V) ->
  fetch_token_match (map Lit V) p (NELEMS (map Lit V)) s
  = (Ok (first_match (fun e => caseless_eq e t) (vocab V) 0), s).
Proof.
  intros Hp Hshort. unfold fetch_token_match, NELEMS.
  rewrite Nat2Z.id, length_map.
  pose proof (fetch_token_match_from_spec V [] p t s Hp) as E.
  cbn [app length] in E. rewrite E.
  f_equal. f_equal. apply first_match_ext.
  eapply Forall_impl; [exact Hshort|].
  intros e He. now apply spec_compare_short.
Qed.

Lemma first_match_at (f : cstring -> bool) (V : list cstring) :
  forall (k i : nat) (e : cstring),
    V !! i = Some e -> f e = true ->
    Forall (fun e' => f e' = false) (take i V) ->
    first_match f V k = Z.of_nat (k + i).
Proof.
  induction V as [|e0 V IH]; intros k i e Hi Fe Hall; [discriminate|].
  destruct i as [|i]; simpl in *.
  - injection Hi as ->. rewrite Fe. f_equal. lia.
  - inversion Hall as [|? ? F0 Hall']; subst. rewrite F0.
    rewrite (IH (S k) i e Hi Fe Hall'). f_equal. lia.
Qed.

Lemma first_match_none (f : cstring -> bool) (V : list cstring) (k : nat) :
  Forall (fun e => f e = false) V -> first_match f V k = (-1)%Z.
Proof.
  intros H. revert k. induction H as [|e V Fe _ IH]; intros k; simpl;
    [reflexivity|].
  rewrite Fe. apply IH.
Qed.

(** C3, as amended.  For a vocabulary whose entries are all shorter than
    [FETCH_MAX_CMD_STRLEN] bytes: when the entry at index [i] equals the
    candidate up to letter case (the entry itself, its upper-case or a
    mixed-case variant) and no earlier entry does, [fetch_token_match]
    returns [i]; when no entry equals the candidate up to letter case it
    returns [-1]. *)
Theorem fetch_token_match_caseless
    (V : list string) (p : ptr) (t : cstring) (s : state) :
  load_cstr (st_mem s) p = Some t ->
  Forall (fun e => length e < FETCH_MAX_CMD_STRLEN) (vocab V) ->
  (forall (i : nat) (e : cstring),
      vocab V !! i = Some e ->
      caseless_eq e t = true ->
      Forall (fun e' => caseless_eq e' t = false) (take i (vocab V)) ->
      fetch_token_match (map Lit V) p (NELEMS (map Lit V)) s
      = (Ok (Z.of_nat i), s)) /\
  (Forall (fun e => caseless_eq e t = false) (vocab V) ->
   fetch_token_match (map Lit V) p (NELEMS (map Lit V)) s = (Ok (-1)%Z, s)).
Proof.
  intros Hp Hshort.
  rewrite (fetch_token_match_short V p t s Hp Hshort).
  split.
  - intros i e Hi He Hall.
    now rewrite (first_match_at (fun e => caseless_eq e t) _ 0 i e Hi He Hall).
  - intros Hall. now rewrite first_match_none.
Qed.

Lemma fetch_token_match_caseless_witness :
  load_cstr (st_mem init_state) (Lit "PiN7") = Some (str "PiN7") /\
  Forall (fun e => length e < FETCH_MAX_CMD_STRLEN) (vocab pin_names) /\
  fetch_token_match (map Lit pin_names) (Lit "PiN7")
                    (NELEMS (map Lit pin_names)) init_state
  = (Ok 7%Z, init_state) /\
  fetch_token_match (map Lit pin_names) (Lit "pin16")
                    (NELEMS (map Lit pin_names)) init_state
  = (Ok (-1)%Z, init_state).
Proof.
  assert (Hshort : Forall (fun e => length e < FETCH_MAX_CMD_STRLEN)
                          (vocab pin_names))
    by (repeat constructor).
  split; [reflexivity|]. split; [exact Hshort|]. split.
  - apply (proj1 (fetch_token_match_caseless pin_names (Lit "PiN7")
                    (str "PiN7") init_state eq_refl Hshort) 7 (str "pin7"));
      [reflexivity | reflexivity | repeat constructor].
  - apply (proj2 (fetch_token_match_caseless pin_names (Lit "pin16")
                    (str "pin16") init_state eq_refl Hshort)).
    repeat constructor.
Defined.

(** C3 as stated fails in two ways.  A candidate of 26 bytes that is no
    entry of the vocabulary, not even up to letter case, is matched by an
    entry of 25 bytes, because only [FETCH_MAX_CMD_STRLEN] bytes are
    compared; and an entry can be shadowed by an earlier one that differs
    from it in letter case only. *)
Lemma fetch_token_match_not_exact :
  ~ In a26 [a25] /\
  forallb (fun e => negb (caseless_eq (str e) (str a26))) [a25] = true /\
  fst (fetch_token_match (map Lit [a25]) (Lit a26)
                         (NELEMS (map Lit [a25])) init_state) = Ok 0%Z /\
  nth_error ["pin"; "PIN"]%string 1 = Some "PIN"%string /\
  fst (fetch_token_match (map Lit ["pin"; "PIN"]%string) (Lit "PIN")
                         (NELEMS (map Lit ["pin"; "PIN"]%string)) init_state)
  = Ok 0%Z.
Proof.
  split.
  - intros [H|[]]. discriminate H.
  - repeat split; vm_compute; reflexivity.
Qed.

(** ** Pin tokens *)

Lemma strncasecmp_lower_l (n : nat) :
  forall s t : cstring, strncasecmp (lower s) t n = strncasecmp s t n.
Proof.
  induction n as [|n IH]; intros s t; [reflexivity|].
  destruct s as [|c s]; cbn [strncasecmp lower map hd tl].
  - reflexivity.
  - rewrite tolower_idem. fold (lower s). now rewrite IH.
Qed.

Lemma streq_n_lower (s : cstring) (lit : string) (n : nat) :
  streq_n (lower s) lit n = streq_n s lit n.
Proof. unfold streq_n. now rewrite strncasecmp_lower_l. Qed.

Lemma get_longest_str_length_lower (s u : cstring) (n : nat) :
  get_longest_str_length (lower s) u n = get_longest_str_length s u n.
Proof. unfold get_longest_str_length, lower. now rewrite length_map. Qed.

Lemma gpio_pin_of_lower (M : nat) (s : cstring) (pin : GPIO_pinnums) :
  gpio_pin_of M (lower s) pin = gpio_pin_of M s pin.
Proof.
  unfold gpio_pin_of.
  now rewrite get_longest_str_length_lower, !streq_n_lower.
Qed.

Lemma pin_names_short :
  Forall (fun e => length e < FETCH_MAX_CMD_STRLEN) (vocab pin_names).
Proof. repeat constructor. Qed.

Lemma gpio_get_port_pin_ok (M : nat) (commandl : list ptr) (pp pn : ptr)
    (ps t : cstring) (port : option GPIO_TypeDef) (pin : GPIO_pinnums)
    (s : state) :
  commandl !! PORT = Some pp -> load_cstr (st_mem s) pp = Some ps ->
  commandl !! PIN = Some pn -> load_cstr (st_mem s) pn = Some t ->
  gpio_get_port_pin M commandl port pin s
  = (Ok (gpio_port_of ps port, gpio_pin_of M t pin), s).
Proof.
  intros H1 H2 H3 H4. unfold gpio_get_port_pin, nth_tok.
  rewrite (bind_ok _ _ s s pp) by (now rewrite H1).
  rewrite (bind_ok _ _ s s ps) by (now apply load_str_ok).
  rewrite (bind_ok _ _ s s pn) by (now rewrite H3).
  rewrite (bind_ok _ _ s s t) by (now apply load_str_ok).
  reflexivity.
Qed.

(** What [gpio_pin_of] makes of a token that equals a pin name up to
    letter case. *)
Lemma gpio_pin_of_valid (M : nat) (t : cstring) (j : nat) (e : cstring)
    (pin0 : GPIO_pinnums) :
  5 <= M ->
  vocab pin_names !! j = Some e ->
  caseless_eq e t = true ->
  pin_number (gpio_pin_of M t pin0) = j /\
  get_longest_str_length t (lit_cstr (str "pinX")) M = (if j <? 10 then 4 else 5) /\
  streq_n t "pin8" (4 + 5) = streq_n t "pin8" 4.
Proof.
  intros HM Hj He.
  apply cstr_eqb_eq in He.
  rewrite <- (gpio_pin_of_lower M t), <- (get_longest_str_length_lower t),
    <- !(streq_n_lower t), <- He.
  replace M with (5 + (M - 5)) by lia. generalize (M - 5). intros m.
  do 16 (destruct j as [|j];
         [injection Hj as <-; vm_compute; repeat split|]).
  discriminate Hj.
Qed.

Lemma fetch_is_valid_pin_subcommand_short (p : ptr) (t : cstring) (s : state) :
  load_cstr (st_mem s) p = Some t ->
  fetch_is_valid_pin_subcommand p s
  = (Ok (first_match (fun e => caseless_eq e t) (vocab pin_names) 0), s).
Proof.
  intros Hp. exact (fetch_token_match_short pin_names p t s Hp pin_names_short).
Qed.

(** C2. The pin vocabulary keeps overlapping names apart: ["pin1"] resolves
    to entry 1 and ["pin10"] to entry 10.  With [MAX_PIN_STR_LEN] at least
    5, [gpio_get_port_pin] maps every pin token accepted by the validator
    to the pin whose number is the token's vocabulary index; the compared
    length is 4 for ["pin0"].. ["pin9"] and 5 for ["pin10"].. ["pin15"], and
    the longer count passed for ["pin8"] changes nothing. *)
Theorem pin_tokens_resolve (M : nat) (s : state) :
  5 <= M ->
  fetch_is_valid_pin_subcommand (Lit "pin1") s = (Ok 1%Z, s) /\
  fetch_is_valid_pin_subcommand (Lit "pin10") s = (Ok 10%Z, s) /\
  forall (commandl : list ptr) (pp pn : ptr) (ps t : cstring) (i : Z)
         (port0 : option GPIO_TypeDef) (pin0 : GPIO_pinnums),
    commandl !! PORT = Some pp -> load_cstr (st_mem s) pp = Some ps ->
    commandl !! PIN = Some pn -> load_cstr (st_mem s) pn = Some t ->
    fetch_is_valid_pin_subcommand pn s = (Ok i, s) -> (0 <= i)%Z ->
    exists pin : GPIO_pinnums,
      gpio_get_port_pin M commandl port0 pin0 s
      = (Ok (gpio_port_of ps port0, pin), s) /\
      Z.of_nat (pin_number pin) = i /\
      get_longest_str_length t (lit_cstr (str "pinX")) M
      = (if (i <? 10)%Z then 4 else 5) /\
      streq_n t "pin8" (4 + 5) = streq_n t "pin8" 4.
Proof.
  intros HM. split; [|split].
  - exact (fetch_is_valid_pin_subcommand_short (Lit "pin1") _ s eq_refl).
  - exact (fetch_is_valid_pin_subcommand_short (Lit "pin10") _ s eq_refl).
  - intros commandl pp pn ps t i port0 pin0 H1 H2 H3 H4 Hv Hi.
    rewrite (fetch_is_valid_pin_subcommand_short pn t s H4) in Hv.
    assert (Hfm : first_match (fun e => caseless_eq e t) (vocab pin_names) 0 = i)
      by congruence.
    clear Hv. apply first_match_inv in Hfm. rename Hfm into Hv.
    destruct Hv as [[Hz _]|(j & e & Hj & He & Hz & _)]; [lia|].
    destruct (gpio_pin_of_valid M t j e pin0 HM Hj He) as (Ha & Hb & Hc).
    exists (gpio_pin_of M t pin0). repeat split.
    + now apply (gpio_get_port_pin_ok M commandl pp pn).
    + rewrite Ha, Hz. reflexivity.
    + rewrite Hb, Hz. simpl Z.of_nat.
      destruct (j <? 10) eqn:E1, (Z.of_nat j <? 10)%Z eqn:E2;
        try reflexivity.
      * apply Nat.ltb_lt in E1. apply Z.ltb_ge in E2. lia.
      * apply Nat.ltb_ge in E1. apply Z.ltb_lt in E2. lia.
    + exact Hc.
Qed.

Lemma pin_tokens_resolve_witness :
  5 <= 5 /\
  exists pin : GPIO_pinnums,
    gpio_get_port_pin 5 (map Lit ["gpio"; "get"; "porta"; "PIN8"]%string)
                      None PIN0 init_state
    = (Ok (gpio_port_of (str "porta") None, pin), init_state) /\
    Z.of_nat (pin_number pin) = 8%Z /\
    get_longest_str_length (str "PIN8") (lit_cstr (str "pinX")) 5 = 4 /\
    streq_n (str "PIN8") "pin8" (4 + 5) = streq_n (str "PIN8") "pin8" 4.
Proof.
  split; [lia|].
  apply (proj2 (proj2 (pin_tokens_resolve 5 init_state (le_n 5)))
           (map Lit ["gpio"; "get"; "porta"; "PIN8"]%string)
           (Lit "porta") (Lit "PIN8") (str "porta") (str "PIN8") 8%Z
           None PIN0);
    try reflexivity.
  lia.
Defined.

(** ** Whole lines, from the initial state *)

Ltac run_with M :=
  replace M with (5 + (M - 5)) by lia;
  generalize (M - 5); intro;
  vm_compute; repeat split; try apply le_n.

(** C4. A [configure] statement whose direction and sense tokens belong
    to no vocabulary is executed all the same: ["foo"] and ["bar"] leave
    both mode variables of [gpio_config] at their initial value 0, and
    [palSetPadMode] is called with mode 0. *)
Theorem configure_unmapped_mode_reaches_hardware
    (M : nat) (lvl : GPIO_TypeDef -> GPIO_pinnums -> Z) :
  5 <= M ->
  fst (fetch_is_valid_gpio_direction (Lit "foo") init_state) = Ok (-1)%Z /\
  fst (fetch_is_valid_gpio_sense (Lit "bar") init_state) = Ok (-1)%Z /\
  map string_of_list_ascii
      (command_path (snd (run_line M lvl init_state line_unmapped_mode)))
  = ["gpio"; "configure"; "porta"; "pin1"; "foo"; "bar"]%string /\
  fst (run_line M lvl init_state line_unmapped_mode) = Ok true /\
  List.filter is_hardware (trace (snd (run_line M lvl init_state line_unmapped_mode)))
  = [PalSetPadMode GPIOA PIN1 0].
Proof. intros HM. run_with M. Qed.

Lemma configure_unmapped_mode_reaches_hardware_witness :
  5 <= 5 /\
  fst (run_line 5 low_level init_state line_unmapped_mode) = Ok true /\
  List.filter is_hardware (trace (snd (run_line 5 low_level init_state line_unmapped_mode)))
  = [PalSetPadMode GPIOA PIN1 0].
Proof.
  split; [lia|].
  exact (proj2 (proj2 (proj2
    (configure_unmapped_mode_reaches_hardware 5 low_level (le_n 5))))).
Defined.

(** The test of [fetch_gpio] does what it was written for when an absent
    token is a null pointer. *)
Lemma fetch_gpio_null_sense (M : nat) (lvl : GPIO_TypeDef -> GPIO_pinnums -> Z) :
  fetch_gpio M lvl
    [Lit "gpio"; Lit "configure"; Lit "porta"; Lit "pin1"; Lit "output"; NULL]
    [NULL] init_state
  = (Ok false, init_state).
Proof. reflexivity. Qed.

(** C5. A [configure] statement that lacks the sense token reaches the
    hardware: the tokenizer ends the command list with a pointer to an
    empty string, not with a null pointer, so the test of [fetch_gpio]
    for absent tokens passes and [palSetPadMode] is called. *)
Theorem configure_without_sense_reaches_hardware
    (M : nat) (lvl : GPIO_TypeDef -> GPIO_pinnums -> Z) :
  5 <= M ->
  map string_of_list_ascii
      (command_path (snd (run_line M lvl init_state line_no_sense)))
  = ["gpio"; "configure"; "porta"; "pin1"; "output"]%string /\
  command_toks (snd (run_line M lvl init_state line_no_sense)) !! SENSE
  = Some END_OF_TOKS /\
  fst (run_line M lvl init_state line_no_sense) = Ok true /\
  List.filter is_hardware (trace (snd (run_line M lvl init_state line_no_sense)))
  = [PalSetPadMode GPIOA PIN1 PAL_STM32_MODE_OUTPUT].
Proof. intros HM. run_with M. Qed.

Lemma configure_without_sense_reaches_hardware_witness :
  5 <= 5 /\
  fst (run_line 5 low_level init_state line_no_sense) = Ok true /\
  List.filter is_hardware (trace (snd (run_line 5 low_level init_state line_no_sense)))
  = [PalSetPadMode GPIOA PIN1 PAL_STM32_MODE_OUTPUT].
Proof.
  split; [lia|].
  exact (proj2 (proj2
    (configure_without_sense_reaches_hardware 5 low_level (le_n 5)))).
Defined.

(** C6. A line of nine colon-separated tokens, one more than
    [FETCH_MAX_COMMANDS], is tokenized in full, reports no error and is
    dispatched to the gpio handler, which sets the pad. *)
Theorem nine_tokens_are_dispatched
    (M : nat) (lvl : GPIO_TypeDef -> GPIO_pinnums -> Z) :
  5 <= M ->
  map string_of_list_ascii
      (command_path (snd (run_line M lvl init_state line_nine_tokens)))
  = ["gpio"; "set"; "porta"; "pin1"; "a"; "b"; "c"; "d"; "e"]%string /\
  FETCH_MAX_COMMANDS < 9 /\
  fst (run_line M lvl init_state line_nine_tokens) = Ok true /\
  trace (snd (run_line M lvl init_state line_nine_tokens))
  = [Invoke Fetch_gpio; PalSetPad GPIOA PIN1].
Proof. intros HM. run_with M. Qed.

Lemma nine_tokens_are_dispatched_witness :
  5 <= 5 /\
  trace (snd (run_line 5 low_level init_state line_nine_tokens))
  = [Invoke Fetch_gpio; PalSetPad GPIOA PIN1].
Proof.
  split; [lia|].
  exact (proj2 (proj2 (proj2
    (nine_tokens_are_dispatched 5 low_level (le_n 5))))).
Defined.

(** With ten tokens the error is reported and the first entry of the
    command list is cleared; the dispatcher is entered all the same and
    stops at the assertion of the token matcher. *)
Lemma ten_tokens_are_refused (M : nat) (lvl : GPIO_TypeDef -> GPIO_pinnums -> Z) :
  fst (run_line M lvl init_state line_ten_tokens)
  = Assert_failed "fetch_token_match() #1" /\
  trace (snd (run_line M lvl init_state line_ten_tokens))
  = [Errormsg "Too many commands."] /\
  command_toks (snd (run_line M lvl init_state line_ten_tokens)) !! 0 = Some NULL.
Proof. vm_compute. repeat split. Qed.

(** C7. A line that starts with [')'] is not rejected as a line without
    command: the test [localinput[0] != '(' || localinput[0] == ')'] holds
    for it, so the line is tokenized, its only token [")"] is handed to the
    dispatcher, and the failure reported is that of an unknown command. *)
Theorem close_paren_is_tokenized
    (M : nat) (lvl : GPIO_TypeDef -> GPIO_pinnums -> Z) :
  fst (run_line M lvl init_state line_close_paren) = Ok false /\
  map string_of_list_ascii
      (command_path (snd (run_line M lvl init_state line_close_paren)))
  = [")"]%string /\
  trace (snd (run_line M lvl init_state line_close_paren))
  = [Dbgmsg "Unrecognized command."].
Proof. vm_compute. repeat split. Qed.

(** C8. The data part of ["gpio:set:porta:pin3(01 02 0a)\n"] is split at
    spaces only: the third token keeps the closing parenthesis and the
    newline. *)
Theorem data_tokens_keep_paren
    (M : nat) (lvl : GPIO_TypeDef -> GPIO_pinnums -> Z) :
  5 <= M ->
  map string_of_list_ascii
      (data_items (snd (run_line M lvl init_state line_with_data)))
  = ["01"; "02"; ("0a)" ++ LF)]%string /\
  map string_of_list_ascii
      (data_items (snd (run_line M lvl init_state line_with_data)))
  <> ["01"; "02"; "0a"]%string.
Proof. intros HM. run_with M. discriminate. Qed.

Lemma data_tokens_keep_paren_witness :
  5 <= 5 /\
  map string_of_list_ascii
      (data_items (snd (run_line 5 low_level init_state line_with_data)))
  = ["01"; "02"; ("0a)" ++ LF)]%string.
Proof.
  split; [lia|].
  exact (proj1 (data_tokens_keep_paren 5 low_level (le_n 5))).
Defined.

(** ** The caller's buffer is never written *)

Lemma m_input_set_block (m : memory) (b : block) (l : list ascii) :
  b <> Binput -> m_input (set_block m b l) = m_input m.
Proof. destruct b; simpl; congruence. Qed.

Lemma store_frame (m m' : memory) (p : ptr) (c : ascii) :
  internal p -> store m p c = Some m' -> m_input m' = m_input m.
Proof.
  destruct p as [|b off|l]; simpl; try discriminate.
  intros Hb. destruct (off <? length (get_block m b)); [|discriminate].
  intros [= <-]. apply m_input_set_block. now destruct b.
Qed.

Lemma store_bytes_frame (b : block) (l : list ascii) :
  forall (m m' : memory) (off : nat),
    b <> Binput -> store_bytes m b off l = Some m' -> m_input m' = m_input m.
Proof.
  induction l as [|c l IH]; intros m m' off Hb; cbn [store_bytes].
  - now intros [= <-].
  - destruct (store m (Ptr b off) c) as [m1|] eqn:E; [|discriminate].
    intros H. rewrite (IH m1 m' (S off) Hb H).
    eapply store_frame; [|exact E]. now destruct b.
Qed.

Section Keeps.

Context {A B : Type}.
Variable buf : list ascii.

Lemma keeps_ret (R : A -> Prop) (a : A) : R a -> keeps buf R (ret a).
Proof. intros Ha s Hs. now split. Qed.

Lemma keeps_bind (R1 : A -> Prop) (R2 : B -> Prop) (c : M A) (k : A -> M B) :
  keeps buf R1 c -> (forall a, R1 a -> keeps buf R2 (k a)) ->
  keeps buf R2 (bind c k).
Proof.
  intros Hc Hk s Hs. unfold bind.
  destruct (Hc s Hs) as [H1 H2].
  destruct (c s) as [[a| | |] s']; simpl in *; try tauto.
  now apply Hk.
Qed.

Lemma keeps_bind_any (R2 : B -> Prop) (c : M A) (k : A -> M B) :
  keeps buf (fun _ => True) c -> (forall a, keeps buf R2 (k a)) ->
  keeps buf R2 (bind c k).
Proof. intros Hc Hk. eapply keeps_bind; [exact Hc | auto]. Qed.

Lemma keeps_weaken (R1 R2 : A -> Prop) (c : M A) :
  keeps buf R1 c -> (forall a, R1 a -> R2 a) -> keeps buf R2 c.
Proof.
  intros Hc HR s Hs. destruct (Hc s Hs) as [H1 H2]. split; [exact H1|].
  destruct (fst (c s)); auto.
Qed.

Lemma keeps_undefined (R : A -> Prop) : keeps buf R undefined.
Proof. intros s Hs. now split. Qed.

Lemma keeps_of_option (o : option A) : keeps buf (fun _ => True) (of_option o).
Proof. destruct o; intros s Hs; now split. Qed.

End Keeps.

Lemma keeps_chDbgAssert (buf : list ascii) (c : bool) (msg : string) :
  keeps buf (fun _ => True) (chDbgAssert c msg).
Proof. intros s Hs. unfold chDbgAssert. destruct c; now split. Qed.

Lemma keeps_emit (buf : list ascii) (e : event) : keeps buf (fun _ => True) (emit e).
Proof. intros s Hs. now split. Qed.

Lemma keeps_get_command_toks (buf : list ascii) : keeps buf (fun _ => True) get_command_toks.
Proof. intros s Hs. now split. Qed.

Lemma keeps_get_data_toks (buf : list ascii) : keeps buf (fun _ => True) get_data_toks.
Proof. intros s Hs. now split. Qed.

Lemma keeps_set_command_tok (buf : list ascii) (i : nat) (p : ptr) :
  keeps buf (fun _ => True) (set_command_tok i p).
Proof.
  intros s Hs. unfold set_command_tok.
  destruct (i <? length (command_toks s)); now split.
Qed.

Lemma keeps_set_data_tok (buf : list ascii) (i : nat) (p : ptr) :
  keeps buf (fun _ => True) (set_data_tok i p).
Proof.
  intros s Hs. unfold set_data_tok.
  destruct (i <? length (data_toks s)); now split.
Qed.

Lemma keeps_load_str (buf : list ascii) (p : ptr) : keeps buf (fun _ => True) (load_str p).
Proof.
  intros s Hs. unfold load_str, get_mem, bind, of_option.
  destruct (load_cstr (st_mem s) p); now split.
Qed.

Lemma keeps_strlen (buf : list ascii) (p : ptr) : keeps buf (fun _ => True) (strlen p).
Proof.
  unfold strlen. apply keeps_bind_any; [apply keeps_load_str|].
  intros a. now apply keeps_ret.
Qed.

Lemma keeps_load_char (buf : list ascii) (p : ptr) : keeps buf (fun _ => True) (load_char p).
Proof.
  intros s Hs. unfold load_char, get_mem, bind, of_option.
  destruct p as [|b off|l]; try now split.
  destruct (get_block (st_mem s) b !! off); now split.
Qed.

Lemma keeps_store_char (buf : list ascii) (p : ptr) (c : ascii) :
  internal p -> keeps buf (fun _ => True) (store_char p c).
Proof.
  intros Hp s Hs. unfold store_char, get_mem, bind, of_option, put_mem.
  destruct (store (st_mem s) p c) as [m'|] eqn:E; simpl; [|now split].
  split; [|exact I]. rewrite <- Hs. eapply store_frame; eauto.
Qed.

Create HintDb keeps.

#[local] Hint Resolve keeps_undefined keeps_of_option keeps_chDbgAssert
  keeps_emit keeps_get_command_toks keeps_get_data_toks
  keeps_set_command_tok keeps_set_data_tok keeps_load_str keeps_strlen
  keeps_load_char : keeps.

(** One step through a computation whose parts keep the buffer. *)
Ltac keeps_step :=
  match goal with
  | |- keeps _ _ (bind _ _) =>
      apply keeps_bind_any; [solve [eauto with keeps] | intro]
  | |- keeps _ (fun _ => True) (ret _) => apply keeps_ret; exact I
  | |- keeps _ _ (if ?b then _ else _) => destruct b
  | |- keeps _ _ (match ?x with _ => _ end) => destruct x
  | |- keeps _ _ _ => solve [eauto with keeps]
  end.

Lemma keeps_strncpy (buf : list ascii) (dst src : ptr) (n : nat) :
  internal dst -> keeps buf (fun _ => True) (strncpy dst src n).
Proof.
  intros Hd s Hs.
  unfold strncpy, get_mem, bind, of_option, put_mem, undefined, ret.
  destruct (same_block dst src); [now split|].
  destruct (read_strn (st_mem s) src n) as [t|]; [|now split].
  destruct dst as [|b off|l]; try now split.
  destruct (store_bytes _ _ _ _) as [m'|] eqn:E; simpl; [|now split].
  split; [|exact I]. rewrite <- Hs.
  eapply store_bytes_frame; [|exact E]. now destruct b.
Qed.

Lemma keeps_fetch_remove_spaces (buf : list ascii) (p : ptr) :
  internal p -> keeps buf (fun _ => True) (fetch_remove_spaces p).
Proof.
  intros Hp. unfold fetch_remove_spaces.
  apply keeps_bind_any; [apply keeps_load_str|]. intros t s Hs.
  unfold get_mem, bind, of_option, put_mem, undefined, ret.
  destruct p as [|b off|l]; try now split.
  destruct (store_bytes _ _ _ _) as [m'|] eqn:E; simpl; [|now split].
  split; [|exact I]. rewrite <- Hs.
  eapply store_bytes_frame; [|exact E]. now destruct b.
Qed.

(** [_strtok] writes through its arguments only, and what it returns
    points where they point. *)
Lemma keeps__strtok (buf : list ascii) (p : ptr) (delim : string) (saveptr : ptr) :
  internal p -> internal saveptr ->
  keeps buf (fun r => internal (fst r) /\ internal (snd r))
        (_strtok p delim saveptr).
Proof.
  intros Hp Hsv. unfold _strtok.
  assert (Hstart : internal (if is_null p then saveptr else p))
    by (destruct p; assumption).
  destruct (if is_null p then saveptr else p) as [|b off|l].
  - apply keeps_ret. now split.
  - apply keeps_bind_any; [apply keeps_load_str|]. intros skipped.
    apply keeps_bind_any; [apply keeps_load_str|]. intros rest.
    assert (Hb : forall o, internal (Ptr b o)) by (intros o; now destruct b).
    destruct (strpbrk rest (str delim)) as [j|].
    + apply keeps_bind_any; [now apply keeps_store_char|]. intros _.
      apply keeps_bind_any; [apply keeps_load_char|]. intros c.
      apply keeps_ret. split; [|apply Hb].
      destruct (is_NUL c); [exact I | apply Hb].
    + apply keeps_bind_any; [apply keeps_load_char|]. intros c.
      apply keeps_ret. split; [|exact I].
      destruct (is_NUL c); [exact I | apply Hb].
  - apply keeps_undefined.
Qed.

(** The token loop stops before its fuel does: [n] grows by one at each
    turn and the loop is left once [n] has reached [FETCH_MAX_COMMANDS]. *)
Lemma keeps_tok_loop (buf : list ascii) (delim : string)
    (set_tok : nat -> ptr -> M unit) :
  (forall i p, keeps buf (fun _ => True) (set_tok i p)) ->
  forall (fuel n : nat) (tokp : ptr),
    internal tokp -> n <= FETCH_MAX_COMMANDS -> FETCH_MAX_COMMANDS < fuel + n ->
    keeps buf (fun r => internal (snd r)) (tok_loop delim set_tok fuel n tokp).
Proof.
  intros Hset. induction fuel as [|fuel IH]; intros n tokp Htok Hn Hfuel.
  - lia.
  - cbn [tok_loop].
    eapply keeps_bind; [apply keeps__strtok; [exact I | exact Htok]|].
    intros r [Hr1 Hr2].
    destruct (is_null (fst r)); [now apply keeps_ret|].
    destruct (FETCH_MAX_COMMANDS <=? n) eqn:En.
    + apply keeps_bind_any; [apply keeps_emit|]. intros _.
      apply keeps_bind_any; [apply Hset|]. intros _.
      now apply keeps_ret.
    + apply keeps_bind_any; [apply Hset|]. intros _.
      apply Nat.leb_gt in En. unfold FETCH_MAX_COMMANDS in *.
      assert (Hinc : incr_u8 n = S n)
        by (unfold incr_u8; rewrite Nat.mod_small; lia).
      rewrite Hinc. apply IH; [exact Hr2 | lia | lia].
Qed.

Lemma keeps_fetch_token_match_from (buf : list ascii) (tok_array : list ptr)
    (chk_tok : ptr) (k : nat) :
  forall i, keeps buf (fun _ => True)
                  (fetch_token_match_from tok_array chk_tok i k).
Proof.
  induction k as [|k IH]; intros i; cbn [fetch_token_match_from].
  - now apply keeps_ret.
  - repeat keeps_step; apply IH.
Qed.

Lemma keeps_fetch_token_match (buf : list ascii) (tok_array : list ptr)
    (chk_tok : ptr) (num_elems : Z) :
  keeps buf (fun _ => True) (fetch_token_match tok_array chk_tok num_elems).
Proof. apply keeps_fetch_token_match_from. Qed.

Lemma keeps_nth_tok (buf : list ascii) (l : list ptr) (i : nat) :
  keeps buf (fun _ => True) (nth_tok l i).
Proof. apply keeps_of_option. Qed.

Lemma keeps_starts_with (buf : list ascii) (p : ptr) (lit : string) :
  keeps buf (fun _ => True) (starts_with p lit).
Proof. unfold starts_with. repeat keeps_step. Qed.

#[local] Hint Resolve keeps_fetch_token_match keeps_nth_tok
  keeps_starts_with : keeps.

Section KeepsFirmware.

Variable M_PIN : nat.
Variable lvl : GPIO_TypeDef -> GPIO_pinnums -> Z.
Variable buf : list ascii.

Lemma keeps_gpio_get_port_pin (commandl : list ptr)
    (port : option GPIO_TypeDef) (pin : GPIO_pinnums) :
  keeps buf (fun _ => True) (gpio_get_port_pin M_PIN commandl port pin).
Proof. unfold gpio_get_port_pin. repeat keeps_step. Qed.

Hint Resolve keeps_gpio_get_port_pin : keeps.

Lemma keeps_gpio_get (commandl : list ptr) :
  keeps buf (fun _ => True) (gpio_get M_PIN lvl commandl).
Proof. unfold gpio_get, palReadPad. repeat keeps_step. Qed.

Lemma keeps_gpio_set (commandl : list ptr) :
  keeps buf (fun _ => True) (gpio_set M_PIN commandl).
Proof. unfold gpio_set, palSetPad. repeat keeps_step. Qed.

Lemma keeps_gpio_clear (commandl : list ptr) :
  keeps buf (fun _ => True) (gpio_clear M_PIN commandl).
Proof. unfold gpio_clear, palClearPad. repeat keeps_step. Qed.

Lemma keeps_gpio_config (commandl : list ptr) :
  keeps buf (fun _ => True) (gpio_config M_PIN commandl).
Proof. unfold gpio_config, palSetPadMode. repeat keeps_step. Qed.

Hint Resolve keeps_gpio_get keeps_gpio_set keeps_gpio_clear
  keeps_gpio_config : keeps.

Lemma keeps_fetch_not_yet (cl dl : list ptr) :
  keeps buf (fun _ => True) (fetch_not_yet cl dl).
Proof. unfold fetch_not_yet. repeat keeps_step. Qed.

Hint Resolve keeps_fetch_not_yet : keeps.

Lemma keeps_fetch_gpio (cl dl : list ptr) :
  keeps buf (fun _ => True) (fetch_gpio M_PIN lvl cl dl).
Proof.
  unfold fetch_gpio, fetch_is_valid_gpio_subcommandA,
    fetch_is_valid_port_subcommand, fetch_is_valid_pin_subcommand.
  repeat keeps_step.
Qed.

Lemma keeps_run_handler (h : handler) (cl dl : list ptr) :
  keeps buf (fun _ => True) (run_handler M_PIN lvl h cl dl).
Proof.
  destruct h; cbn [run_handler].
  - unfold fetch_info. repeat keeps_step.
  - apply keeps_fetch_gpio.
  - unfold fetch_resetpins. repeat keeps_step.
  - apply keeps_fetch_not_yet.
Qed.

Lemma keeps_fetch_dispatch (cl dl : list ptr) :
  keeps buf (fun _ => True) (fetch_dispatch M_PIN lvl cl dl).
Proof.
  unfold fetch_dispatch, fetch_is_valid_command.
  do 3 keeps_step.
  - repeat keeps_step.
  - intros s Hs.
    destruct (cmd_fns s !! Z.to_nat a0) as [[h|]|]; try now split.
    revert s Hs. change (keeps buf (fun _ => True)
      (emit (Invoke h) ;; run_handler M_PIN lvl h cl dl)).
    apply keeps_bind_any; [apply keeps_emit|]. intros _.
    apply keeps_run_handler.
Qed.

Lemma keeps_fetch_parse_parts (colonpart parenpart tokp : ptr) :
  internal tokp ->
  keeps buf (fun _ => True)
        (fetch_parse_parts M_PIN lvl colonpart parenpart tokp).
Proof.
  intros Htok. unfold fetch_parse_parts.
  destruct (negb (is_null colonpart)); [|now apply keeps_ret].
  apply keeps_bind_any; [apply keeps_strlen|]. intros clen.
  apply keeps_bind_any; [now apply keeps_strncpy|]. intros _.
  apply keeps_bind_any; [now apply keeps_store_char|]. intros _.
  apply keeps_bind_any; [now apply keeps_fetch_remove_spaces|]. intros _.
  apply keeps_bind_any.
  { destruct (negb (is_null parenpart)); [|now apply keeps_ret].
    apply keeps_bind_any; [apply keeps_strlen|]. intros plen.
    apply keeps_bind_any; [now apply keeps_strncpy|]. intros _.
    now apply keeps_store_char. }
  intros _.
  eapply keeps_bind; [apply keeps__strtok; [exact I | exact Htok]|].
  intros r [_ Hr].
  apply keeps_bind_any; [apply keeps_set_command_tok|]. intros _.
  eapply keeps_bind.
  { apply keeps_tok_loop;
      [apply keeps_set_command_tok | exact Hr
      | unfold FETCH_MAX_COMMANDS; lia
      | unfold FETCH_MAX_COMMANDS, FETCH_MAX_LINE_CHARS; lia]. }
  intros nt Hnt.
  apply keeps_bind_any; [apply keeps_set_command_tok|]. intros _.
  apply keeps_bind_any.
  { destruct (negb (is_null parenpart)); [|apply keeps_set_data_tok].
    eapply keeps_bind; [apply keeps__strtok; [exact I | exact Hnt]|].
    intros r' [_ Hr'].
    apply keeps_bind_any; [apply keeps_set_data_tok|]. intros _.
    eapply keeps_bind.
    { apply keeps_tok_loop;
        [apply keeps_set_data_tok | exact Hr'
        | unfold FETCH_MAX_COMMANDS; lia
        | unfold FETCH_MAX_COMMANDS, FETCH_MAX_LINE_CHARS; lia]. }
    intros nd _. apply keeps_set_data_tok. }
  intros _.
  apply keeps_bind_any; [apply keeps_get_command_toks|]. intros cl.
  apply keeps_bind_any; [apply keeps_get_data_toks|]. intros dl.
  apply keeps_fetch_dispatch.
Qed.

Lemma keeps_fetch_parse (inputline : ptr) :
  keeps buf (fun _ => True) (fetch_parse M_PIN lvl inputline).
Proof.
  unfold fetch_parse.
  apply keeps_bind_any; [now apply keeps_strncpy|]. intros _.
  apply keeps_bind_any; [apply keeps_load_char|]. intros c0.
  destruct (negb (Ascii.eqb c0 "(") || Ascii.eqb c0 ")").
  - eapply keeps_bind; [apply keeps__strtok; exact I|].
    intros r1 [_ H1].
    eapply keeps_bind; [apply keeps__strtok; [exact I | exact H1]|].
    intros r2 [_ H2].
    now apply keeps_fetch_parse_parts.
  - repeat keeps_step.
Qed.

End KeepsFirmware.

(** ** Writing a run of bytes *)

Lemma get_set_block (m : memory) (b : block) (l : list ascii) :
  get_block (set_block m b l) b = l.
Proof. now destruct b. Qed.

Lemma set_set_block (m : memory) (b : block) (l l' : list ascii) :
  set_block (set_block m b l) b l' = set_block m b l'.
Proof. now destruct b. Qed.

Lemma set_get_block (m : memory) (b : block) :
  set_block m b (get_block m b) = m.
Proof. now destruct m, b. Qed.

Lemma store_bytes_ok (b : block) (l : list ascii) :
  forall (m : memory) (off : nat),
    off + length l <= length (get_block m b) ->
    store_bytes m b off l
    = Some (set_block m b (take off (get_block m b) ++ l
                           ++ drop (off + length l) (get_block m b))).
Proof.
  induction l as [|c l IH]; intros m off Hlen; cbn [store_bytes].
  - cbn [length app]. rewrite Nat.add_0_r, take_drop, set_get_block.
    reflexivity.
  - cbn [length] in Hlen. unfold store.
    assert (Hoff : off < length (get_block m b)) by lia.
    apply Nat.ltb_lt in Hoff as Hoff'. rewrite Hoff'.
    rewrite IH by (rewrite get_set_block, length_insert; lia).
    rewrite get_set_block, set_set_block. f_equal. f_equal.
    rewrite drop_insert_lt by lia.
    rewrite (take_S_r _ _ c) by (now apply list_lookup_insert_eq).
    rewrite take_insert_ge by lia.
    rewrite <- !app_assoc. cbn [app length].
    now rewrite Nat.add_succ_r.
Qed.

(** The copy into [localinput] when the caller's line is empty. *)
Lemma strncpy_empty_line (s : state) :
  length (m_localinput (st_mem s)) = FETCH_MAX_LINE_CHARS ->
  m_input (st_mem s) = [NUL] ->
  strncpy localinput (Ptr Binput 0) FETCH_MAX_LINE_CHARS s
  = (Ok tt, with_mem s (set_block (st_mem s) Blocalinput zeroed)).
Proof.
  intros Hlen Hin.
  unfold strncpy, bind, get_mem, of_option, put_mem, ret, localinput.
  cbn [same_block block_eqb read_strn get_block].
  rewrite Hin.
  change (strn_of (drop 0 [NUL]) FETCH_MAX_LINE_CHARS) with (Some (@nil ascii)).
  cbv beta iota. cbn [length Nat.sub app].
  rewrite store_bytes_ok
    by (cbn [get_block]; rewrite repeat_length, Hlen; cbn [Nat.add]; lia).
  cbn [get_block firstn app Nat.add].
  rewrite repeat_length, drop_ge, app_nil_r by lia.
  reflexivity.
Qed.

(** C9. The empty line parses successfully from every state whose
    [localinput] array has its [FETCH_MAX_LINE_CHARS] bytes: [fetch_parse]
    returns true, prints nothing, calls no handler and leaves both token
    arrays as they were. *)
Theorem empty_line_is_a_no_op
    (M : nat) (lvl : GPIO_TypeDef -> GPIO_pinnums -> Z) (s : state) :
  length (m_localinput (st_mem s)) = FETCH_MAX_LINE_CHARS ->
  fst (run_line M lvl s "") = Ok true /\
  trace (snd (run_line M lvl s "")) = trace s /\
  List.filter is_invoke (trace (snd (run_line M lvl s "")))
  = List.filter is_invoke (trace s) /\
  command_toks (snd (run_line M lvl s "")) = command_toks s /\
  data_toks (snd (run_line M lvl s "")) = data_toks s.
Proof.
  intros Hlen.
  assert (E : run_line M lvl s ""
              = (Ok true,
                 with_mem s (set_block (set_block (st_mem s) Binput [NUL])
                                       Blocalinput zeroed))).
  { unfold run_line, fetch_parse.
    rewrite (bind_ok _ _ _ _ tt
               (strncpy_empty_line (set_input s (line_buffer ""))
                  Hlen eq_refl)).
    reflexivity. }
  rewrite E. repeat split.
Qed.

Lemma empty_line_is_a_no_op_witness :
  length (m_localinput (st_mem init_state)) = FETCH_MAX_LINE_CHARS /\
  fst (run_line 5 low_level init_state "") = Ok true /\
  trace (snd (run_line 5 low_level init_state "")) = [].
Proof.
  split; [reflexivity|].
  pose proof (empty_line_is_a_no_op 5 low_level init_state eq_refl) as H.
  exact (conj (proj1 H) (proj1 (proj2 H))).
Defined.

(** ** Strings inside terminated buffers *)

Lemma cstr_of_before_NUL (l : list ascii) :
  forall k, l !! k = Some NUL ->
            exists t, cstr_of l = Some t /\ length t <= k.
Proof.
  induction l as [|c l IH]; intros k Hk; [discriminate|].
  cbn [cstr_of]. destruct (is_NUL c) eqn:E.
  - exists []. split; [reflexivity | simpl; lia].
  - destruct k as [|k]; simpl in Hk.
    + injection Hk as ->. discriminate E.
    + destruct (IH k Hk) as (t & Ht & Hlen). rewrite Ht.
      exists (c :: t). split; [reflexivity | simpl; lia].
Qed.

Lemma cstr_of_drop (l : list ascii) (k off : nat) :
  l !! k = Some NUL -> off <= k ->
  exists t, cstr_of (drop off l) = Some t /\ off + length t <= k.
Proof.
  intros Hk Hoff.
  destruct (cstr_of_before_NUL (drop off l) (k - off)) as (t & Ht & Hlen).
  - rewrite lookup_drop. now replace (off + (k - off)) with k by lia.
  - exists t. split; [exact Ht | lia].
Qed.

Lemma strn_of_cstr (l : list ascii) :
  forall t, cstr_of l = Some t -> strn_of l (length t) = Some t.
Proof.
  induction l as [|c l IH]; intros t; cbn [cstr_of]; [discriminate|].
  destruct (is_NUL c) eqn:E.
  - intros [= <-]. reflexivity.
  - destruct (cstr_of l) as [t'|]; [|discriminate].
    intros [= <-]. cbn [length strn_of]. rewrite E, (IH t' eq_refl).
    reflexivity.
Qed.

Lemma strn_of_short (l : list ascii) (n : nat) :
  forall t, cstr_of l = Some t -> length t <= n -> strn_of l n = Some t.
Proof.
  revert n. induction l as [|c l IH]; intros n t; cbn [cstr_of];
    [discriminate|].
  destruct (is_NUL c) eqn:E.
  - intros [= <-] _. destruct n; [reflexivity|]. cbn [strn_of].
    now rewrite E.
  - destruct (cstr_of l) as [t'|]; [|discriminate].
    intros [= <-] Hlen. cbn [length] in Hlen.
    destruct n as [|n]; [lia|]. cbn [strn_of].
    rewrite E, (IH n t' eq_refl) by lia. reflexivity.
Qed.

Lemma strspn_le (s delim : cstring) : strspn s delim <= length s.
Proof.
  induction s as [|c s IH]; cbn [strspn length]; [lia|].
  destruct (is_delim delim c); lia.
Qed.

Lemma strpbrk_lt (s delim : cstring) (j : nat) :
  strpbrk s delim = Some j -> j < length s.
Proof.
  revert j. induction s as [|c s IH]; intros j; cbn [strpbrk length];
    [discriminate|].
  destruct (is_delim delim c).
  - intros [= <-]. lia.
  - destruct (strpbrk s delim) as [j'|]; [|discriminate].
    intros [= <-]. specialize (IH j' eq_refl). lia.
Qed.

Lemma terminated_insert_NUL (blk : list ascii) (i : nat) :
  terminated blk -> terminated (<[i := NUL]> blk).
Proof.
  intros [Hlen Hlast]. split; [now rewrite length_insert|].
  destruct (Nat.eq_dec i (FETCH_MAX_LINE_CHARS - 1)) as [->|Hne].
  - apply list_lookup_insert_eq. rewrite Hlen.
    unfold FETCH_MAX_LINE_CHARS. lia.
  - now rewrite list_lookup_insert_ne.
Qed.

(** Writing at most [FETCH_MAX_LINE_CHARS] bytes at the start of a work
    buffer keeps it terminated when the byte that lands on its last
    position, if any, is NUL. *)
Lemma terminated_overwrite (blk l : list ascii) :
  terminated blk -> length l <= FETCH_MAX_LINE_CHARS ->
  (forall c, l !! (FETCH_MAX_LINE_CHARS - 1) = Some c -> c = NUL) ->
  terminated (l ++ drop (length l) blk).
Proof.
  intros [Hlen Hlast] Hl Hc. split.
  - rewrite length_app, length_drop. lia.
  - destruct (Nat.lt_ge_cases (FETCH_MAX_LINE_CHARS - 1) (length l)) as [H|H].
    + rewrite lookup_app_l by exact H.
      destruct (lookup_lt_is_Some_2 l _ H) as [c Hlc].
      rewrite Hlc. f_equal. now apply Hc.
    + rewrite lookup_app_r by exact H. rewrite lookup_drop.
      now replace (length l + (FETCH_MAX_LINE_CHARS - 1 - length l))
        with (FETCH_MAX_LINE_CHARS - 1) by lia.
Qed.

Lemma wf_mem_block (m : memory) (b : block) :
  wf_mem m -> b <> Binput -> terminated (get_block m b).
Proof. intros (H1 & H2 & H3) Hb. destruct b; simpl; try tauto; congruence. Qed.

Lemma wf_mem_set_block (m : memory) (b : block) (l : list ascii) :
  wf_mem m -> terminated l -> wf_mem (set_block m b l).
Proof. intros (H1 & H2 & H3) Hl. destruct b; unfold wf_mem; simpl; tauto. Qed.

Lemma load_cstr_wf (m : memory) (b : block) (off : nat) :
  wf_mem m -> b <> Binput -> off < FETCH_MAX_LINE_CHARS ->
  exists t, load_cstr m (Ptr b off) = Some t /\
            off + length t < FETCH_MAX_LINE_CHARS.
Proof.
  intros Hm Hb Hoff. destruct (wf_mem_block m b Hm Hb) as [Hlen Hlast].
  destruct (cstr_of_drop _ _ off Hlast) as (t & Ht & Hle);
    [unfold FETCH_MAX_LINE_CHARS in *; lia|].
  exists t. split; [exact Ht | unfold FETCH_MAX_LINE_CHARS in *; lia].
Qed.

(** ** Absence of undefined behaviour *)

Section Safe.

Context {A B : Type}.

Lemma safe_ret (R : A -> Prop) (a : A) : R a -> safe R (ret a).
Proof. intros Ha s Hs. now split. Qed.

Lemma safe_bind (R1 : A -> Prop) (R2 : B -> Prop) (c : M A) (k : A -> M B) :
  safe R1 c -> (forall a, R1 a -> safe R2 (k a)) -> safe R2 (bind c k).
Proof.
  intros Hc Hk s Hs. unfold bind. specialize (Hc s Hs).
  destruct (c s) as [[a| | |] s']; try assumption.
  destruct Hc as [Hs' Ha]. now apply Hk.
Qed.

Lemma safe_weaken (R1 R2 : A -> Prop) (c : M A) :
  safe R1 c -> (forall a, R1 a -> R2 a) -> safe R2 c.
Proof.
  intros Hc HR s Hs. specialize (Hc s Hs).
  destruct (c s) as [[a| | |] s']; try assumption.
  destruct Hc as [Hs' Ha]. split; auto.
Qed.

End Safe.

Lemma wf_with_mem (s : state) (m : memory) :
  wf s -> wf_mem m -> wf (with_mem s m).
Proof. intros (_ & H) Hm. split; [exact Hm | exact H]. Qed.

Lemma safe_emit (e : event) : safe (fun _ => True) (emit e).
Proof. intros s Hs. split; [exact Hs | exact I]. Qed.

Lemma safe_chDbgAssert (c : bool) (msg : string) :
  safe (fun _ => c = true) (chDbgAssert c msg).
Proof. intros s Hs. unfold chDbgAssert. destruct c; [now split | exact Hs]. Qed.

Lemma safe_get_command_toks :
  safe (fun l => length l = FETCH_MAX_LINE_CHARS /\ Forall good_ptr l)
       get_command_toks.
Proof. intros s Hs. split; [exact Hs|]. unfold wf in Hs. tauto. Qed.

Lemma safe_get_data_toks :
  safe (fun l => length l = FETCH_MAX_LINE_CHARS /\ Forall good_ptr l)
       get_data_toks.
Proof. intros s Hs. split; [exact Hs|]. unfold wf in Hs. tauto. Qed.

Lemma safe_set_command_tok (i : nat) (p : ptr) :
  i < FETCH_MAX_LINE_CHARS -> good_ptr p ->
  safe (fun _ => True) (set_command_tok i p).
Proof.
  intros Hi Hp s Hs. unfold set_command_tok.
  destruct Hs as (Hm & Hcl & Hc & Hdl & Hd & Hf).
  replace (i <? length (command_toks s)) with true
    by (symmetry; apply Nat.ltb_lt; lia).
  split; [|exact I]. unfold wf.
  cbn [st_mem command_toks data_toks cmd_fns]. rewrite length_insert.
  refine (conj Hm (conj _ (conj _ (conj _ (conj _ Hf)))));
    try assumption; now apply Forall_insert.
Qed.

Lemma safe_set_data_tok (i : nat) (p : ptr) :
  i < FETCH_MAX_LINE_CHARS -> good_ptr p ->
  safe (fun _ => True) (set_data_tok i p).
Proof.
  intros Hi Hp s Hs. unfold set_data_tok.
  destruct Hs as (Hm & Hcl & Hc & Hdl & Hd & Hf).
  replace (i <? length (data_toks s)) with true
    by (symmetry; apply Nat.ltb_lt; lia).
  split; [|exact I]. unfold wf.
  cbn [st_mem command_toks data_toks cmd_fns]. rewrite length_insert.
  refine (conj Hm (conj _ (conj _ (conj _ (conj _ Hf)))));
    try assumption; now apply Forall_insert.
Qed.

Lemma safe_nth_tok (l : list ptr) (i : nat) :
  length l = FETCH_MAX_LINE_CHARS -> Forall good_ptr l ->
  i < FETCH_MAX_LINE_CHARS ->
  safe good_ptr (nth_tok l i).
Proof.
  intros Hlen Hl Hi. unfold nth_tok.
  destruct (lookup_lt_is_Some_2 l i) as [p Hp]; [lia|].
  rewrite Hp. apply safe_ret.
  exact (Forall_lookup_1 _ _ _ _ Hl Hp).
Qed.

Lemma load_cstr_good (m : memory) (p : ptr) :
  wf_mem m -> good_ptr p -> is_null p = false ->
  exists t, load_cstr m p = Some t.
Proof.
  intros Hm Hp Hn. destruct p as [|b off|l]; [discriminate| |].
  - destruct Hp as [Hb Hoff].
    destruct (load_cstr_wf m b off Hm Hb Hoff) as (t & Ht & _). eauto.
  - simpl. eauto.
Qed.

Lemma safe_load_str (p : ptr) :
  good_ptr p -> is_null p = false -> safe (fun _ => True) (load_str p).
Proof.
  intros Hp Hn s Hs.
  destruct (load_cstr_good (st_mem s) p (proj1 Hs) Hp Hn) as [t Ht].
  rewrite (load_str_ok p t s Ht). now split.
Qed.

Lemma safe_store_NUL (b : block) (off : nat) :
  b <> Binput -> off < FETCH_MAX_LINE_CHARS ->
  safe (fun _ => True) (store_char (Ptr b off) NUL).
Proof.
  intros Hb Hoff s Hs.
  unfold store_char, get_mem, bind, of_option, put_mem, store, ret.
  destruct (wf_mem_block _ b (proj1 Hs) Hb) as [Hlen Hlast].
  replace (off <? length (get_block (st_mem s) b)) with true
    by (symmetry; apply Nat.ltb_lt; lia).
  split; [|exact I].
  apply (wf_with_mem s); [exact Hs|].
  apply wf_mem_set_block; [exact (proj1 Hs)|].
  apply terminated_insert_NUL. now split.
Qed.

Lemma safe_load_char (b : block) (off : nat) :
  b <> Binput -> off < FETCH_MAX_LINE_CHARS ->
  safe (fun _ => True) (load_char (Ptr b off)).
Proof.
  intros Hb Hoff s Hs. unfold load_char, get_mem, bind, of_option, ret.
  destruct (wf_mem_block _ b (proj1 Hs) Hb) as [Hlen Hlast].
  destruct (lookup_lt_is_Some_2 (get_block (st_mem s) b) off) as [c Hc];
    [lia|].
  rewrite Hc. now split.
Qed.

Lemma safe_load_str_len (b : block) (off : nat) :
  b <> Binput -> off < FETCH_MAX_LINE_CHARS ->
  safe (fun t => off + length t < FETCH_MAX_LINE_CHARS) (load_str (Ptr b off)).
Proof.
  intros Hb Hoff s Hs.
  destruct (load_cstr_wf (st_mem s) b off (proj1 Hs) Hb Hoff) as (t & Ht & Hlen).
  rewrite (load_str_ok _ t s Ht). now split.
Qed.

Lemma safe__strtok (b : block) (p : ptr) (delim : string) (saveptr : ptr) :
  b <> Binput ->
  in_block b (if is_null p then saveptr else p) ->
  safe (fun r => in_block b (fst r) /\ in_block b (snd r))
       (_strtok p delim saveptr).
Proof.
  intros Hb Hstart. unfold _strtok.
  destruct (if is_null p then saveptr else p) as [|b' off|l].
  - apply safe_ret. now split.
  - destruct Hstart as [-> Hoff].
    eapply safe_bind; [now apply safe_load_str_len|].
    intros skipped Hsk. cbv beta in Hsk.
    pose proof (strspn_le skipped (str delim)) as Hspn.
    eapply safe_bind; [apply safe_load_str_len; [exact Hb | lia]|].
    intros rest Hrest. cbv beta in Hrest.
    destruct (strpbrk rest (str delim)) as [j|] eqn:Hj.
    + apply strpbrk_lt in Hj.
      eapply safe_bind; [apply safe_store_NUL; [exact Hb | lia]|].
      intros _ _.
      eapply safe_bind; [apply safe_load_char; [exact Hb | lia]|].
      intros c _. apply safe_ret. cbn [fst snd in_block]. split.
      * destruct (is_NUL c); [exact I | split; [reflexivity | lia]].
      * split; [reflexivity | lia].
    + eapply safe_bind; [apply safe_load_char; [exact Hb | lia]|].
      intros c _. apply safe_ret. cbn [fst snd in_block]. split; [|exact I].
      destruct (is_NUL c); [exact I | split; [reflexivity | lia]].
  - contradiction.
Qed.

Lemma store_bytes_wf (m : memory) (b : block) (l : list ascii) :
  wf_mem m -> b <> Binput -> length l <= FETCH_MAX_LINE_CHARS ->
  (forall c, l !! (FETCH_MAX_LINE_CHARS - 1) = Some c -> c = NUL) ->
  exists m', store_bytes m b 0 l = Some m' /\ wf_mem m'.
Proof.
  intros Hm Hb Hlen Hlast.
  pose proof (wf_mem_block m b Hm Hb) as Hblk.
  eexists. split.
  - apply store_bytes_ok. destruct Hblk as [-> _]. lia.
  - cbn [firstn app Nat.add].
    apply wf_mem_set_block; [exact Hm|]. now apply terminated_overwrite.
Qed.

Lemma strn_of_length (l : list ascii) :
  forall n t, strn_of l n = Some t -> length t <= n.
Proof.
  induction l as [|c l IH]; intros [|n] t; cbn [strn_of];
    try discriminate; try (intros [= <-]; simpl; lia).
  destruct (is_NUL c); [intros [= <-]; simpl; lia|].
  destruct (strn_of l n) as [t'|] eqn:E; [|discriminate].
  intros [= <-]. specialize (IH n t' E). simpl. lia.
Qed.

Lemma read_strn_length (m : memory) (p : ptr) (n : nat) (t : cstring) :
  read_strn m p n = Some t -> length t <= n.
Proof.
  destruct p as [|b off|l]; cbn [read_strn]; [discriminate| |].
  - apply strn_of_length.
  - intros [= <-]. rewrite length_take. lia.
Qed.

(** A copy into a work buffer, from elsewhere, of a string that leaves
    room for the terminator. *)
Lemma strncpy_wf (s : state) (bd : block) (src : ptr) (n : nat) (t : cstring) :
  wf s -> bd <> Binput -> same_block (Ptr bd 0) src = false ->
  read_strn (st_mem s) src n = Some t ->
  n <= FETCH_MAX_LINE_CHARS -> length t < FETCH_MAX_LINE_CHARS ->
  exists m', strncpy (Ptr bd 0) src n s = (Ok tt, with_mem s m') /\ wf_mem m'.
Proof.
  intros Hs Hb Hsame Hread Hn Ht.
  pose proof (read_strn_length _ _ _ _ Hread) as Htn.
  destruct (store_bytes_wf (st_mem s) bd (t ++ repeat NUL (n - length t))
              (proj1 Hs) Hb) as (m' & Hm' & Hwf).
  - rewrite length_app, repeat_length. lia.
  - intros c Hc.
    rewrite lookup_app_r in Hc by (unfold FETCH_MAX_LINE_CHARS in *; lia).
    apply list_elem_of_lookup_2, list_elem_of_In, repeat_spec in Hc.
    exact Hc.
  - exists m'. split; [|exact Hwf].
    unfold strncpy, get_mem, bind, of_option, put_mem, ret.
    rewrite Hsame, Hread, Hm'. reflexivity.
Qed.

Lemma safe_fetch_remove_spaces (b : block) :
  b <> Binput -> safe (fun _ => True) (fetch_remove_spaces (Ptr b 0)).
Proof.
  intros Hb s Hs. unfold fetch_remove_spaces.
  destruct (load_cstr_wf (st_mem s) b 0 (proj1 Hs) Hb) as (t & Ht & Hlen);
    [unfold FETCH_MAX_LINE_CHARS; lia|].
  rewrite (bind_ok _ _ s s t) by now apply load_str_ok.
  pose proof (List.filter_length_le (fun c => negb (is_blank c)) t) as Hf.
  destruct (store_bytes_wf (st_mem s) b (fetch_remove_spaces_str t ++ [NUL])
              (proj1 Hs) Hb) as (m' & Hm' & Hwf).
  - rewrite length_app. unfold fetch_remove_spaces_str. cbn [length]. lia.
  - intros c Hc. unfold fetch_remove_spaces_str in Hc.
    apply lookup_app_Some in Hc as [Hc|[_ Hc]].
    + apply lookup_lt_Some in Hc. unfold FETCH_MAX_LINE_CHARS in *. lia.
    + apply list_elem_of_lookup_2, list_elem_of_In in Hc.
      destruct Hc as [<-|[]]. reflexivity.
  - unfold get_mem, bind, of_option, put_mem, ret. rewrite Hm'.
    split; [|exact I]. now apply (wf_with_mem s).
Qed.

Lemma in_block_good (b : block) (p : ptr) :
  b <> Binput -> in_block b p -> good_ptr p.
Proof.
  intros Hb. destruct p as [|b' off|l]; cbn; try tauto.
  intros [-> Hoff]. now split.
Qed.

Lemma incr_u8_lt (n : nat) : incr_u8 n < FETCH_MAX_LINE_CHARS.
Proof. unfold incr_u8, FETCH_MAX_LINE_CHARS. apply Nat.mod_upper_bound. lia. Qed.

Lemma safe_tok_loop (b : block) (delim : string)
    (set_tok : nat -> ptr -> M unit) :
  b <> Binput ->
  (forall i p, i < FETCH_MAX_LINE_CHARS -> good_ptr p ->
               safe (fun _ => True) (set_tok i p)) ->
  forall (fuel n : nat) (tokp : ptr),
    in_block b tokp -> n <= FETCH_MAX_COMMANDS ->
    FETCH_MAX_COMMANDS < fuel + n ->
    safe (fun r => in_block b (snd r)) (tok_loop delim set_tok fuel n tokp).
Proof.
  intros Hb Hset. induction fuel as [|fuel IH]; intros n tokp Htok Hn Hfuel.
  - lia.
  - cbn [tok_loop].
    eapply safe_bind; [apply (safe__strtok b); [exact Hb | exact Htok]|].
    intros r [Hr1 Hr2].
    destruct (is_null (fst r)); [now apply safe_ret|].
    destruct (FETCH_MAX_COMMANDS <=? n) eqn:En.
    + eapply safe_bind; [apply safe_emit|]. intros _ _.
      eapply safe_bind;
        [apply Hset; [unfold FETCH_MAX_LINE_CHARS; lia | exact I]|].
      intros _ _. now apply safe_ret.
    + eapply safe_bind;
        [apply Hset; [apply incr_u8_lt | now apply (in_block_good b)]|].
      intros _ _.
      apply Nat.leb_gt in En. unfold FETCH_MAX_COMMANDS in *.
      assert (Hinc : incr_u8 n = S n)
        by (unfold incr_u8; rewrite Nat.mod_small; lia).
      rewrite Hinc. apply IH; [exact Hr2 | lia | lia].
Qed.

(** *** The matcher on a pointer of a token array *)

Lemma bind_assert {A B} (c : M A) (k : A -> M B) (s s' : state) (msg : string) :
  c s = (Assert_failed msg, s') -> bind c k s = (Assert_failed msg, s').
Proof. unfold bind. now intros ->. Qed.

Lemma fetch_token_match_null (V : list string) (e : string) (s : state) :
  fetch_token_match (map Lit (e :: V)) NULL (NELEMS (map Lit (e :: V))) s
  = (Assert_failed "fetch_token_match() #1", s).
Proof.
  unfold fetch_token_match, NELEMS. rewrite Nat2Z.id. reflexivity.
Qed.

(** Either the pointer is null and the assertion stops the matcher, or
    it holds a string and the matcher answers for that string. *)
Lemma fetch_token_match_cases (V : list string) (e : string) (p : ptr)
    (s : state) :
  wf s -> good_ptr p ->
  Forall (fun e => length e < FETCH_MAX_CMD_STRLEN) (vocab (e :: V)) ->
  (is_null p = true /\
   fetch_token_match (map Lit (e :: V)) p (NELEMS (map Lit (e :: V))) s
   = (Assert_failed "fetch_token_match() #1", s)) \/
  (exists t, is_null p = false /\ load_cstr (st_mem s) p = Some t /\
   fetch_token_match (map Lit (e :: V)) p (NELEMS (map Lit (e :: V))) s
   = (Ok (first_match (fun e => caseless_eq e t) (vocab (e :: V)) 0), s)).
Proof.
  intros Hs Hp Hshort. destruct (is_null p) eqn:Hn.
  - left. split; [reflexivity|]. destruct p; try discriminate.
    apply fetch_token_match_null.
  - right. destruct (load_cstr_good (st_mem s) p (proj1 Hs) Hp Hn) as [t Ht].
    exists t. split; [reflexivity|]. split; [exact Ht|].
    now apply fetch_token_match_short.
Qed.

Lemma first_match_range (f : cstring -> bool) (V : list cstring) (z : Z) :
  first_match f V 0 = z -> (0 <= z)%Z ->
  exists (j : nat) (e : cstring),
    V !! j = Some e /\ f e = true /\ z = Z.of_nat j.
Proof.
  intros H Hz. apply first_match_inv in H.
  destruct H as [[-> _]|(j & e & Hj & He & -> & _)]; [lia|].
  exists j, e. repeat split; assumption.
Qed.

(** *** Stepping through the state-preserving prefix of a handler *)

Lemma safe_ends_well {A} (R : A -> Prop) (c : M A) (s : state) :
  safe R c -> wf s -> ends_well (c s).
Proof.
  intros Hc Hs. specialize (Hc s Hs). unfold ends_well.
  destruct (c s) as [[a| | |] s']; tauto.
Qed.

Lemma ends_well_safe {A} (c : M A) :
  (forall s, wf s -> ends_well (c s)) -> safe (fun _ => True) c.
Proof.
  intros H s Hs. specialize (H s Hs). unfold ends_well in H.
  destruct (c s) as [[a| | |] s']; tauto.
Qed.

Lemma ends_well_nth_tok {B} (cl : list ptr) (i : nat) (k : ptr -> M B)
    (s : state) :
  length cl = FETCH_MAX_LINE_CHARS -> Forall good_ptr cl ->
  i < FETCH_MAX_LINE_CHARS ->
  (forall p, cl !! i = Some p -> good_ptr p -> ends_well (k p s)) ->
  ends_well (bind (nth_tok cl i) k s).
Proof.
  intros Hlen Hcl Hi Hk.
  destruct (lookup_lt_is_Some_2 cl i) as [p Hp]; [lia|].
  rewrite (bind_ok _ _ s s p) by (unfold nth_tok; now rewrite Hp).
  apply Hk; [exact Hp|]. exact (Forall_lookup_1 _ _ _ _ Hcl Hp).
Qed.

Lemma ends_well_valid {B} (V : list string) (e : string) (p : ptr)
    (k : Z -> M B) (s : state) :
  wf s -> good_ptr p ->
  Forall (fun e => length e < FETCH_MAX_CMD_STRLEN) (vocab (e :: V)) ->
  (forall t, is_null p = false -> load_cstr (st_mem s) p = Some t ->
             ends_well (k (first_match (fun e => caseless_eq e t)
                                       (vocab (e :: V)) 0) s)) ->
  ends_well (bind (fetch_token_match (map Lit (e :: V)) p
                                     (NELEMS (map Lit (e :: V)))) k s).
Proof.
  intros Hs Hp Hshort Hk.
  destruct (fetch_token_match_cases V e p s Hs Hp Hshort)
    as [[_ E]|(t & Hn & Ht & E)].
  - rewrite (bind_assert _ _ _ _ _ E). exact Hs.
  - rewrite (bind_ok _ _ _ _ _ E). now apply Hk.
Qed.

Lemma ends_well_load_str {B} (p : ptr) (k : cstring -> M B) (s : state) :
  wf s -> good_ptr p -> is_null p = false ->
  (forall t, load_cstr (st_mem s) p = Some t -> ends_well (k t s)) ->
  ends_well (bind (load_str p) k s).
Proof.
  intros Hs Hp Hn Hk.
  destruct (load_cstr_good (st_mem s) p (proj1 Hs) Hp Hn) as [t Ht].
  rewrite (bind_ok _ _ s s t) by now apply load_str_ok.
  now apply Hk.
Qed.

Lemma starts_with_ok (p : ptr) (lit : string) (t : cstring) (s : state) :
  load_cstr (st_mem s) p = Some t ->
  starts_with p lit s = (Ok (streq_n t lit (strlen_lit lit)), s).
Proof.
  intros Ht. unfold starts_with.
  now rewrite (bind_ok _ _ s s t) by now apply load_str_ok.
Qed.

Lemma command_names_short :
  Forall (fun e => length e < FETCH_MAX_CMD_STRLEN) (vocab command_names).
Proof. repeat constructor. Qed.

Lemma action_names_short :
  Forall (fun e => length e < FETCH_MAX_CMD_STRLEN) (vocab action_names).
Proof. repeat constructor. Qed.

Lemma port_names_short :
  Forall (fun e => length e < FETCH_MAX_CMD_STRLEN) (vocab port_names).
Proof. repeat constructor. Qed.

Lemma gpio_port_of_lower (s : cstring) (port : option GPIO_TypeDef) :
  gpio_port_of (lower s) port = gpio_port_of s port.
Proof. unfold gpio_port_of. now rewrite !streq_n_lower. Qed.

(** A validated port token is mapped to a port. *)
Lemma gpio_port_of_valid (t : cstring) (z : Z) :
  first_match (fun e => caseless_eq e t) (vocab port_names) 0 = z ->
  (0 <= z)%Z ->
  exists port, gpio_port_of t None = Some port.
Proof.
  intros H Hz.
  destruct (first_match_range _ _ _ H Hz) as (j & e & Hj & He & _).
  apply cstr_eqb_eq in He.
  rewrite <- (gpio_port_of_lower t), <- He.
  do 9 (destruct j as [|j]; [injection Hj as <-; vm_compute; eauto|]).
  discriminate Hj.
Qed.

Lemma safe_palReadPad (lvl : GPIO_TypeDef -> GPIO_pinnums -> Z)
    (port : GPIO_TypeDef) (pin : GPIO_pinnums) :
  safe (fun _ => True) (palReadPad lvl (Some port) pin).
Proof.
  cbn [palReadPad]. eapply safe_bind; [apply safe_emit|].
  intros _ _. now apply safe_ret.
Qed.

Lemma ends_well_bind {A B} (c : M A) (k : A -> M B) (s : state) :
  ends_well (c s) -> (forall a, safe (fun _ => True) (k a)) ->
  ends_well (bind c k s).
Proof.
  intros Hc Hk. unfold bind, ends_well in *.
  destruct (c s) as [[a| | |] s']; try assumption.
  specialize (Hk a s' Hc). destruct (k a s') as [[b| | |] s'']; tauto.
Qed.

Section SafeFirmware.

Variable M_PIN : nat.
Variable lvl : GPIO_TypeDef -> GPIO_pinnums -> Z.

(** What the gpio actions need: a command list whose port and pin
    entries hold strings, the port string being a validated one. *)
Section Resolved.

Variables (cl : list ptr) (s : state) (pp pn : ptr) (tp tn : cstring)
          (port : GPIO_TypeDef).
Hypothesis Hs : wf s.
Hypothesis Hlen : length cl = FETCH_MAX_LINE_CHARS.
Hypothesis Hcl : Forall good_ptr cl.
Hypothesis Hpp : cl !! PORT = Some pp.
Hypothesis Htp : load_cstr (st_mem s) pp = Some tp.
Hypothesis Hpn : cl !! PIN = Some pn.
Hypothesis Htn : load_cstr (st_mem s) pn = Some tn.
Hypothesis Hport : gpio_port_of tp None = Some port.

Lemma ends_well_gpio_get : ends_well (gpio_get M_PIN lvl cl s).
Proof.
  unfold gpio_get.
  rewrite (bind_ok _ _ s s _
             (gpio_get_port_pin_ok M_PIN cl pp pn tp tn None PIN0 s
                Hpp Htp Hpn Htn)).
  cbn [fst snd]. rewrite Hport.
  exact (safe_ends_well _ _ s (safe_palReadPad lvl port _) Hs).
Qed.

Lemma ends_well_gpio_set : ends_well (gpio_set M_PIN cl s).
Proof.
  unfold gpio_set.
  rewrite (bind_ok _ _ s s _
             (gpio_get_port_pin_ok M_PIN cl pp pn tp tn None PIN0 s
                Hpp Htp Hpn Htn)).
  cbn [fst snd]. rewrite Hport.
  exact (safe_ends_well _ _ s (safe_emit _) Hs).
Qed.

Lemma ends_well_gpio_clear : ends_well (gpio_clear M_PIN cl s).
Proof.
  unfold gpio_clear.
  rewrite (bind_ok _ _ s s _
             (gpio_get_port_pin_ok M_PIN cl pp pn tp tn None PIN0 s
                Hpp Htp Hpn Htn)).
  cbn [fst snd]. rewrite Hport.
  exact (safe_ends_well _ _ s (safe_emit _) Hs).
Qed.

Lemma ends_well_gpio_config (pd ps : ptr) :
  cl !! DIRECTION = Some pd -> is_null pd = false ->
  cl !! SENSE = Some ps -> is_null ps = false ->
  ends_well (gpio_config M_PIN cl s).
Proof.
  intros Hpd Npd Hps Nps. unfold gpio_config.
  rewrite (bind_ok _ _ s s _
             (gpio_get_port_pin_ok M_PIN cl pp pn tp tn None PIN0 s
                Hpp Htp Hpn Htn)).
  apply ends_well_nth_tok;
    [exact Hlen | exact Hcl | unfold DIRECTION, FETCH_MAX_LINE_CHARS; lia|].
  intros pd' Hpd' Gpd. assert (pd' = pd) as -> by congruence.
  apply ends_well_load_str; [exact Hs | exact Gpd | exact Npd|].
  intros td _.
  apply ends_well_nth_tok;
    [exact Hlen | exact Hcl | unfold SENSE, FETCH_MAX_LINE_CHARS; lia|].
  intros ps' Hps' Gps. assert (ps' = ps) as -> by congruence.
  apply ends_well_load_str; [exact Hs | exact Gps | exact Nps|].
  intros tsn _.
  apply (safe_ends_well (fun _ => True)); [|exact Hs].
  do 4 (eapply safe_bind; [apply safe_emit | intros _ _]).
  cbn [fst snd]. rewrite Hport. apply safe_emit.
Qed.

End Resolved.

Lemma safe_ret_true {A} (b : bool) : forall a : A, safe (fun _ => True) (ret b).
Proof. intros _. now apply safe_ret. Qed.

Lemma safe_fetch_not_yet (cl dl : list ptr) :
  safe (fun _ => True) (fetch_not_yet cl dl).
Proof.
  unfold fetch_not_yet. eapply safe_bind; [apply safe_emit|].
  intros _ _. now apply safe_ret.
Qed.

Ltac split_on_validity Hs :=
  match goal with
  | |- context [(0 <=? ?z)%Z] =>
      let V := fresh "Hvalid" in
      destruct (0 <=? z)%Z eqn:V; [apply Z.leb_le in V | exact Hs]
  end.

Lemma ends_well_fetch_gpio (cl dl : list ptr) (s : state) :
  wf s -> length cl = FETCH_MAX_LINE_CHARS -> Forall good_ptr cl ->
  ends_well (fetch_gpio M_PIN lvl cl dl s).
Proof.
  intros Hs Hlen Hcl.
  unfold fetch_gpio, fetch_is_valid_gpio_subcommandA,
    fetch_is_valid_port_subcommand, fetch_is_valid_pin_subcommand.
  apply ends_well_nth_tok;
    [exact Hlen | exact Hcl | unfold ACTION, FETCH_MAX_LINE_CHARS; lia|].
  intros pa Hpa Gpa.
  apply (ends_well_valid (tl action_names) "get");
    [exact Hs | exact Gpa | exact action_names_short|].
  intros ta Na Lta. split_on_validity Hs.
  apply ends_well_nth_tok;
    [exact Hlen | exact Hcl | unfold PORT, FETCH_MAX_LINE_CHARS; lia|].
  intros pp Hpp Gpp.
  apply (ends_well_valid (tl port_names) "porta");
    [exact Hs | exact Gpp | exact port_names_short|].
  intros tp Np Ltp. split_on_validity Hs.
  destruct (gpio_port_of_valid tp _ eq_refl Hvalid0) as [port Hport].
  apply ends_well_nth_tok;
    [exact Hlen | exact Hcl | unfold PIN, FETCH_MAX_LINE_CHARS; lia|].
  intros pn Hpn Gpn.
  apply (ends_well_valid (tl pin_names) "pin0");
    [exact Hs | exact Gpn | exact pin_names_short|].
  intros tn Nn Ltn. split_on_validity Hs.
  apply ends_well_nth_tok;
    [exact Hlen | exact Hcl | unfold FETCH_MAX_LINE_CHARS; lia|].
  intros c1 Hc1 _.
  assert (c1 = pa) as -> by (unfold ACTION in Hpa; congruence).
  rewrite (bind_ok _ _ s s _ (starts_with_ok pa "get" ta s Lta)).
  destruct (streq_n ta "get" _).
  { apply ends_well_bind; [eapply ends_well_gpio_get; eassumption|].
    intros v. eapply safe_bind; [apply safe_emit|].
    intros _ _. now apply safe_ret. }
  rewrite (bind_ok _ _ s s _ (starts_with_ok pa "set" ta s Lta)).
  destruct (streq_n ta "set" _).
  { apply ends_well_bind;
      [eapply ends_well_gpio_set; eassumption | apply safe_ret_true]. }
  rewrite (bind_ok _ _ s s _ (starts_with_ok pa "clear" ta s Lta)).
  destruct (streq_n ta "clear" _).
  { apply ends_well_bind;
      [eapply ends_well_gpio_clear; eassumption | apply safe_ret_true]. }
  rewrite (bind_ok _ _ s s _ (starts_with_ok pa "config" ta s Lta)).
  destruct (streq_n ta "config" _).
  - apply ends_well_nth_tok;
      [exact Hlen | exact Hcl | unfold DIRECTION, FETCH_MAX_LINE_CHARS; lia|].
    intros pd Hpd _.
    apply ends_well_nth_tok;
      [exact Hlen | exact Hcl | unfold SENSE, FETCH_MAX_LINE_CHARS; lia|].
    intros ps Hps _.
    destruct (is_null pd) eqn:Npd; [exact Hs|].
    destruct (is_null ps) eqn:Nps; [exact Hs|].
    cbn [negb andb].
    apply ends_well_bind;
      [eapply ends_well_gpio_config; eassumption | apply safe_ret_true].
  - apply ends_well_bind; [|apply safe_ret_true].
    exact (safe_ends_well _ _ s (safe_fetch_not_yet cl dl) Hs).
Qed.

Lemma ends_well_run_handler (h : handler) (cl dl : list ptr) (s : state) :
  wf s -> length cl = FETCH_MAX_LINE_CHARS -> Forall good_ptr cl ->
  ends_well (run_handler M_PIN lvl h cl dl s).
Proof.
  intros Hs Hlen Hcl. destruct h; cbn [run_handler].
  - apply (safe_ends_well (fun _ => True)); [|exact Hs]. unfold fetch_info.
    do 4 (eapply safe_bind; [apply safe_emit | intros _ _]).
    now apply safe_ret.
  - now apply ends_well_fetch_gpio.
  - apply (safe_ends_well (fun _ => True)); [|exact Hs].
    unfold fetch_resetpins.
    do 2 (eapply safe_bind; [apply safe_emit | intros _ _]).
    now apply safe_ret.
  - exact (safe_ends_well _ _ s (safe_fetch_not_yet cl dl) Hs).
Qed.

Lemma wf_emit (e : event) (s : state) : wf s -> wf (snd (emit e s)).
Proof. intros Hs. exact Hs. Qed.

Lemma ends_well_fetch_dispatch (cl dl : list ptr) (s : state) :
  wf s -> length cl = FETCH_MAX_LINE_CHARS -> Forall good_ptr cl ->
  ends_well (fetch_dispatch M_PIN lvl cl dl s).
Proof.
  intros Hs Hlen Hcl. unfold fetch_dispatch, fetch_is_valid_command.
  apply ends_well_nth_tok;
    [exact Hlen | exact Hcl | unfold FETCH_MAX_LINE_CHARS; lia|].
  intros c0 Hc0 Gc0.
  apply (ends_well_valid (tl command_names) "?");
    [exact Hs | exact Gc0 | exact command_names_short|].
  intros t0 N0 Lt0.
  destruct (_ <? 0)%Z eqn:Hneg.
  - apply (safe_ends_well (fun _ => True)); [|exact Hs].
    eapply safe_bind; [apply safe_emit | intros _ _]. now apply safe_ret.
  - apply Z.ltb_ge in Hneg.
    destruct (first_match_range _ _ _ eq_refl Hneg) as (j & e & Hj & _ & Hz).
    rewrite Hz, Nat2Z.id.
    pose proof Hs as (_ & _ & _ & _ & _ & Hf). rewrite Hf.
    do 7 (destruct j as [|j];
          [cbn [lookup list_lookup init_state];
           apply ends_well_bind;
           [exact Hs | intros _; apply ends_well_safe; intros s' Hs';
                       now apply ends_well_run_handler]|]).
    discriminate Hj.
Qed.

(** The copy of a part of [localinput] into another work buffer. *)
Lemma ends_well_copy {B} (bd bs : block) (off : nat) (k : nat -> M B)
    (s : state) :
  wf s -> bd <> Binput -> bs <> Binput -> block_eqb bd bs = false ->
  off < FETCH_MAX_LINE_CHARS ->
  (forall clen s', wf s' -> clen < FETCH_MAX_LINE_CHARS ->
                   ends_well (k clen s')) ->
  ends_well (bind (strlen (Ptr bs off))
               (fun clen => bind (strncpy (Ptr bd 0) (Ptr bs off) clen)
                                 (fun _ => k clen)) s).
Proof.
  intros Hs Hbd Hbs Hne Hoff Hk.
  destruct (load_cstr_wf (st_mem s) bs off (proj1 Hs) Hbs Hoff)
    as (t & Ht & Hlen).
  rewrite (bind_ok _ _ s s (length t))
    by (unfold strlen; now rewrite (bind_ok _ _ s s t)
                         by now apply load_str_ok).
  destruct (strncpy_wf s bd (Ptr bs off) (length t) t Hs Hbd Hne)
    as (m' & Hcpy & Hm'); [now apply strn_of_cstr | lia | lia|].
  rewrite (bind_ok _ _ _ _ _ Hcpy).
  apply Hk; [now apply wf_with_mem | lia].
Qed.

Lemma ends_well_fetch_parse_parts (colonpart parenpart tokp : ptr) (s : state) :
  wf s -> in_block Blocalinput colonpart -> in_block Blocalinput parenpart ->
  ends_well (fetch_parse_parts M_PIN lvl colonpart parenpart tokp s).
Proof.
  intros Hs Hcolon Hparen. unfold fetch_parse_parts, commandstr, datastr.
  assert (Hb1 : Blocalinput <> Binput) by discriminate.
  assert (Hb2 : Bcommandstr <> Binput) by discriminate.
  assert (Hb3 : Bdatastr <> Binput) by discriminate.
  assert (Hsz : 0 < FETCH_MAX_LINE_CHARS) by (unfold FETCH_MAX_LINE_CHARS; lia).
  destruct colonpart as [|b off|l]; [exact Hs | | contradiction].
  destruct Hcolon as [-> Hoff]. cbn [is_null negb].
  apply ends_well_copy; try assumption; [reflexivity|].
  intros clen s1 Hs1 Hclen.
  apply (safe_ends_well (fun _ => True)); [|exact Hs1].
  eapply safe_bind; [now apply safe_store_NUL | intros _ _].
  eapply safe_bind; [now apply safe_fetch_remove_spaces | intros _ _].
  eapply safe_bind with (R1 := fun _ => True).
  { destruct parenpart as [|b' off'|l']; [now apply safe_ret | | contradiction].
    destruct Hparen as [-> Hoff']. cbn [is_null negb].
    apply ends_well_safe. intros s2 Hs2.
    apply ends_well_copy; try assumption; [reflexivity|].
    intros plen s3 Hs3 Hplen.
    exact (safe_ends_well _ _ s3 (safe_store_NUL Bdatastr plen Hb3 Hplen) Hs3). }
  intros _ _.
  eapply safe_bind; [apply (safe__strtok Bcommandstr); [exact Hb2 | now split]|].
  intros r [Hr1 Hr2].
  eapply safe_bind;
    [apply safe_set_command_tok; [exact Hsz | now apply (in_block_good Bcommandstr)]|].
  intros _ _.
  eapply safe_bind.
  { apply (safe_tok_loop Bcommandstr);
      [exact Hb2 | apply safe_set_command_tok | exact Hr2
      | unfold FETCH_MAX_COMMANDS; lia
      | unfold FETCH_MAX_COMMANDS, FETCH_MAX_LINE_CHARS; lia]. }
  intros nt Hnt.
  eapply safe_bind;
    [apply safe_set_command_tok; [apply incr_u8_lt | exact I]|].
  intros _ _.
  eapply safe_bind with (R1 := fun _ => True).
  { destruct (negb (is_null parenpart));
      [|apply safe_set_data_tok; [exact Hsz | exact I]].
    eapply safe_bind; [apply (safe__strtok Bdatastr); [exact Hb3 | now split]|].
    intros r' [Hr1' Hr2'].
    eapply safe_bind;
      [apply safe_set_data_tok; [exact Hsz | now apply (in_block_good Bdatastr)]|].
    intros _ _.
    eapply safe_bind.
    { apply (safe_tok_loop Bdatastr);
        [exact Hb3 | apply safe_set_data_tok | exact Hr2'
        | unfold FETCH_MAX_COMMANDS; lia
        | unfold FETCH_MAX_COMMANDS, FETCH_MAX_LINE_CHARS; lia]. }
    intros nd _. apply safe_set_data_tok; [apply incr_u8_lt | exact I]. }
  intros _ _.
  eapply safe_bind; [apply safe_get_command_toks|]. intros cl [Hlen Hcl].
  eapply safe_bind; [apply safe_get_data_toks|]. intros dl _.
  apply ends_well_safe. intros s4 Hs4.
  now apply ends_well_fetch_dispatch.
Qed.

Lemma ends_well_fetch_parse (inputline : ptr) (s : state) :
  wf s -> holds_line s inputline ->
  ends_well (fetch_parse M_PIN lvl inputline s).
Proof.
  intros Hs (off & line & -> & Hline & Hlen).
  unfold fetch_parse, localinput.
  assert (Hb1 : Blocalinput <> Binput) by discriminate.
  assert (Hsz : 0 < FETCH_MAX_LINE_CHARS) by (unfold FETCH_MAX_LINE_CHARS; lia).
  destruct (strncpy_wf s Blocalinput (Ptr Binput off) FETCH_MAX_LINE_CHARS line
              Hs Hb1 eq_refl) as (m' & Hcpy & Hm');
    [apply strn_of_short; [exact Hline | lia] | lia | exact Hlen|].
  rewrite (bind_ok _ _ _ _ _ Hcpy).
  apply (safe_ends_well (fun _ => True)); [|now apply wf_with_mem].
  eapply safe_bind; [now apply safe_load_char | intros c0 _].
  destruct (negb (Ascii.eqb c0 "(") || Ascii.eqb c0 ")").
  - eapply safe_bind;
      [apply (safe__strtok Blocalinput); [exact Hb1 | now split]|].
    intros r1 [H11 H12].
    eapply safe_bind;
      [apply (safe__strtok Blocalinput); [exact Hb1 | exact H12]|].
    intros r2 [H21 H22].
    apply ends_well_safe. intros s' Hs'.
    now apply ends_well_fetch_parse_parts.
  - eapply safe_bind; [apply safe_emit | intros _ _]. now apply safe_ret.
Qed.

End SafeFirmware.

(** ** Well-formed states along a session *)

Lemma wf_init_state : wf init_state.
Proof.
  assert (Ht : terminated zeroed) by (split; reflexivity).
  assert (Hn : Forall good_ptr (repeat NULL FETCH_MAX_LINE_CHARS))
    by (apply Forall_forall; intros p Hp;
        apply list_elem_of_In, repeat_spec in Hp; now subst).
  repeat split; try exact Hn; try reflexivity.
Qed.

Lemma wf_set_input (s : state) (buf : list ascii) :
  wf s -> wf (set_input s buf).
Proof. intros (Hm & H). split; [exact Hm | exact H]. Qed.

Lemma lit_cstr_length (l : list ascii) : length (lit_cstr l) <= length l.
Proof.
  induction l as [|c l IH]; cbn [lit_cstr length]; [lia|].
  destruct (is_NUL c); cbn [length]; lia.
Qed.

Lemma cstr_of_line (l : list ascii) :
  cstr_of (l ++ [NUL]) = Some (lit_cstr l).
Proof.
  induction l as [|c l IH]; cbn [app cstr_of lit_cstr]; [reflexivity|].
  destruct (is_NUL c); [reflexivity | now rewrite IH].
Qed.

Lemma length_str (line : string) : length (str line) = String.length line.
Proof.
  unfold str. induction line as [|c line IH]; cbn; [reflexivity | now rewrite IH].
Qed.

Lemma holds_line_set_input (s : state) (line : string) :
  String.length line < FETCH_MAX_LINE_CHARS ->
  holds_line (set_input s (line_buffer line)) (Ptr Binput 0).
Proof.
  intros Hlen. exists 0, (lit_cstr (str line)).
  split; [reflexivity|]. split; [apply cstr_of_line|].
  pose proof (lit_cstr_length (str line)) as H.
  rewrite length_str in H. lia.
Qed.

(** A line shorter than the work buffers, handed to [fetch_parse] in a
    well-formed state, is processed without undefined behaviour and leaves
    a well-formed state: the next line can be handed over. *)
Lemma run_line_ends_well (M : nat) (lvl : GPIO_TypeDef -> GPIO_pinnums -> Z)
    (s : state) (line : string) :
  wf s -> String.length line < FETCH_MAX_LINE_CHARS ->
  ends_well (run_line M lvl s line).
Proof.
  intros Hs Hlen. unfold run_line.
  apply ends_well_fetch_parse;
    [now apply wf_set_input | now apply holds_line_set_input].
Qed.

(** C10. [fetch_parse] never writes to the line it is given: whatever the
    state and the pointer it is called with, and however the call ends,
    the caller's buffer holds the same bytes afterwards, all writes going
    to [localinput], [commandstr] and [datastr]; the loops of the
    tokenizer end within their fuel.  When the state is well formed and
    the line is shorter than [FETCH_MAX_LINE_CHARS], the call ends with a
    result or at the assertion of the token matcher, never in undefined
    behaviour, and the state it leaves is well formed again. *)
Theorem fetch_parse_keeps_inputline
    (M : nat) (lvl : GPIO_TypeDef -> GPIO_pinnums -> Z)
    (inputline : ptr) (s : state) :
  m_input (st_mem (snd (fetch_parse M lvl inputline s))) = m_input (st_mem s) /\
  fst (fetch_parse M lvl inputline s) <> Out_of_fuel /\
  (wf s -> holds_line s inputline ->
   fst (fetch_parse M lvl inputline s) <> Undefined /\
   wf (snd (fetch_parse M lvl inputline s))).
Proof.
  destruct (keeps_fetch_parse M lvl (m_input (st_mem s)) inputline s eq_refl)
    as [H1 H2].
  split; [exact H1|]. split.
  - destruct (fst (fetch_parse M lvl inputline s)); try discriminate.
    contradiction.
  - intros Hs Hline.
    pose proof (ends_well_fetch_parse M lvl inputline s Hs Hline) as H.
    unfold ends_well in H.
    destruct (fetch_parse M lvl inputline s) as [[b|msg| |] s'];
      cbn [fst snd]; try contradiction; split; try discriminate; exact H.
Qed.

Lemma fetch_parse_keeps_inputline_witness :
  wf (set_input init_state (line_buffer "gpio:set:portd:pin7")) /\
  holds_line (set_input init_state (line_buffer "gpio:set:portd:pin7"))
             (Ptr Binput 0) /\
  m_input (st_mem (snd (run_line 5 low_level init_state "gpio:set:portd:pin7")))
  = line_buffer "gpio:set:portd:pin7" /\
  fst (run_line 5 low_level init_state "gpio:set:portd:pin7") <> Undefined /\
  wf (snd (run_line 5 low_level init_state "gpio:set:portd:pin7")).
Proof.
  assert (Hw : wf (set_input init_state (line_buffer "gpio:set:portd:pin7")))
    by (apply wf_set_input, wf_init_state).
  assert (Hl : holds_line (set_input init_state (line_buffer "gpio:set:portd:pin7"))
                          (Ptr Binput 0))
    by (apply holds_line_set_input; vm_compute; lia).
  split; [exact Hw|]. split; [exact Hl|].
  destruct (fetch_parse_keeps_inputline 5 low_level (Ptr Binput 0)
              (set_input init_state (line_buffer "gpio:set:portd:pin7")))
    as (H1 & _ & H3).
  split; [exact H1 | exact (H3 Hw Hl)].
Defined.

(** ** Further facts about the defects met above *)

(** The copy of the caller's line into [localinput]. *)
Lemma strncpy_localinput (s : state) (off : nat) (line : cstring) :
  wf s ->
  cstr_of (drop off (m_input (st_mem s))) = Some line ->
  length line < FETCH_MAX_LINE_CHARS ->
  strncpy localinput (Ptr Binput off) FETCH_MAX_LINE_CHARS s
  = (Ok tt,
     with_mem s (set_block (st_mem s) Blocalinput
                   (line ++ repeat NUL (FETCH_MAX_LINE_CHARS - length line)))).
Proof.
  intros Hs Hline Hlen.
  destruct (wf_mem_block (st_mem s) Blocalinput (proj1 Hs)) as [Hblk _];
    [discriminate|].
  unfold strncpy, get_mem, bind, of_option, put_mem, ret, localinput.
  cbn [same_block block_eqb read_strn get_block] in *.
  rewrite (strn_of_short _ _ line Hline) by lia.
  rewrite store_bytes_ok
    by (cbn [get_block]; rewrite length_app, repeat_length, Hblk; lia).
  cbn [get_block firstn app Nat.add].
  rewrite drop_ge, app_nil_r
    by (rewrite length_app, repeat_length, Hblk; lia).
  reflexivity.
Qed.

(** X1. What the first test of [fetch_parse] does catch: from a well-formed
    state, a line that starts with ['('] is rejected with the error message
    for a missing command; nothing is tokenized and no handler is called. *)
Lemma open_paren_is_rejected
    (M : nat) (lvl : GPIO_TypeDef -> GPIO_pinnums -> Z) (s : state)
    (line : string) :
  wf s -> String.length line < FETCH_MAX_LINE_CHARS - 1 ->
  fst (run_line M lvl s (String "(" line)) = Ok false /\
  trace (snd (run_line M lvl s (String "(" line)))
  = trace s ++ [Errormsg "No command-(only data?)"] /\
  command_toks (snd (run_line M lvl s (String "(" line))) = command_toks s /\
  data_toks (snd (run_line M lvl s (String "(" line))) = data_toks s.
Proof.
  intros Hs Hlen. unfold run_line, fetch_parse.
  pose proof (lit_cstr_length (str line)) as Hl. rewrite length_str in Hl.
  rewrite (bind_ok _ _ _ _ _
             (strncpy_localinput (set_input s (line_buffer (String "(" line)))
                0 ("("%char :: lit_cstr (str line))
                (wf_set_input s _ Hs) (cstr_of_line (str (String "(" line)))
                ltac:(cbn [length]; lia))).
  repeat split.
Qed.

(** After a complete [configure] statement, one that lacks both the
    direction and the sense token is executed with the sense token of the
    earlier statement, still reachable through the stale sixth entry of
    the command list. *)
Lemma configure_uses_stale_sense
    (M : nat) (lvl : GPIO_TypeDef -> GPIO_pinnums -> Z) :
  5 <= M ->
  List.filter is_hardware
    (trace (snd (run_line M lvl
                   (snd (run_line M lvl init_state line_full_configure))
                   line_bare_configure)))
  = [PalSetPadMode GPIOA PIN1 PAL_STM32_PUDR_PULLUP;
     PalSetPadMode GPIOB PIN2 PAL_STM32_PUDR_PULLUP].
Proof. intros HM. run_with M. Qed.

(** From the start-up state the same statement is refused, the sixth
    entry of the command list being still null. *)
Lemma bare_configure_at_startup
    (M : nat) (lvl : GPIO_TypeDef -> GPIO_pinnums -> Z) :
  fst (run_line M lvl init_state line_bare_configure) = Ok false /\
  trace (snd (run_line M lvl init_state line_bare_configure))
  = [Invoke Fetch_gpio].
Proof. vm_compute. repeat split. Qed.

(** A line that holds a newline and nothing else is not an empty line for
    the tokenizer: the newline is its command token. *)
Lemma newline_only_is_a_command
    (M : nat) (lvl : GPIO_TypeDef -> GPIO_pinnums -> Z) :
  fst (run_line M lvl init_state line_newline_only) = Ok false /\
  map string_of_list_ascii
      (command_path (snd (run_line M lvl init_state line_newline_only)))
  = [LF] /\
  trace (snd (run_line M lvl init_state line_newline_only))
  = [Dbgmsg "Unrecognized command."].
Proof. vm_compute. repeat split. Qed.

(** ** The handlers only produce events *)

Lemma add_events_nil (s : state) : add_events s [] = s.
Proof. destruct s. unfold add_events. cbn. now rewrite app_nil_r. Qed.

Lemma add_events_app (s : state) (e1 e2 : list event) :
  add_events (add_events s e1) e2 = add_events s (e1 ++ e2).
Proof. unfold add_events. cbn. now rewrite app_assoc. Qed.

Section Quiet.

Context {A B : Type}.

Lemma quiet_ret (a : A) : quiet (ret a).
Proof. intros s. exists []. now rewrite add_events_nil. Qed.

Lemma quiet_bind (c : M A) (k : A -> M B) :
  quiet c -> (forall a, quiet (k a)) -> quiet (bind c k).
Proof.
  intros Hc Hk s. unfold bind. destruct (Hc s) as [e1 H1].
  destruct (c s) as [[a| | |] s']; cbn [snd] in *; eauto.
  destruct (Hk a s') as [e2 H2]. exists (e1 ++ e2).
  now rewrite H2, H1, add_events_app.
Qed.

Lemma quiet_undefined : quiet (@undefined A).
Proof. intros s. exists []. now rewrite add_events_nil. Qed.

Lemma quiet_of_option (o : option A) : quiet (of_option o).
Proof. destruct o; [apply quiet_ret | apply quiet_undefined]. Qed.

End Quiet.

Lemma quiet_emit (e : event) : quiet (emit e).
Proof. intros s. now exists [e]. Qed.

Lemma quiet_chDbgAssert (c : bool) (msg : string) : quiet (chDbgAssert c msg).
Proof.
  intros s. exists []. rewrite add_events_nil. unfold chDbgAssert.
  now destruct c.
Qed.

Lemma quiet_load_str (p : ptr) : quiet (load_str p).
Proof.
  intros s. exists []. rewrite add_events_nil.
  unfold load_str, get_mem, bind, of_option.
  now destruct (load_cstr (st_mem s) p).
Qed.

Lemma quiet_nth_tok (l : list ptr) (i : nat) : quiet (nth_tok l i).
Proof. apply quiet_of_option. Qed.

Create HintDb quiet.

#[local] Hint Resolve quiet_undefined quiet_of_option quiet_emit
  quiet_chDbgAssert quiet_load_str quiet_nth_tok : quiet.

Ltac quiet_step :=
  match goal with
  | |- quiet (bind _ _) =>
      apply quiet_bind; [solve [eauto with quiet] | intro]
  | |- quiet (ret _) => apply quiet_ret
  | |- quiet (if ?b then _ else _) => destruct b
  | |- quiet (match ?x with _ => _ end) => destruct x
  | |- quiet _ => solve [eauto with quiet]
  end.

Lemma quiet_fetch_token_match_from (tok_array : list ptr) (chk_tok : ptr)
    (k : nat) :
  forall i, quiet (fetch_token_match_from tok_array chk_tok i k).
Proof.
  induction k as [|k IH]; intros i; cbn [fetch_token_match_from].
  - apply quiet_ret.
  - repeat quiet_step; apply IH.
Qed.

Lemma quiet_fetch_token_match (tok_array : list ptr) (chk_tok : ptr)
    (num_elems : Z) :
  quiet (fetch_token_match tok_array chk_tok num_elems).
Proof. apply quiet_fetch_token_match_from. Qed.

Lemma quiet_starts_with (p : ptr) (lit : string) : quiet (starts_with p lit).
Proof. unfold starts_with. repeat quiet_step. Qed.

#[local] Hint Resolve quiet_fetch_token_match quiet_starts_with : quiet.

Section QuietFirmware.

Variable M_PIN : nat.
Variable lvl : GPIO_TypeDef -> GPIO_pinnums -> Z.

Lemma quiet_gpio_get_port_pin (commandl : list ptr)
    (port : option GPIO_TypeDef) (pin : GPIO_pinnums) :
  quiet (gpio_get_port_pin M_PIN commandl port pin).
Proof. unfold gpio_get_port_pin. repeat quiet_step. Qed.

Hint Resolve quiet_gpio_get_port_pin : quiet.

Lemma quiet_gpio_get (commandl : list ptr) : quiet (gpio_get M_PIN lvl commandl).
Proof. unfold gpio_get, palReadPad. repeat quiet_step. Qed.

Lemma quiet_gpio_set (commandl : list ptr) : quiet (gpio_set M_PIN commandl).
Proof. unfold gpio_set, palSetPad. repeat quiet_step. Qed.

Lemma quiet_gpio_clear (commandl : list ptr) : quiet (gpio_clear M_PIN commandl).
Proof. unfold gpio_clear, palClearPad. repeat quiet_step. Qed.

Lemma quiet_gpio_config (commandl : list ptr) : quiet (gpio_config M_PIN commandl).
Proof. unfold gpio_config, palSetPadMode. repeat quiet_step. Qed.

Lemma quiet_fetch_not_yet (cl dl : list ptr) : quiet (fetch_not_yet cl dl).
Proof. unfold fetch_not_yet. repeat quiet_step. Qed.

Hint Resolve quiet_gpio_get quiet_gpio_set quiet_gpio_clear quiet_gpio_config
  quiet_fetch_not_yet : quiet.

Lemma quiet_fetch_gpio (cl dl : list ptr) : quiet (fetch_gpio M_PIN lvl cl dl).
Proof.
  unfold fetch_gpio, fetch_is_valid_gpio_subcommandA,
    fetch_is_valid_port_subcommand, fetch_is_valid_pin_subcommand.
  repeat quiet_step.
Qed.

Lemma quiet_run_handler (h : handler) (cl dl : list ptr) :
  quiet (run_handler M_PIN lvl h cl dl).
Proof.
  destruct h; cbn [run_handler].
  - unfold fetch_info. repeat quiet_step.
  - apply quiet_fetch_gpio.
  - unfold fetch_resetpins. repeat quiet_step.
  - apply quiet_fetch_not_yet.
Qed.

Lemma quiet_fetch_dispatch (cl dl : list ptr) :
  quiet (fetch_dispatch M_PIN lvl cl dl).
Proof.
  unfold fetch_dispatch, fetch_is_valid_command.
  do 3 quiet_step.
  - repeat quiet_step.
  - intros s.
    destruct (cmd_fns s !! Z.to_nat a0) as [[h|]|];
      try (exists []; now rewrite add_events_nil).
    revert s. change (quiet (emit (Invoke h) ;; run_handler M_PIN lvl h cl dl)).
    apply quiet_bind; [apply quiet_emit|]. intros _. apply quiet_run_handler.
Qed.

End QuietFirmware.

(** X2. The dispatcher and the handlers behind it never write to the work
    buffers, to the token arrays or to the callback table: whatever the
    command list and however the call ends, the state after
    [fetch_dispatch] is the state before it with events added to the
    trace. *)
Theorem fetch_dispatch_only_adds_events
    (M : nat) (lvl : GPIO_TypeDef -> GPIO_pinnums -> Z)
    (cl dl : list ptr) (s : state) :
  exists evs : list event,
    snd (fetch_dispatch M lvl cl dl s) = add_events s evs.
Proof. apply quiet_fetch_dispatch. Qed.

(** ** What the dispatcher and the handlers do *)

Lemma first_match_nonneg (f : cstring -> bool) (V : list cstring) :
  forall (k i : nat) (e : cstring),
    V !! i = Some e -> f e = true -> (0 <= first_match f V k)%Z.
Proof.
  induction V as [|e0 V IH]; intros k i e Hi He; [discriminate|].
  cbn [first_match]. destruct (f e0) eqn:F0; [lia|].
  destruct i as [|i]; cbn in Hi.
  - injection Hi as ->. congruence.
  - eapply IH; eauto.
Qed.

Lemma first_match_of_entry (V : list cstring) (e t : cstring) (k : nat) :
  caseless_eq e t = true ->
  first_match (fun e' => caseless_eq e' t) V k
  = first_match (fun e' => caseless_eq e' e) V k.
Proof.
  intros He. apply cstr_eqb_eq in He. unfold caseless_eq. now rewrite He.
Qed.

(** A candidate that equals an entry of a vocabulary of short entries up
    to letter case is accepted. *)
Lemma fetch_token_match_accepts (V : list string) (p : ptr) (t : cstring)
    (s : state) (i : nat) (e : cstring) :
  load_cstr (st_mem s) p = Some t ->
  Forall (fun e => length e < FETCH_MAX_CMD_STRLEN) (vocab V) ->
  vocab V !! i = Some e -> caseless_eq e t = true ->
  exists z, fetch_token_match (map Lit V) p (NELEMS (map Lit V)) s = (Ok z, s)
            /\ (0 <=? z)%Z = true.
Proof.
  intros Hp Hshort Hi He. eexists. split.
  - exact (fetch_token_match_short V p t s Hp Hshort).
  - apply Z.leb_le.
    exact (first_match_nonneg (fun e => caseless_eq e t) _ 0 i e Hi He).
Qed.

Lemma fetch_token_match_rejects (V : list string) (p : ptr) (t : cstring)
    (s : state) :
  load_cstr (st_mem s) p = Some t ->
  Forall (fun e => length e < FETCH_MAX_CMD_STRLEN) (vocab V) ->
  Forall (fun e => caseless_eq e t = false) (vocab V) ->
  fetch_token_match (map Lit V) p (NELEMS (map Lit V)) s = (Ok (-1)%Z, s).
Proof.
  intros Hp Hshort Hall. rewrite (fetch_token_match_short V p t s Hp Hshort).
  now rewrite first_match_none.
Qed.

Lemma gpio_port_of_entry (t : cstring) (i : nat) (e : cstring) :
  vocab port_names !! i = Some e -> caseless_eq e t = true ->
  exists port, gpio_port_of t None = Some port /\ port_number port = i.
Proof.
  intros Hi He. apply cstr_eqb_eq in He.
  rewrite <- (gpio_port_of_lower t), <- He.
  do 9 (destruct i as [|i]; [injection Hi as <-; vm_compute; eauto|]).
  discriminate Hi.
Qed.

Lemma streq_n_entry (t e : cstring) (lit : string) (n : nat) :
  caseless_eq e t = true -> streq_n t lit n = streq_n e lit n.
Proof.
  intros He. apply cstr_eqb_eq in He.
  now rewrite <- (streq_n_lower t), <- He, streq_n_lower.
Qed.

Lemma emit_eval (e : event) (s : state) : emit e s = (Ok tt, add_events s [e]).
Proof. reflexivity. Qed.

Lemma nth_tok_ok (cl : list ptr) (i : nat) (p : ptr) (s : state) :
  cl !! i = Some p -> nth_tok cl i s = (Ok p, s).
Proof. unfold nth_tok. now intros ->. Qed.

(** X3. [fetch_init] binds every command name to its handler, whatever
    the state it is called in, and changes nothing else: ["?"] and
    ["help"] go to [fetch_info], ["gpio"] to [fetch_gpio], ["resetpins"]
    to [fetch_resetpins], and ["adc"], ["spi"], ["i2c"] to the stub
    [fetch_not_yet]; a second call changes nothing. *)
Theorem fetch_init_binds_handlers (s : state) :
  fetch_init s
  = (Ok tt, {| st_mem := st_mem s; command_toks := command_toks s;
               data_toks := data_toks s; cmd_fns := bound_handlers;
               trace := trace s |}) /\
  snd (fetch_init (snd (fetch_init s))) = snd (fetch_init s).
Proof. split; reflexivity. Qed.

Section Dispatch.

Variable M : nat.
Variable lvl : GPIO_TypeDef -> GPIO_pinnums -> Z.
Variables (cl dl : list ptr) (s : state) (p : ptr) (t : cstring).
Hypothesis Hfns : cmd_fns s = bound_handlers.
Hypothesis Hp : cl !! 0 = Some p.
Hypothesis Ht : load_cstr (st_mem s) p = Some t.

Lemma fetch_dispatch_entry (k : nat) (e : cstring) :
  vocab command_names !! k = Some e -> caseless_eq e t = true ->
  exists h, bound_handlers !! k = Some (Some h) /\
            fetch_dispatch M lvl cl dl s
            = run_handler M lvl h cl dl (add_events s [Invoke h]).
Proof.
  intros Hk He. unfold fetch_dispatch, fetch_is_valid_command.
  rewrite (bind_ok _ _ s s p) by now apply nth_tok_ok.
  rewrite (bind_ok _ _ s s _
             (fetch_token_match_short command_names p t s Ht
                command_names_short)).
  rewrite (first_match_of_entry _ e t 0 He).
  do 7 (destruct k as [|k];
        [injection Hk as <-;
         match goal with
         | |- context [first_match ?f ?V ?k] =>
             let v := eval vm_compute in (first_match f V k) in
             change (first_match f V k) with v
         end;
         cbn [Z.ltb Z.compare]; cbv beta iota; rewrite Hfns;
         eexists; split; reflexivity|]).
  discriminate Hk.
Qed.

Lemma fetch_dispatch_unknown :
  Forall (fun e => caseless_eq e t = false) (vocab command_names) ->
  fetch_dispatch M lvl cl dl s
  = (Ok false, add_events s [Dbgmsg "Unrecognized command."]).
Proof.
  intros Hall. unfold fetch_dispatch, fetch_is_valid_command.
  rewrite (bind_ok _ _ s s p) by now apply nth_tok_ok.
  rewrite (bind_ok _ _ s s _
             (fetch_token_match_rejects command_names p t s Ht
                command_names_short Hall)).
  reflexivity.
Qed.

End Dispatch.

(** X4. A command list whose first token is no command name, in any
    letter case, is dropped: [fetch_dispatch] returns false, reports
    "Unrecognized command." and calls no handler, whatever the callback
    table holds.  A null first token stops at the assertion of the token
    matcher before anything is reported. *)
Theorem fetch_dispatch_unknown_command
    (M : nat) (lvl : GPIO_TypeDef -> GPIO_pinnums -> Z)
    (cl dl : list ptr) (s : state) (p : ptr) :
  cl !! 0 = Some p ->
  (forall t, load_cstr (st_mem s) p = Some t ->
             Forall (fun e => caseless_eq e t = false) (vocab command_names) ->
             fetch_dispatch M lvl cl dl s
             = (Ok false, add_events s [Dbgmsg "Unrecognized command."])) /\
  (p = NULL ->
   fetch_dispatch M lvl cl dl s
   = (Assert_failed "fetch_token_match() #1", s)).
Proof.
  intros Hp. split.
  - intros t Ht Hall. now apply (fetch_dispatch_unknown M lvl cl dl s p t).
  - intros ->. unfold fetch_dispatch.
    now rewrite (bind_ok _ _ s s NULL) by now apply nth_tok_ok.
Qed.

Lemma fetch_dispatch_unknown_command_witness :
  map Lit ["frobnicate"]%string !! 0 = Some (Lit "frobnicate") /\
  fetch_dispatch 5 low_level (map Lit ["frobnicate"]%string) [NULL] init_state
  = (Ok false, add_events init_state [Dbgmsg "Unrecognized command."]).
Proof.
  split; [reflexivity|].
  apply (proj1 (fetch_dispatch_unknown_command 5 low_level
                  (map Lit ["frobnicate"]%string) [NULL] init_state
                  (Lit "frobnicate") eq_refl) (str "frobnicate"));
    [reflexivity | repeat constructor].
Defined.



(** *** The gpio handler on validated tokens *)

Lemma gpio_direction_of_entry (t : cstring) (i : nat) (e : cstring) :
  vocab direction_names !! i = Some e -> caseless_eq e t = true ->
  gpio_direction_of t 0 = direction_bits i.
Proof.
  intros Hi He. unfold gpio_direction_of.
  rewrite !(streq_n_entry t e _ _ He).
  do 2 (destruct i as [|i]; [injection Hi as <-; reflexivity|]).
  discriminate Hi.
Qed.

Lemma gpio_sense_of_entry (t : cstring) (i : nat) (e : cstring) :
  vocab sense_names !! i = Some e -> caseless_eq e t = true ->
  gpio_sense_of t 0 = sense_bits i.
Proof.
  intros Hi He. unfold gpio_sense_of.
  rewrite !(streq_n_entry t e _ _ He).
  do 4 (destruct i as [|i]; [injection Hi as <-; reflexivity|]).
  discriminate Hi.
Qed.

Lemma add_events_mem (s : state) (evs : list event) :
  st_mem (add_events s evs) = st_mem s.
Proof. reflexivity. Qed.

Section GpioHandler.

Variable M : nat.
Variable lvl : GPIO_TypeDef -> GPIO_pinnums -> Z.
Variables (cl dl : list ptr) (s : state).
Variables (pa pp pn : ptr) (ta tp tn : cstring).
Variables (ia ip ipn : nat) (ea ep en : cstring).
Hypothesis HM : 5 <= M.
Hypothesis Hpa : cl !! ACTION = Some pa.
Hypothesis Hta : load_cstr (st_mem s) pa = Some ta.
Hypothesis Hia : vocab action_names !! ia = Some ea.
Hypothesis Hea : caseless_eq ea ta = true.
Hypothesis Hpp : cl !! PORT = Some pp.
Hypothesis Htp : load_cstr (st_mem s) pp = Some tp.
Hypothesis Hip : vocab port_names !! ip = Some ep.
Hypothesis Hep : caseless_eq ep tp = true.
Hypothesis Hpn : cl !! PIN = Some pn.
Hypothesis Htn : load_cstr (st_mem s) pn = Some tn.
Hypothesis Hipn : vocab pin_names !! ipn = Some en.
Hypothesis Hen : caseless_eq en tn = true.

(** Past the three validations. *)
Ltac past_validation :=
  unfold fetch_gpio, fetch_is_valid_gpio_subcommandA,
    fetch_is_valid_port_subcommand, fetch_is_valid_pin_subcommand;
  rewrite (bind_ok _ _ s s pa) by (now apply nth_tok_ok);
  destruct (fetch_token_match_accepts action_names pa ta s _ ea Hta
              action_names_short Hia Hea) as (za & Eza & Hza);
  rewrite (bind_ok _ _ s s za Eza), Hza;
  rewrite (bind_ok _ _ s s pp) by (now apply nth_tok_ok);
  destruct (fetch_token_match_accepts port_names pp tp s _ ep Htp
              port_names_short Hip Hep) as (zp & Ezp & Hzp);
  rewrite (bind_ok _ _ s s zp Ezp), Hzp;
  rewrite (bind_ok _ _ s s pn) by (now apply nth_tok_ok);
  destruct (fetch_token_match_accepts pin_names pn tn s _ en Htn
              pin_names_short Hipn Hen) as (zn & Ezn & Hzn);
  rewrite (bind_ok _ _ s s zn Ezn), Hzn;
  rewrite (bind_ok _ _ s s pa) by (now apply nth_tok_ok).

(** One test of the action token against [lit], with outcome [b]. *)
Ltac action_test Eea lit b :=
  rewrite (bind_ok _ _ s s _ (starts_with_ok pa lit ta s Hta));
  rewrite (streq_n_entry ta ea lit _ Hea);
  rewrite <- Eea;
  change (streq_n _ lit _) with b; cbv iota.

Lemma resolved_port_pin :
  exists port pin,
    port_number port = ip /\ pin_number pin = ipn /\
    gpio_get_port_pin M cl None PIN0 s = (Ok (Some port, pin), s).
Proof.
  destruct (gpio_port_of_entry tp ip ep Hip Hep) as (port & Hport & Hnum).
  destruct (gpio_pin_of_valid M tn ipn en PIN0 HM Hipn Hen) as (Hpin & _).
  exists port, (gpio_pin_of M tn PIN0). repeat split; try assumption.
  rewrite (gpio_get_port_pin_ok M cl pp pn tp tn None PIN0 s Hpp Htp Hpn Htn).
  now rewrite Hport.
Qed.

Lemma fetch_gpio_get_entry :
  ia = 0 ->
  exists port pin,
    port_number port = ip /\ pin_number pin = ipn /\
    fetch_gpio M lvl cl dl s
    = (Ok true, add_events s [PalReadPad port pin; Chprintf_d (lvl port pin)]).
Proof.
  intros Eia.
  assert (Eea : lit_cstr (str "get") = ea)
    by (pose proof Hia as H0; rewrite Eia in H0; now injection H0).
  destruct resolved_port_pin as (port & pin & H1 & H2 & E).
  exists port, pin. repeat split; try assumption.
  past_validation. action_test Eea "get"%string true.
  unfold gpio_get. unfold bind at 1. unfold bind at 1. rewrite E.
  cbv -[app]. rewrite <- ?app_assoc. reflexivity.
Qed.

Lemma fetch_gpio_set_entry :
  ia = 1 ->
  exists port pin,
    port_number port = ip /\ pin_number pin = ipn /\
    fetch_gpio M lvl cl dl s = (Ok true, add_events s [PalSetPad port pin]).
Proof.
  intros Eia.
  assert (Eea : lit_cstr (str "set") = ea)
    by (pose proof Hia as H0; rewrite Eia in H0; now injection H0).
  destruct resolved_port_pin as (port & pin & H1 & H2 & E).
  exists port, pin. repeat split; try assumption.
  past_validation. action_test Eea "get"%string false.
  action_test Eea "set"%string true.
  unfold gpio_set. unfold bind at 1. unfold bind at 1. rewrite E.
  reflexivity.
Qed.

Lemma fetch_gpio_clear_entry :
  ia = 2 ->
  exists port pin,
    port_number port = ip /\ pin_number pin = ipn /\
    fetch_gpio M lvl cl dl s = (Ok true, add_events s [PalClearPad port pin]).
Proof.
  intros Eia.
  assert (Eea : lit_cstr (str "clear") = ea)
    by (pose proof Hia as H0; rewrite Eia in H0; now injection H0).
  destruct resolved_port_pin as (port & pin & H1 & H2 & E).
  exists port, pin. repeat split; try assumption.
  past_validation. action_test Eea "get"%string false.
  action_test Eea "set"%string false.
  action_test Eea "clear"%string true.
  unfold gpio_clear. unfold bind at 1. unfold bind at 1. rewrite E.
  reflexivity.
Qed.

Lemma gpio_config_eval (port : GPIO_TypeDef) (pin : GPIO_pinnums)
    (pd ps : ptr) (td tsn : cstring) :
  gpio_get_port_pin M cl None PIN0 s = (Ok (Some port, pin), s) ->
  cl !! DIRECTION = Some pd -> load_cstr (st_mem s) pd = Some td ->
  cl !! SENSE = Some ps -> load_cstr (st_mem s) ps = Some tsn ->
  gpio_config M cl s
  = (Ok tt,
     add_events s
       [Dbgvmsg "pin: %d" (Dbg_pin pin);
        Dbgvmsg "port: 0x%x\t0x%x" (Dbg_port (Some port));
        Dbgvmsg "dir: %d" (Dbg_int (gpio_direction_of td 0));
        Dbgvmsg "sense: %d" (Dbg_int (gpio_sense_of tsn 0));
        PalSetPadMode port pin
          (Z.lor (gpio_direction_of td 0) (gpio_sense_of tsn 0))]).
Proof.
  intros E Hpd Htd Hps Htsn. unfold gpio_config.
  rewrite (bind_ok _ _ s s _ E).
  rewrite (bind_ok _ _ s s pd) by (now apply nth_tok_ok).
  rewrite (bind_ok _ _ s s td) by (now apply load_str_ok).
  rewrite (bind_ok _ _ s s ps) by (now apply nth_tok_ok).
  rewrite (bind_ok _ _ s s tsn) by (now apply load_str_ok).
  cbv -[app Z.lor gpio_direction_of gpio_sense_of].
  rewrite <- ?app_assoc. reflexivity.
Qed.

Lemma fetch_gpio_config_entry (pd ps : ptr) :
  ia = 3 ->
  cl !! DIRECTION = Some pd -> cl !! SENSE = Some ps ->
  exists port pin,
    port_number port = ip /\ pin_number pin = ipn /\
    (is_null pd || is_null ps = true ->
     fetch_gpio M lvl cl dl s = (Ok false, s)) /\
    (forall td tsn,
        load_cstr (st_mem s) pd = Some td ->
        load_cstr (st_mem s) ps = Some tsn ->
        fetch_gpio M lvl cl dl s
        = (Ok true,
           add_events s
             [Dbgvmsg "pin: %d" (Dbg_pin pin);
              Dbgvmsg "port: 0x%x\t0x%x" (Dbg_port (Some port));
              Dbgvmsg "dir: %d" (Dbg_int (gpio_direction_of td 0));
              Dbgvmsg "sense: %d" (Dbg_int (gpio_sense_of tsn 0));
              PalSetPadMode port pin
                (Z.lor (gpio_direction_of td 0) (gpio_sense_of tsn 0))])).
Proof.
  intros Eia Hpd Hps.
  assert (Eea : lit_cstr (str "configure") = ea)
    by (pose proof Hia as H0; rewrite Eia in H0; now injection H0).
  destruct resolved_port_pin as (port & pin & H1 & H2 & E).
  exists port, pin.
  assert (Hpre :
    fetch_gpio M lvl cl dl s
    = (if negb (is_null pd) && negb (is_null ps)
       then gpio_config M cl ;; ret true else ret false) s).
  { past_validation. action_test Eea "get"%string false.
    action_test Eea "set"%string false.
    action_test Eea "clear"%string false.
    action_test Eea "config"%string true.
    rewrite (bind_ok _ _ s s pd) by (now apply nth_tok_ok).
    rewrite (bind_ok _ _ s s ps) by (now apply nth_tok_ok).
    reflexivity. }
  repeat split; try assumption.
  - intros Hnull. rewrite Hpre.
    destruct (is_null pd), (is_null ps); try discriminate; reflexivity.
  - intros td tsn Htd Htsn. rewrite Hpre.
    rewrite (load_cstr_not_null _ _ _ Htd), (load_cstr_not_null _ _ _ Htsn).
    cbn [negb andb].
    now rewrite (bind_ok _ _ _ _ _
                   (gpio_config_eval port pin pd ps td tsn E Hpd Htd Hps Htsn)).
Qed.

End GpioHandler.

(** X6. [gpio:get]: when the action token is ["get"], the port token the
    [ip]-th port name and the pin token the [ipn]-th pin name, each in any
    letter case, [fetch_gpio] reads the pad of port [ip] and pin [ipn]
    once, prints the level read as a decimal number and returns true;
    nothing else happens. *)
Theorem fetch_gpio_get_reads_pad
    (M : nat) (lvl : GPIO_TypeDef -> GPIO_pinnums -> Z)
    (cl dl : list ptr) (s : state) (pa pp pn : ptr) (ta tp tn : cstring)
    (ip ipn : nat) (ep en : cstring) :
  5 <= M ->
  cl !! ACTION = Some pa -> load_cstr (st_mem s) pa = Some ta ->
  caseless_eq (str "get") ta = true ->
  cl !! PORT = Some pp -> load_cstr (st_mem s) pp = Some tp ->
  vocab port_names !! ip = Some ep -> caseless_eq ep tp = true ->
  cl !! PIN = Some pn -> load_cstr (st_mem s) pn = Some tn ->
  vocab pin_names !! ipn = Some en -> caseless_eq en tn = true ->
  exists port pin,
    port_number port = ip /\ pin_number pin = ipn /\
    fetch_gpio M lvl cl dl s
    = (Ok true, add_events s [PalReadPad port pin; Chprintf_d (lvl port pin)]).
Proof.
  intros. eapply (fetch_gpio_get_entry M lvl cl dl s pa pp pn ta tp tn 0
                    ip ipn (str "get") ep en); eauto.
Qed.

Lemma fetch_gpio_get_reads_pad_witness :
  5 <= 5 /\
  exists port pin,
    port_number port = 2 /\ pin_number pin = 12 /\
    fetch_gpio 5 (fun _ _ => 1%Z)
      (map Lit ["gpio"; "GET"; "portc"; "Pin12"]%string) [NULL] init_state
    = (Ok true, add_events init_state [PalReadPad port pin; Chprintf_d 1]).
Proof.
  split; [lia|].
  apply (fetch_gpio_get_reads_pad 5 (fun _ _ => 1%Z)
           (map Lit ["gpio"; "GET"; "portc"; "Pin12"]%string) [NULL]
           init_state (Lit "GET") (Lit "portc") (Lit "Pin12")
           (str "GET") (str "portc") (str "Pin12") 2 12
           (str "portc") (str "pin12"));
    first [lia | reflexivity].
Defined.

(** X7. [gpio:set] and [gpio:clear]: with the port and pin tokens as
    above, the action ["set"] calls [palSetPad] and the action ["clear"]
    calls [palClearPad], once, on port [ip] and pin [ipn]; [fetch_gpio]
    returns true and prints nothing. *)
Theorem fetch_gpio_set_clear_pad
    (M : nat) (lvl : GPIO_TypeDef -> GPIO_pinnums -> Z)
    (cl dl : list ptr) (s : state) (pa pp pn : ptr) (ta tp tn : cstring)
    (ip ipn : nat) (ep en : cstring) :
  5 <= M ->
  cl !! ACTION = Some pa -> load_cstr (st_mem s) pa = Some ta ->
  cl !! PORT = Some pp -> load_cstr (st_mem s) pp = Some tp ->
  vocab port_names !! ip = Some ep -> caseless_eq ep tp = true ->
  cl !! PIN = Some pn -> load_cstr (st_mem s) pn = Some tn ->
  vocab pin_names !! ipn = Some en -> caseless_eq en tn = true ->
  (caseless_eq (str "set") ta = true ->
   exists port pin,
     port_number port = ip /\ pin_number pin = ipn /\
     fetch_gpio M lvl cl dl s = (Ok true, add_events s [PalSetPad port pin])) /\
  (caseless_eq (str "clear") ta = true ->
   exists port pin,
     port_number port = ip /\ pin_number pin = ipn /\
     fetch_gpio M lvl cl dl s = (Ok true, add_events s [PalClearPad port pin])).
Proof.
  intros. split; intros Ha.
  - eapply (fetch_gpio_set_entry M lvl cl dl s pa pp pn ta tp tn 1
              ip ipn (str "set") ep en); eauto.
  - eapply (fetch_gpio_clear_entry M lvl cl dl s pa pp pn ta tp tn 2
              ip ipn (str "clear") ep en); eauto.
Qed.

Lemma fetch_gpio_set_clear_pad_witness :
  5 <= 5 /\
  exists port pin,
    port_number port = 8 /\ pin_number pin = 9 /\
    fetch_gpio 5 low_level
      (map Lit ["gpio"; "Clear"; "PORTI"; "pin9"]%string) [NULL] init_state
    = (Ok true, add_events init_state [PalClearPad port pin]).
Proof.
  split; [lia|].
  apply (proj2 (fetch_gpio_set_clear_pad 5 low_level
                  (map Lit ["gpio"; "Clear"; "PORTI"; "pin9"]%string) [NULL]
                  init_state (Lit "Clear") (Lit "PORTI") (Lit "pin9")
                  (str "Clear") (str "PORTI") (str "pin9") 8 9
                  (str "porti") (str "pin9")
                  (le_n 5) eq_refl eq_refl eq_refl eq_refl eq_refl eq_refl
                  eq_refl eq_refl eq_refl eq_refl)).
  reflexivity.
Defined.

(** X8. [gpio:configure]: with the port and pin tokens as above and the
    action ["configure"], [fetch_gpio] returns false without any call
    when the direction or the sense entry of the command list is null.
    When the direction token is the [a]-th direction name and the sense
    token the [b]-th sense name, in any letter case, it calls
    [palSetPadMode] once on port [ip] and pin [ipn] with the bitwise or
    of the two modes, and returns true. *)
Theorem fetch_gpio_configure_pad
    (M : nat) (lvl : GPIO_TypeDef -> GPIO_pinnums -> Z)
    (cl dl : list ptr) (s : state) (pa pp pn pd ps : ptr)
    (ta tp tn : cstring) (ip ipn : nat) (ep en : cstring) :
  5 <= M ->
  cl !! ACTION = Some pa -> load_cstr (st_mem s) pa = Some ta ->
  caseless_eq (str "configure") ta = true ->
  cl !! PORT = Some pp -> load_cstr (st_mem s) pp = Some tp ->
  vocab port_names !! ip = Some ep -> caseless_eq ep tp = true ->
  cl !! PIN = Some pn -> load_cstr (st_mem s) pn = Some tn ->
  vocab pin_names !! ipn = Some en -> caseless_eq en tn = true ->
  cl !! DIRECTION = Some pd -> cl !! SENSE = Some ps ->
  (is_null pd || is_null ps = true ->
   fetch_gpio M lvl cl dl s = (Ok false, s)) /\
  (forall (td tsn : cstring) (a b : nat) (ed es : cstring),
      load_cstr (st_mem s) pd = Some td ->
      load_cstr (st_mem s) ps = Some tsn ->
      vocab direction_names !! a = Some ed -> caseless_eq ed td = true ->
      vocab sense_names !! b = Some es -> caseless_eq es tsn = true ->
      exists port pin,
        port_number port = ip /\ pin_number pin = ipn /\
        fst (fetch_gpio M lvl cl dl s) = Ok true /\
        List.filter is_hardware (trace (snd (fetch_gpio M lvl cl dl s)))
        = List.filter is_hardware (trace s)
          ++ [PalSetPadMode port pin (Z.lor (direction_bits a) (sense_bits b))]).
Proof.
  intros HM Hpa Hta Ha Hpp Htp Hip Hep Hpn Htn Hipn Hen Hpd Hps.
  destruct (fetch_gpio_config_entry M lvl cl dl s pa pp pn ta tp tn 3
              ip ipn (str "configure") ep en HM Hpa Hta eq_refl Ha Hpp Htp
              Hip Hep Hpn Htn Hipn Hen pd ps eq_refl Hpd Hps)
    as (port & pin & H1 & H2 & Hnull & Hrun).
  split; [exact Hnull|].
  intros td tsn a b ed es Htd Htsn Had Hed Hbs Hes.
  exists port, pin. split; [exact H1|]. split; [exact H2|].
  rewrite (Hrun td tsn Htd Htsn).
  rewrite (gpio_direction_of_entry td a ed Had Hed),
    (gpio_sense_of_entry tsn b es Hbs Hes).
  split; [reflexivity|].
  cbn [snd add_events trace]. rewrite List.filter_app. reflexivity.
Qed.

Lemma fetch_gpio_configure_pad_witness :
  5 <= 5 /\
  exists port pin,
    port_number port = 3 /\ pin_number pin = 7 /\
    fst (fetch_gpio 5 low_level
           (map Lit ["gpio"; "configure"; "portd"; "pin7"; "OUTPUT";
                     "pulldown"]%string) [NULL] init_state) = Ok true /\
    List.filter is_hardware
      (trace (snd (fetch_gpio 5 low_level
                     (map Lit ["gpio"; "configure"; "portd"; "pin7"; "OUTPUT";
                               "pulldown"]%string) [NULL] init_state)))
    = [PalSetPadMode port pin (Z.lor (direction_bits 1) (sense_bits 1))].
Proof.
  split; [lia|].
  apply (proj2 (fetch_gpio_configure_pad 5 low_level
                  (map Lit ["gpio"; "configure"; "portd"; "pin7"; "OUTPUT";
                            "pulldown"]%string) [NULL] init_state
                  (Lit "configure") (Lit "portd") (Lit "pin7")
                  (Lit "OUTPUT") (Lit "pulldown")
                  (str "configure") (str "portd") (str "pin7") 3 7
                  (str "portd") (str "pin7")
                  (le_n 5) eq_refl eq_refl eq_refl eq_refl eq_refl eq_refl
                  eq_refl eq_refl eq_refl eq_refl eq_refl eq_refl eq_refl)
           (str "OUTPUT") (str "pulldown") 1 1 (str "output") (str "pulldown"));
    reflexivity.
Defined.

(** X9. [fetch_gpio] does nothing before its three validations have
    passed.  When the action token is no action name, or the action is
    valid and the port token is no port name, or both are valid and the
    pin token is no pin name (letter case ignored throughout), it returns
    false and the state is the one it started from: no output, no
    hardware call.  The tokens that follow the offending one are not
    read. *)
Theorem fetch_gpio_rejects_invalid_tokens
    (M : nat) (lvl : GPIO_TypeDef -> GPIO_pinnums -> Z)
    (cl dl : list ptr) (s : state) (pa : ptr) (ta : cstring) :
  cl !! ACTION = Some pa -> load_cstr (st_mem s) pa = Some ta ->
  (Forall (fun e => caseless_eq e ta = false) (vocab action_names) ->
   fetch_gpio M lvl cl dl s = (Ok false, s)) /\
  (forall (ia : nat) (ea : cstring) (pp : ptr) (tp : cstring),
      vocab action_names !! ia = Some ea -> caseless_eq ea ta = true ->
      cl !! PORT = Some pp -> load_cstr (st_mem s) pp = Some tp ->
      (Forall (fun e => caseless_eq e tp = false) (vocab port_names) ->
       fetch_gpio M lvl cl dl s = (Ok false, s)) /\
      (forall (ip : nat) (ep : cstring) (pn : ptr) (tn : cstring),
          vocab port_names !! ip = Some ep -> caseless_eq ep tp = true ->
          cl !! PIN = Some pn -> load_cstr (st_mem s) pn = Some tn ->
          Forall (fun e => caseless_eq e tn = false) (vocab pin_names) ->
          fetch_gpio M lvl cl dl s = (Ok false, s))).
Proof.
  intros Hpa Hta.
  split.
  - intros Hall. unfold fetch_gpio, fetch_is_valid_gpio_subcommandA.
    rewrite (bind_ok _ _ s s pa) by (now apply nth_tok_ok).
    now rewrite (bind_ok _ _ s s _
                   (fetch_token_match_rejects action_names pa ta s Hta
                      action_names_short Hall)).
  - intros ia ea pp tp Hia Hea Hpp Htp.
    destruct (fetch_token_match_accepts action_names pa ta s ia ea Hta
                action_names_short Hia Hea) as (za & Eza & Hza).
    split.
    + intros Hall.
      unfold fetch_gpio, fetch_is_valid_gpio_subcommandA,
        fetch_is_valid_port_subcommand.
      rewrite (bind_ok _ _ s s pa) by (now apply nth_tok_ok).
      rewrite (bind_ok _ _ s s za Eza), Hza.
      rewrite (bind_ok _ _ s s pp) by (now apply nth_tok_ok).
      now rewrite (bind_ok _ _ s s _
                     (fetch_token_match_rejects port_names pp tp s Htp
                        port_names_short Hall)).
    + intros ip ep pn tn Hip Hep Hpn Htn Hall.
      destruct (fetch_token_match_accepts port_names pp tp s ip ep Htp
                  port_names_short Hip Hep) as (zp & Ezp & Hzp).
      unfold fetch_gpio, fetch_is_valid_gpio_subcommandA,
        fetch_is_valid_port_subcommand, fetch_is_valid_pin_subcommand.
      rewrite (bind_ok _ _ s s pa) by (now apply nth_tok_ok).
      rewrite (bind_ok _ _ s s za Eza), Hza.
      rewrite (bind_ok _ _ s s pp) by (now apply nth_tok_ok).
      rewrite (bind_ok _ _ s s zp Ezp), Hzp.
      rewrite (bind_ok _ _ s s pn) by (now apply nth_tok_ok).
      now rewrite (bind_ok _ _ s s _
                     (fetch_token_match_rejects pin_names pn tn s Htn
                        pin_names_short Hall)).
Qed.

Lemma fetch_gpio_rejects_invalid_tokens_witness :
  map Lit ["gpio"; "set"; "portj"]%string !! ACTION = Some (Lit "set") /\
  fetch_gpio 5 low_level (map Lit ["gpio"; "set"; "portj"]%string) [NULL]
             init_state
  = (Ok false, init_state).
Proof.
  split; [reflexivity|].
  apply (proj1 (proj2 (fetch_gpio_rejects_invalid_tokens 5 low_level
                         (map Lit ["gpio"; "set"; "portj"]%string) [NULL]
                         init_state (Lit "set") (str "set") eq_refl eq_refl)
                 1 (str "set") (Lit "portj") (str "portj")
                 eq_refl eq_refl eq_refl eq_refl)).
  repeat constructor.
Defined.

(** ** Tokens of a string *)

Lemma is_delim_single (d c : ascii) :
  is_delim (str (String d EmptyString)) c = Ascii.eqb c d.
Proof. cbn. now rewrite orb_false_r. Qed.

Section Tokens.

Variable d : ascii.
Abbreviation delim := (str (String d EmptyString)).

Lemma fields_not_nil (s : cstring) : fields d s <> [].
Proof.
  induction s as [|c s IH]; cbn [fields]; [discriminate|].
  destruct (Ascii.eqb c d); [discriminate|].
  destruct (fields d s); [contradiction | discriminate].
Qed.

Lemma fields_cons_other (c : ascii) (s : cstring) :
  Ascii.eqb c d = false ->
  exists f fs, fields d s = f :: fs /\ fields d (c :: s) = (c :: f) :: fs.
Proof.
  intros Hc. cbn [fields]. rewrite Hc.
  destruct (fields d s) as [|f fs] eqn:E; [now apply fields_not_nil in E|].
  eauto.
Qed.

Lemma fields_strpbrk_None (s : cstring) :
  strpbrk s delim = None -> fields d s = [s].
Proof.
  induction s as [|c s IH]; cbn [strpbrk]; [reflexivity|].
  rewrite is_delim_single. destruct (Ascii.eqb c d) eqn:Hc; [discriminate|].
  destruct (strpbrk s delim) eqn:E; [discriminate|]. intros _.
  cbn [fields]. now rewrite Hc, IH.
Qed.

Lemma fields_strpbrk_Some (s : cstring) :
  forall j, strpbrk s delim = Some j ->
            fields d s = take j s :: fields d (drop (S j) s).
Proof.
  induction s as [|c s IH]; intros j; cbn [strpbrk]; [discriminate|].
  rewrite is_delim_single. destruct (Ascii.eqb c d) eqn:Hc.
  - intros [= <-]. cbn [fields firstn skipn]. now rewrite Hc.
  - destruct (strpbrk s delim) as [j'|] eqn:E; [|discriminate].
    intros [= <-]. cbn [fields firstn skipn]. rewrite Hc, (IH j' eq_refl).
    reflexivity.
Qed.

Lemma tokens_skip (s : cstring) :
  tokens d (drop (strspn s delim) s) = tokens d s.
Proof.
  induction s as [|c s IH]; [reflexivity|].
  cbn [strspn]. rewrite is_delim_single.
  destruct (Ascii.eqb c d) eqn:Hc; [|reflexivity].
  cbn [skipn]. rewrite IH. unfold tokens. cbn [fields]. now rewrite Hc.
Qed.

Lemma strspn_stops (s : cstring) :
  hd_error (drop (strspn s delim) s) = None \/
  exists c, hd_error (drop (strspn s delim) s) = Some c /\ Ascii.eqb c d = false.
Proof.
  induction s as [|c s IH]; [now left|].
  cbn [strspn]. rewrite is_delim_single.
  destruct (Ascii.eqb c d) eqn:Hc; [exact IH|].
  right. exists c. now split.
Qed.

(** One round of [_strtok] on the string [s], in terms of tokens. *)
Lemma tokens_step (s : cstring) :
  let s' := drop (strspn s delim) s in
  match s' with
  | [] => tokens d s = []
  | _ :: _ =>
      match strpbrk s' delim with
      | None => tokens d s = [s']
      | Some j => 0 < j /\ tokens d s = take j s' :: tokens d (drop (S j) s')
      end
  end.
Proof.
  cbv zeta. rewrite <- tokens_skip.
  destruct (strspn_stops s) as [Hnil|(c & Hc & Hcd)];
    destruct (drop (strspn s delim) s) as [|c' s'] eqn:E;
    try discriminate; [reflexivity|].
  injection Hc as ->.
  destruct (strpbrk (c :: s') delim) as [j|] eqn:Hj.
  - unfold tokens. rewrite (fields_strpbrk_Some _ j Hj).
    cbn [strpbrk] in Hj. rewrite is_delim_single, Hcd in Hj.
    destruct (strpbrk s' delim) as [j'|]; [|discriminate].
    injection Hj as <-. split; [lia | reflexivity].
  - unfold tokens. now rewrite (fields_strpbrk_None _ Hj).
Qed.

End Tokens.

(** ** One call of [_strtok], in terms of tokens *)

Lemma cstr_of_drop_within (l : list ascii) :
  forall t k, cstr_of l = Some t -> k <= length t ->
              cstr_of (drop k l) = Some (drop k t).
Proof.
  induction l as [|c l IH]; intros t k; cbn [cstr_of]; [discriminate|].
  destruct (is_NUL c) eqn:E.
  - intros [= <-] Hk. cbn [length] in Hk. replace k with 0 by lia.
    cbn [skipn cstr_of]. now rewrite E.
  - destruct (cstr_of l) as [t'|] eqn:El; [|discriminate].
    intros [= <-] Hk. destruct k as [|k].
    + cbn [skipn cstr_of]. now rewrite E, El.
    + cbn [skipn]. cbn [length] in Hk. apply IH; [reflexivity | lia].
Qed.

Lemma cstr_of_hd (l : list ascii) (t : cstring) :
  cstr_of l = Some t -> l !! 0 = Some (hd NUL t).
Proof.
  destruct l as [|c l]; cbn [cstr_of]; [discriminate|].
  destruct (is_NUL c) eqn:E.
  - intros [= <-]. apply is_NUL_true in E. now subst.
  - destruct (cstr_of l); [|discriminate]. now intros [= <-].
Qed.

Lemma cstr_of_insert_after (l : list ascii) (x : ascii) :
  forall t w, cstr_of l = Some t -> length t < w ->
              cstr_of (<[w := x]> l) = Some t.
Proof.
  induction l as [|c l IH]; intros t w; cbn [cstr_of]; [discriminate|].
  destruct (is_NUL c) eqn:E.
  - intros [= <-] Hw. destruct w as [|w]; [cbn in Hw; lia|].
    change (<[S w := x]> (c :: l)) with (c :: <[w := x]> l).
    cbn [cstr_of]. now rewrite E.
  - destruct (cstr_of l) as [t'|] eqn:El; [|discriminate].
    intros [= <-] Hw. destruct w as [|w]; [cbn in Hw; lia|].
    change (<[S w := x]> (c :: l)) with (c :: <[w := x]> l).
    cbn [cstr_of length] in *.
    rewrite E, (IH t' w eq_refl) by lia. reflexivity.
Qed.

Lemma cstr_of_insert_at (l : list ascii) :
  forall t j, cstr_of l = Some t -> j < length t ->
    j < length l /\
    cstr_of (<[j := NUL]> l) = Some (take j t) /\
    cstr_of (drop (S j) (<[j := NUL]> l)) = Some (drop (S j) t).
Proof.
  induction l as [|c l IH]; intros t j; cbn [cstr_of]; [discriminate|].
  destruct (is_NUL c) eqn:E.
  - intros [= <-] Hj. cbn in Hj. lia.
  - destruct (cstr_of l) as [t'|] eqn:El; [|discriminate].
    intros [= <-] Hj. destruct j as [|j].
    + change (<[0 := NUL]> (c :: l)) with (NUL :: l).
      cbn [cstr_of length firstn skipn].
      change (is_NUL NUL) with true. repeat split; [lia|].
      change (drop 0 l) with l. exact El.
    + cbn [length] in Hj.
      destruct (IH t' j eq_refl) as (H1 & H2 & H3); [lia|].
      change (<[S j := NUL]> (c :: l)) with (c :: <[j := NUL]> l).
      cbn [cstr_of length firstn skipn].
      rewrite E, H2. repeat split; [lia | exact H3].
Qed.

Lemma load_cstr_shift (m : memory) (b : block) (o k : nat) (t : cstring) :
  load_cstr m (Ptr b o) = Some t -> k <= length t ->
  load_cstr m (Ptr b (o + k)) = Some (drop k t).
Proof.
  cbn [load_cstr]. intros Ht Hk.
  rewrite <- drop_drop. now apply cstr_of_drop_within.
Qed.

Lemma load_char_cstr (b : block) (o : nat) (t : cstring) (s : state) :
  load_cstr (st_mem s) (Ptr b o) = Some t ->
  load_char (Ptr b o) s = (Ok (hd NUL t), s).
Proof.
  cbn [load_cstr]. intros Ht. apply cstr_of_hd in Ht.
  rewrite lookup_drop, Nat.add_0_r in Ht.
  unfold load_char, get_mem, bind, of_option. now rewrite Ht.
Qed.

Lemma with_mem_id (s : state) : with_mem s (st_mem s) = s.
Proof. now destruct s. Qed.

Lemma only_block_refl (b : block) (m : memory) : only_block b m m.
Proof. now split. Qed.

Lemma only_block_trans (b : block) (m1 m2 m3 : memory) :
  only_block b m1 m2 -> only_block b m2 m3 -> only_block b m1 m3.
Proof.
  intros [H1 L1] [H2 L2]. split.
  - intros b' Hb'. now rewrite H2, H1.
  - now rewrite L2, L1.
Qed.

Lemma get_set_block_other (m : memory) (b b' : block) (l : list ascii) :
  b' <> b -> get_block (set_block m b l) b' = get_block m b'.
Proof. destruct b, b'; cbn; congruence. Qed.

Lemma only_block_set (b : block) (m : memory) (l : list ascii) :
  length l = length (get_block m b) -> only_block b m (set_block m b l).
Proof.
  intros Hl. split.
  - intros b' Hb'. now apply get_set_block_other.
  - now rewrite get_set_block.
Qed.

(** A store of NUL at offset [w] of block [b]. *)
Lemma store_char_NUL_ok (b : block) (w : nat) (s : state) :
  w < length (get_block (st_mem s) b) ->
  store_char (Ptr b w) NUL s
  = (Ok tt, with_mem s (set_block (st_mem s) b
                          (<[w := NUL]> (get_block (st_mem s) b)))).
Proof.
  intros Hw. unfold store_char, get_mem, bind, of_option, put_mem, store, ret.
  apply Nat.ltb_lt in Hw. now rewrite Hw.
Qed.

Lemma nul_free_hd (c : ascii) (t : cstring) :
  nul_free (c :: t) -> is_NUL c = false.
Proof. intros H. inversion H; subst. now apply is_NUL_false. Qed.

Lemma strtok_step (b : block) (d : ascii) (p sv : ptr) (s : state)
    (off : nat) (r0 : cstring) :
  (if is_null p then sv else p) = Ptr b off ->
  load_cstr (st_mem s) (Ptr b off) = Some r0 ->
  exists tok sv' m',
    _strtok p (String d EmptyString) sv s = (Ok (tok, sv'), with_mem s m') /\
    only_block b (st_mem s) m' /\
    (forall o t, o + length t < off ->
                 load_cstr (st_mem s) (Ptr b o) = Some t ->
                 load_cstr m' (Ptr b o) = Some t) /\
    match tokens d r0 with
    | [] => tok = NULL /\ sv' = NULL
    | t :: rest =>
        exists o r',
          tok = Ptr b o /\ off <= o /\ load_cstr m' tok = Some t /\ t <> [] /\
          saveptr_is b m' sv' r' /\ tokens_opt d r' = rest /\
          (forall o', sv' = Ptr b o' -> o + length t < o')
    end.
Proof.
  intros Hstart Hr0. unfold _strtok. rewrite Hstart.
  rewrite (bind_ok _ _ s s r0) by now apply load_str_ok.
  pose proof (strspn_le r0 (str (String d EmptyString))) as Hk.
  pose proof (load_cstr_shift _ b off _ r0 Hr0 Hk) as Hshift.
  rewrite (bind_ok _ _ s s _ (load_str_ok _ _ s Hshift)).
  pose proof (tokens_step d r0) as Hstep. cbv zeta in Hstep.
  set (k := strspn r0 (str (String d EmptyString))) in *.
  destruct (drop k r0) as [|c s'] eqn:Es'.
  - cbn [strpbrk].
    rewrite (bind_ok _ _ s s _ (load_char_cstr b _ _ s Hshift)).
    cbn [hd]. change (is_NUL NUL) with true. cbv iota.
    exists NULL, NULL, (st_mem s). rewrite with_mem_id, Hstep.
    repeat split; auto using only_block_refl.
  - pose proof (load_cstr_nul_free _ _ _ Hshift) as Hnf.
    pose proof (nul_free_hd _ _ Hnf) as Hc.
    destruct (strpbrk (c :: s') (str (String d EmptyString))) as [j|] eqn:Hj.
    + destruct Hstep as [Hj0 Htok]. rewrite Htok.
      pose proof (strpbrk_lt _ _ _ Hj) as Hjlt.
      cbn [load_cstr] in Hshift.
      destruct (cstr_of_insert_at _ _ j Hshift Hjlt) as (Hlen & Htake & Hdrop).
      rewrite length_drop in Hlen.
      assert (Hw : off + k + j < length (get_block (st_mem s) b)) by lia.
      rewrite (bind_ok _ _ _ _ _ (store_char_NUL_ok b _ s Hw)).
      set (m' := set_block (st_mem s) b
                   (<[off + k + j := NUL]> (get_block (st_mem s) b))).
      assert (Hblk : get_block m' b
                     = <[off + k + j := NUL]> (get_block (st_mem s) b))
        by apply get_set_block.
      assert (Htok' : load_cstr m' (Ptr b (off + k)) = Some (take j (c :: s'))).
      { cbn [load_cstr]. rewrite Hblk, drop_insert_ge by lia.
        now replace (off + k + j - (off + k)) with j by lia. }
      assert (Hsv' : load_cstr m' (Ptr b (off + k + j + 1))
                     = Some (drop (S j) (c :: s'))).
      { cbn [load_cstr]. rewrite Hblk.
        replace (off + k + j + 1) with (off + k + S j) by lia.
        rewrite <- drop_drop, drop_insert_ge by lia.
        now replace (off + k + j - (off + k)) with j by lia. }
      rewrite (bind_ok _ _ _ _ _
                 (load_char_cstr b _ _ (with_mem s m') Htok')).
      destruct j as [|j]; [lia|]. cbn [firstn hd]. rewrite Hc.
      exists (Ptr b (off + k)), (Ptr b (off + k + S j + 1)), m'.
      split; [reflexivity|]. split.
      { apply only_block_set. now rewrite length_insert. }
      split.
      { intros o t Ho Ht. cbn [load_cstr] in *.
        rewrite Hblk, drop_insert_ge by lia.
        apply cstr_of_insert_after; [exact Ht | lia]. }
      exists (off + k), (Some (drop (S (S j)) (c :: s'))).
      split; [reflexivity|]. split; [lia|]. split; [exact Htok'|].
      split; [discriminate|]. split.
      { split; [reflexivity|]. eauto. }
      split; [reflexivity|].
      intros o' [= <-]. cbn [length] in *. rewrite length_take. lia.
    + rewrite Hstep.
      rewrite (bind_ok _ _ s s _ (load_char_cstr b _ _ s Hshift)).
      cbn [hd]. rewrite Hc.
      exists (Ptr b (off + k)), NULL, (st_mem s). rewrite with_mem_id.
      split; [reflexivity|]. split; [apply only_block_refl|].
      split; [auto|].
      exists (off + k), None.
      repeat split; try assumption; try discriminate; lia.
Qed.

(** ** The token loop, in terms of tokens *)

Lemma set_tok_of_ok (w : bool) (i : nat) (p : ptr) (s : state) :
  i < length (arr_of w s) ->
  exists s', set_tok_of w i p s = (Ok tt, s') /\
             st_mem s' = st_mem s /\
             arr_of w s' = <[i := p]> (arr_of w s) /\
             arr_of (negb w) s' = arr_of (negb w) s /\
             cmd_fns s' = cmd_fns s /\ trace s' = trace s.
Proof.
  intros Hi. apply Nat.ltb_lt in Hi.
  destruct w; cbn [arr_of set_tok_of negb] in *;
    unfold set_command_tok, set_data_tok; rewrite Hi;
    eexists; repeat split.
Qed.

Lemma arr_of_with_mem (w : bool) (s : state) (m : memory) :
  arr_of w (with_mem s m) = arr_of w s.
Proof. now destruct w. Qed.

Lemma arr_of_add_events (w : bool) (s : state) (evs : list event) :
  arr_of w (add_events s evs) = arr_of w s.
Proof. now destruct w. Qed.

Lemma loop_frame_refl (w : bool) (b : block) (s : state) : loop_frame w b s s.
Proof. repeat split. Qed.

Lemma loop_frame_trans (w : bool) (b : block) (s1 s2 s3 : state) :
  loop_frame w b s1 s2 -> loop_frame w b s2 s3 -> loop_frame w b s1 s3.
Proof.
  intros (A1 & B1 & C1 & D1) (A2 & B2 & C2 & D2). repeat split.
  - intros b' Hb'. rewrite (proj1 A2 b' Hb'). now apply A1.
  - rewrite (proj2 A2). apply A1.
  - congruence.
  - congruence.
  - congruence.
Qed.

Lemma loop_frame_with_mem (w : bool) (b : block) (s : state) (m' : memory) :
  only_block b (st_mem s) m' -> loop_frame w b s (with_mem s m').
Proof.
  intros H. split; [exact H|]. rewrite !arr_of_with_mem. repeat split.
Qed.

Lemma holds_toks_below_weaken (b : block) (m : memory) (arr : list ptr)
    (L : list cstring) (bound : nat) :
  holds_toks_below b m arr L bound -> holds_toks b m arr L.
Proof.
  intros H i t Hi. destruct (H i t Hi) as (off & H1 & H2 & H3 & _). eauto.
Qed.

(** Tokens issued below [bound] survive a change of memory that keeps
    the strings below [bound]. *)
Lemma holds_toks_below_frame (b : block) (m m' : memory) (arr : list ptr)
    (L : list cstring) (bound bound' : nat) :
  holds_toks_below b m arr L bound -> bound <= bound' ->
  (forall o t, o + length t < bound ->
               load_cstr m (Ptr b o) = Some t ->
               load_cstr m' (Ptr b o) = Some t) ->
  holds_toks_below b m' arr L bound'.
Proof.
  intros H Hb Hfr i t Hi.
  destruct (H i t Hi) as (off & H1 & H2 & H3 & H4).
  exists off. repeat split; auto. lia.
Qed.

Lemma holds_toks_below_snoc (b : block) (m : memory) (arr : list ptr)
    (L : list cstring) (bound : nat) (o : nat) (t : cstring) :
  holds_toks_below b m arr L bound ->
  length L < length arr ->
  load_cstr m (Ptr b o) = Some t -> t <> [] -> o + length t < bound ->
  holds_toks_below b m (<[length L := Ptr b o]> arr) (L ++ [t]) bound.
Proof.
  intros H Hlen Ho Hne Hb i t' Hi.
  apply lookup_app_Some in Hi as [Hi|[Hge Hi]].
  - destruct (H i t' Hi) as (off & H1 & H2 & H3 & H4).
    exists off. repeat split; auto.
    rewrite list_lookup_insert_ne; [exact H1|].
    apply lookup_lt_Some in Hi. lia.
  - destruct (i - length L) as [|k] eqn:Ek; [|now destruct k].
    injection Hi as <-. replace i with (length L) by lia.
    exists o. repeat split; auto. now apply list_lookup_insert_eq.
Qed.

Lemma incr_u8_small (n : nat) : n < FETCH_MAX_COMMANDS -> incr_u8 n = S n.
Proof.
  unfold FETCH_MAX_COMMANDS, incr_u8. intros H.
  rewrite Nat.mod_small; lia.
Qed.

Lemma tok_loop_spec (w : bool) (b : block) (d : ascii) :
  forall (fuel n : nat) (tokp : ptr) (s : state) (r : option cstring)
         (L : list cstring) (bound : nat),
    saveptr_is b (st_mem s) tokp r ->
    (forall off, tokp = Ptr b off -> bound <= off) ->
    holds_toks_below b (st_mem s) (arr_of w s) L bound ->
    length L = S n -> n <= FETCH_MAX_COMMANDS ->
    FETCH_MAX_COMMANDS < fuel + n ->
    length (arr_of w s) = FETCH_MAX_LINE_CHARS ->
    exists n' tokp' s',
      tok_loop (String d EmptyString) (set_tok_of w) fuel n tokp s
      = (Ok (n', tokp'), s') /\
      loop_frame w b s s' /\ n' <= FETCH_MAX_COMMANDS /\
      if length (L ++ tokens_opt d r) <=? FETCH_MAX_COMMANDS + 1
      then length (L ++ tokens_opt d r) = S n' /\
           holds_toks b (st_mem s') (arr_of w s') (L ++ tokens_opt d r) /\
           trace s' = trace s
      else arr_of w s' !! 0 = Some NULL /\
           trace s' = trace s ++ [too_many].
Proof.
  induction fuel as [|fuel IH];
    intros n tokp s r L bound Hsv Hbound Hheld HL Hn Hfuel Harr; [lia|].
  cbn [tok_loop].
  destruct tokp as [|b' off|l]; [| |contradiction].
  - (* nothing left *)
    cbn [saveptr_is] in Hsv. subst r. cbn [tokens_opt].
    rewrite (bind_ok _ _ s s (NULL, NULL)) by reflexivity.
    cbn [fst snd is_null]. exists n, NULL, s.
    split; [reflexivity|]. split; [apply loop_frame_refl|].
    split; [exact Hn|]. rewrite app_nil_r, HL.
    replace (S n <=? FETCH_MAX_COMMANDS + 1) with true
      by (symmetry; apply Nat.leb_le; lia).
    repeat split. eapply holds_toks_below_weaken; eauto.
  - destruct Hsv as (-> & r0 & -> & Hr0). cbn [tokens_opt].
    destruct (strtok_step b d NULL (Ptr b off) s off r0 eq_refl Hr0)
      as (tok & sv' & m' & Estep & Hblk & Hframe & Htoks).
    rewrite (bind_ok _ _ _ _ _ Estep). cbn [fst snd].
    pose proof (Hbound off eq_refl) as Hbo.
    assert (Hheld1 : holds_toks_below b m' (arr_of w s) L bound).
    { eapply holds_toks_below_frame; [exact Hheld | lia|].
      intros o t Ho. apply Hframe. lia. }
    destruct (tokens d r0) as [|t rest] eqn:Et.
    + destruct Htoks as [-> ->]. cbn [is_null].
      exists n, NULL, (with_mem s m').
      split; [reflexivity|]. split; [now apply loop_frame_with_mem|].
      split; [exact Hn|]. rewrite app_nil_r, HL.
      replace (S n <=? FETCH_MAX_COMMANDS + 1) with true
        by (symmetry; apply Nat.leb_le; lia).
      rewrite arr_of_with_mem. repeat split.
      eapply holds_toks_below_weaken; eauto.
    + destruct Htoks as (o & r' & -> & Hoo & Hload & Hne & Hsv' & Hrest & Hnext).
      cbn [is_null].
      destruct (FETCH_MAX_COMMANDS <=? n) eqn:En.
      * (* one token too many *)
        apply Nat.leb_le in En.
        rewrite (bind_ok _ _ _ _ _ (emit_eval _ _)).
        destruct (set_tok_of_ok w 0 NULL
                    (add_events (with_mem s m') [Errormsg "Too many commands."]))
          as (s3 & E3 & Hm3 & Ha3 & Ho3 & Hf3 & Ht3);
          [rewrite arr_of_add_events, arr_of_with_mem, Harr;
           unfold FETCH_MAX_LINE_CHARS; lia|].
        rewrite (bind_ok _ _ _ _ _ E3).
        exists n, sv', s3. split; [reflexivity|]. split.
        { repeat split.
          - intros b'' Hb''. rewrite Hm3. now apply Hblk.
          - rewrite Hm3. apply Hblk.
          - rewrite Ho3, arr_of_add_events, arr_of_with_mem. reflexivity.
          - rewrite Hf3. reflexivity.
          - rewrite Ha3, length_insert, arr_of_add_events, arr_of_with_mem.
            reflexivity. }
        split; [exact Hn|].
        replace (length (L ++ t :: rest) <=? FETCH_MAX_COMMANDS + 1) with false
          by (symmetry; apply Nat.leb_gt; rewrite length_app; cbn [length]; lia).
        split.
        { rewrite Ha3. apply list_lookup_insert_eq.
          rewrite arr_of_add_events, arr_of_with_mem, Harr.
          unfold FETCH_MAX_LINE_CHARS. lia. }
        rewrite Ht3. reflexivity.
      * apply Nat.leb_gt in En. rewrite (incr_u8_small n En).
        destruct (set_tok_of_ok w (S n) (Ptr b o) (with_mem s m'))
          as (s2 & E2 & Hm2 & Ha2 & Ho2 & Hf2 & Ht2);
          [rewrite arr_of_with_mem, Harr;
           unfold FETCH_MAX_LINE_CHARS, FETCH_MAX_COMMANDS in *; lia|].
        rewrite (bind_ok _ _ _ _ _ E2).
        rewrite arr_of_with_mem in Ha2.
        destruct (IH (S n) sv' s2 r' (L ++ [t]) (o + length t + 1))
          as (n' & tokp' & s' & Eloop & Hfr & Hn' & Hres).
        { rewrite Hm2. exact Hsv'. }
        { intros o' Ho'. specialize (Hnext o' Ho'). lia. }
        { rewrite Hm2, Ha2, <- HL.
          apply holds_toks_below_snoc; try assumption; try lia.
          - eapply holds_toks_below_frame; [exact Hheld1 | lia | auto].
          - rewrite Harr, HL. unfold FETCH_MAX_LINE_CHARS, FETCH_MAX_COMMANDS in *.
            lia. }
        { rewrite length_app, HL. cbn [length]. lia. }
        { lia. }
        { lia. }
        { rewrite Ha2, length_insert. exact Harr. }
        exists n', tokp', s'. split; [exact Eloop|]. split.
        { eapply loop_frame_trans; [|exact Hfr]. repeat split.
          - intros b'' Hb''. rewrite Hm2. now apply Hblk.
          - rewrite Hm2. apply Hblk.
          - rewrite Ho2, arr_of_with_mem. reflexivity.
          - rewrite Hf2. reflexivity.
          - rewrite Ha2, length_insert. reflexivity. }
        split; [exact Hn'|].
        rewrite <- app_assoc, Hrest in Hres. cbn [app] in Hres.
        rewrite Ht2 in Hres. exact Hres.
Qed.

(** ** Filling one token array *)

Lemma tok_strings_of_held (b : block) (m : memory) (L : list cstring) :
  forall arr, holds_toks b m arr L ->
    arr !! length L = Some END_OF_TOKS \/ arr !! length L = Some NULL ->
    tok_strings m arr = L.
Proof.
  induction L as [|t L IH]; intros arr Hh He.
  - destruct arr as [|p arr]; [reflexivity|]. cbn [tok_strings].
    destruct He as [[= ->]|[= ->]]; reflexivity.
  - destruct (Hh 0 t eq_refl) as (off & H0 & Hl & Hne).
    destruct arr as [|p arr]; [discriminate|]. injection H0 as ->.
    cbn [tok_strings]. rewrite Hl.
    destruct t as [|c t]; [congruence|]. f_equal. apply IH.
    + intros i u Hi. exact (Hh (S i) u Hi).
    + exact He.
Qed.

Lemma array_holds_strings (b : block) (m : memory) (arr : list ptr)
    (L : list cstring) :
  array_holds b m arr L -> tok_strings m arr = L.
Proof.
  intros [Hh He]. apply (tok_strings_of_held b); [exact Hh|].
  destruct L; [right | left]; exact He.
Qed.

Lemma array_holds_frame (b : block) (m m' : memory) (arr : list ptr)
    (L : list cstring) :
  array_holds b m arr L -> get_block m' b = get_block m b ->
  array_holds b m' arr L.
Proof.
  intros [Hh He] Hb. split; [|exact He].
  intros i t Hi. destruct (Hh i t Hi) as (off & H1 & H2 & H3).
  exists off. repeat split; auto. cbn [load_cstr] in *. now rewrite Hb.
Qed.

Lemma tok_loop_null (delim : string) (set_tok : nat -> ptr -> M unit)
    (fuel n : nat) (s : state) :
  0 < fuel -> tok_loop delim set_tok fuel n NULL s = (Ok (n, NULL), s).
Proof. destruct fuel; [lia | reflexivity]. Qed.

Lemma set_tok_of_frame (w : bool) (b : block) (i : nat) (p : ptr) (s : state) :
  i < length (arr_of w s) ->
  exists s', set_tok_of w i p s = (Ok tt, s') /\
             st_mem s' = st_mem s /\
             arr_of w s' = <[i := p]> (arr_of w s) /\
             trace s' = trace s /\ loop_frame w b s s'.
Proof.
  intros Hi.
  destruct (set_tok_of_ok w i p s Hi) as (s' & E & Hm & Ha & Ho & Hf & Ht).
  exists s'. repeat split; auto.
  - intros b' _. now rewrite Hm.
  - now rewrite Hm.
  - now rewrite Ha, length_insert.
Qed.

(** The four steps that fill a token array from the string [src] at the
    start of block [b]: first token, loop, end marker.  The array then
    lists the tokens of [src], or nothing when there are more than
    [FETCH_MAX_COMMANDS + 1] of them, in which case the error message has
    been sent; the other array, the other blocks and the callback table are
    as before. *)
Lemma tok_array_spec (w : bool) (b : block) (d : ascii) (sv0 : ptr)
    (s : state) (src : cstring) :
  load_cstr (st_mem s) (Ptr b 0) = Some src ->
  length (arr_of w s) = FETCH_MAX_LINE_CHARS ->
  exists r s1 s2 nt s3 s',
    _strtok (Ptr b 0) (String d EmptyString) sv0 s = (Ok r, s1) /\
    set_tok_of w 0 (fst r) s1 = (Ok tt, s2) /\
    tok_loop (String d EmptyString) (set_tok_of w) FETCH_MAX_LINE_CHARS 0
      (snd r) s2 = (Ok nt, s3) /\
    set_tok_of w (incr_u8 (fst nt)) END_OF_TOKS s3 = (Ok tt, s') /\
    loop_frame w b s s' /\
    array_holds b (st_mem s') (arr_of w s') (capped (tokens d src)) /\
    trace s' = trace s ++ overflow_msgs (tokens d src).
Proof.
  intros Hsrc Harr.
  destruct (strtok_step b d (Ptr b 0) sv0 s 0 src eq_refl Hsrc)
    as (tok & sv' & m' & Estep & Hblk & _ & Htoks).
  pose proof (loop_frame_with_mem w b s m' Hblk) as F1.
  destruct (set_tok_of_frame w b 0 tok (with_mem s m'))
    as (s2 & E2 & Hm2 & Ha2 & Ht2 & F2);
    [rewrite arr_of_with_mem, Harr; unfold FETCH_MAX_LINE_CHARS; lia|].
  rewrite arr_of_with_mem in Ha2.
  assert (Hlen2 : length (arr_of w s2) = FETCH_MAX_LINE_CHARS)
    by (now rewrite Ha2, length_insert).
  unfold capped, overflow_msgs.
  destruct (tokens d src) as [|t rest] eqn:Et.
  - destruct Htoks as [-> ->].
    destruct (set_tok_of_frame w b (incr_u8 0) END_OF_TOKS s2)
      as (s' & E' & Hm' & Ha' & Ht' & F');
      [rewrite Hlen2; unfold FETCH_MAX_LINE_CHARS, incr_u8; simpl; lia|].
    exists (NULL, NULL), (with_mem s m'), s2, (0, NULL), s2, s'.
    cbn [fst snd length]. split; [exact Estep|]. split; [exact E2|].
    split; [apply tok_loop_null; unfold FETCH_MAX_LINE_CHARS; lia|].
    split; [exact E'|].
    split; [eauto using loop_frame_trans|].
    split.
    + split; [intros i u Hi; discriminate|].
      rewrite Ha', Ha2. unfold incr_u8. cbn [Nat.add Nat.modulo].
      rewrite list_lookup_insert_ne by (vm_compute; lia).
      apply list_lookup_insert_eq. rewrite Harr.
      unfold FETCH_MAX_LINE_CHARS. lia.
    + cbn [Nat.leb]. rewrite Ht', Ht2, app_nil_r. reflexivity.
  - destruct Htoks as (o & r' & -> & _ & Hload & Hne & Hsv' & Hrest & Hnext).
    destruct (tok_loop_spec w b d FETCH_MAX_LINE_CHARS 0 sv' s2 r' [t]
                (o + length t + 1))
      as (n' & tokp' & s3 & Eloop & F3 & Hn' & Hres).
    { rewrite Hm2. exact Hsv'. }
    { intros o' Ho'. specialize (Hnext o' Ho'). lia. }
    { intros i u Hi. destruct i as [|i]; [|destruct i; discriminate].
      injection Hi as <-. exists o. rewrite Hm2, Ha2. repeat split; auto.
      - apply list_lookup_insert_eq. rewrite Harr.
        unfold FETCH_MAX_LINE_CHARS. lia.
      - lia. }
    { reflexivity. }
    { unfold FETCH_MAX_COMMANDS. lia. }
    { unfold FETCH_MAX_COMMANDS, FETCH_MAX_LINE_CHARS. lia. }
    { exact Hlen2. }
    cbn [app] in Hres. rewrite Hrest in Hres.
    assert (Hi3 : incr_u8 n' = S n').
    { unfold incr_u8, FETCH_MAX_COMMANDS in *. rewrite Nat.mod_small; lia. }
    assert (Hlen3 : length (arr_of w s3) = FETCH_MAX_LINE_CHARS)
      by (destruct F3 as (_ & _ & _ & ->); exact Hlen2).
    destruct (set_tok_of_frame w b (incr_u8 n') END_OF_TOKS s3)
      as (s' & E' & Hm' & Ha' & Ht' & F');
      [rewrite Hi3, Hlen3;
       unfold FETCH_MAX_LINE_CHARS, FETCH_MAX_COMMANDS in *; lia|].
    exists (Ptr b o, sv'), (with_mem s m'), s2, (n', tokp'), s3, s'.
    cbn [fst snd]. split; [exact Estep|]. split; [exact E2|].
    split; [exact Eloop|]. split; [exact E'|].
    split; [eauto using loop_frame_trans|].
    rewrite Hi3 in Ha'.
    destruct (length (t :: rest) <=? FETCH_MAX_COMMANDS + 1) eqn:Ecap.
    + destruct Hres as (Hl & Hheld & Htr). split.
      * split.
        -- intros i u Hi. destruct (Hheld i u Hi) as (off & H1 & H2 & H3).
           exists off. rewrite Hm', Ha'. repeat split; auto.
           rewrite list_lookup_insert_ne; [exact H1|].
           apply lookup_lt_Some in Hi. lia.
        -- rewrite Ha', Hl. apply list_lookup_insert_eq.
           rewrite Hlen3.
           unfold FETCH_MAX_LINE_CHARS, FETCH_MAX_COMMANDS in *. lia.
      * rewrite Ht', Htr, Ht2, app_nil_r. reflexivity.
    + destruct Hres as (H0 & Htr). split.
      * split; [intros i u Hi; discriminate|]. rewrite Ha'.
        rewrite list_lookup_insert_ne by lia. exact H0.
      * rewrite Ht', Htr, Ht2. reflexivity.
Qed.

(** ** Copying the two parts of a line *)

Lemma cstr_of_app_NUL (t rest : list ascii) :
  nul_free t -> cstr_of (t ++ NUL :: rest) = Some t.
Proof.
  induction 1 as [|c t Hc Ht IH]; [reflexivity|].
  cbn [app cstr_of]. apply is_NUL_false in Hc. now rewrite Hc, IH.
Qed.

Lemma cstr_of_length (l : list ascii) :
  forall t, cstr_of l = Some t -> length t < length l.
Proof.
  induction l as [|c l IH]; intros t; cbn [cstr_of]; [discriminate|].
  destruct (is_NUL c).
  - intros [= <-]. cbn [length]. lia.
  - destruct (cstr_of l) as [t'|]; [|discriminate].
    intros [= <-]. specialize (IH t' eq_refl). cbn [length]. lia.
Qed.

Lemma load_cstr_length (m : memory) (b : block) (o : nat) (t : cstring) :
  load_cstr m (Ptr b o) = Some t -> o + length t < length (get_block m b).
Proof.
  cbn [load_cstr]. intros H. apply cstr_of_length in H.
  rewrite length_drop in H. lia.
Qed.

Lemma nul_free_remove_spaces (t : cstring) :
  nul_free t -> nul_free (fetch_remove_spaces_str t).
Proof.
  unfold fetch_remove_spaces_str.
  induction 1 as [|c t Hc Ht IH]; cbn [List.filter]; [constructor|].
  destruct (negb (is_blank c)); [constructor|]; assumption.
Qed.

Lemma load_cstr_other (m m' : memory) (b b' : block) (o : nat) :
  only_block b m m' -> b' <> b ->
  load_cstr m' (Ptr b' o) = load_cstr m (Ptr b' o).
Proof. intros [H _] Hb. cbn [load_cstr]. now rewrite H. Qed.

(** The three statements that copy a part of the work line, found at
    offset [o] of [localinput], to the start of [bd]. *)
Lemma copy_part (bd : block) (o : nat) (t : cstring) (s : state) :
  block_eqb bd Blocalinput = false ->
  load_cstr (st_mem s) (Ptr Blocalinput o) = Some t ->
  length (get_block (st_mem s) Blocalinput) = FETCH_MAX_LINE_CHARS ->
  length (get_block (st_mem s) bd) = FETCH_MAX_LINE_CHARS ->
  exists m1 m2,
    strlen (Ptr Blocalinput o) s = (Ok (length t), s) /\
    strncpy (Ptr bd 0) (Ptr Blocalinput o) (length t) s
    = (Ok tt, with_mem s m1) /\
    store_char (Ptr bd (length t)) NUL (with_mem s m1)
    = (Ok tt, with_mem s m2) /\
    only_block bd (st_mem s) m2 /\
    load_cstr m2 (Ptr bd 0) = Some t.
Proof.
  intros Hb Ht Hl Hd.
  pose proof (load_cstr_length _ _ _ _ Ht) as Hlen. rewrite Hl in Hlen.
  pose proof (load_cstr_nul_free _ _ _ Ht) as Hnf.
  assert (E1 : strncpy (Ptr bd 0) (Ptr Blocalinput o) (length t) s
               = (Ok tt, with_mem s (set_block (st_mem s) bd
                    (t ++ drop (length t) (get_block (st_mem s) bd))))).
  { unfold strncpy, get_mem, bind, of_option, put_mem, ret.
    cbn [same_block read_strn]. rewrite Hb.
    cbn [load_cstr] in Ht. rewrite (strn_of_cstr _ _ Ht).
    rewrite Nat.sub_diag. cbn [repeat]. rewrite app_nil_r.
    rewrite store_bytes_ok by (rewrite Hd; lia).
    cbn [firstn app Nat.add]. reflexivity. }
  eexists _, _. split; [unfold strlen; rewrite (bind_ok _ _ _ _ _ (load_str_ok _ _ _ Ht)); reflexivity|].
  split; [exact E1|]. split.
  { rewrite store_char_NUL_ok; cbn [with_mem st_mem].
    - rewrite get_set_block, set_set_block. reflexivity.
    - rewrite get_set_block, length_app, length_drop, Hd. lia. }
  assert (Hins : <[length t := NUL]> (t ++ drop (length t) (get_block (st_mem s) bd))
                 = t ++ NUL :: drop (S (length t)) (get_block (st_mem s) bd)).
  { rewrite insert_app_r_alt by lia. rewrite Nat.sub_diag.
    destruct (drop (length t) (get_block (st_mem s) bd)) as [|c l] eqn:El.
    - apply (f_equal length) in El. rewrite length_drop, Hd in El.
      cbn [length] in El. lia.
    - replace (S (length t)) with (length t + 1) by lia.
      rewrite <- drop_drop, El. reflexivity. }
  rewrite Hins. split.
  - apply only_block_set. rewrite length_app. cbn [length].
    rewrite length_drop, Hd. lia.
  - cbn [load_cstr]. rewrite get_set_block. change (drop 0 ?l) with l.
    now apply cstr_of_app_NUL.
Qed.

Lemma fetch_remove_spaces_ok (b : block) (t : cstring) (s : state) :
  load_cstr (st_mem s) (Ptr b 0) = Some t ->
  exists m',
    fetch_remove_spaces (Ptr b 0) s = (Ok tt, with_mem s m') /\
    only_block b (st_mem s) m' /\
    load_cstr m' (Ptr b 0) = Some (fetch_remove_spaces_str t).
Proof.
  intros Ht.
  pose proof (load_cstr_length _ _ _ _ Ht) as Hlen.
  pose proof (load_cstr_nul_free _ _ _ Ht) as Hnf.
  assert (Hf : length (fetch_remove_spaces_str t) <= length t)
    by apply List.filter_length_le.
  eexists. split.
  { unfold fetch_remove_spaces.
    rewrite (bind_ok _ _ _ _ _ (load_str_ok _ _ _ Ht)).
    unfold get_mem, bind, of_option, put_mem, ret.
    rewrite store_bytes_ok by (rewrite length_app; cbn [length]; lia).
    cbn [firstn app Nat.add]. reflexivity. }
  rewrite take_0, <- app_assoc. cbn [app]. split.
  - apply only_block_set. rewrite length_app. cbn [length].
    rewrite length_drop, length_app. cbn [length]. lia.
  - cbn [load_cstr]. rewrite get_set_block. change (drop 0 ?l) with l.
    apply cstr_of_app_NUL. now apply nul_free_remove_spaces.
Qed.

(** ** A line, from the copy to the dispatcher *)

Lemma cstr_of_padded (line : cstring) (k : nat) :
  nul_free line -> cstr_of (line ++ repeat NUL (S k)) = Some line.
Proof. intros H. cbn [repeat]. now apply cstr_of_app_NUL. Qed.

(** The head of [fetch_parse]: the copy of the line, the test of its
    first byte and the two calls that split it at ['(']. *)
Lemma fetch_parse_split (M : nat) (lvl : GPIO_TypeDef -> GPIO_pinnums -> Z)
    (s : state) (off : nat) (line cpart : cstring) (rest : list cstring) :
  wf s ->
  cstr_of (drop off (m_input (st_mem s))) = Some line ->
  length line < FETCH_MAX_LINE_CHARS ->
  hd NUL line <> "("%char ->
  tokens "(" line = cpart :: rest ->
  exists oc parenpart tokp mA,
    fetch_parse M lvl (Ptr Binput off) s
    = fetch_parse_parts M lvl (Ptr Blocalinput oc) parenpart tokp
        (with_mem s mA) /\
    only_block Blocalinput (st_mem s) mA /\
    load_cstr mA (Ptr Blocalinput oc) = Some cpart /\
    match rest with
    | [] => parenpart = NULL
    | dpart :: _ => exists od, parenpart = Ptr Blocalinput od /\
                               load_cstr mA parenpart = Some dpart
    end.
Proof.
  intros Hs Hline Hlen Hhd Htok. unfold fetch_parse.
  rewrite (bind_ok _ _ _ _ _ (strncpy_localinput s off line Hs Hline Hlen)).
  set (m0 := set_block (st_mem s) Blocalinput
               (line ++ repeat NUL (FETCH_MAX_LINE_CHARS - length line))).
  destruct (wf_mem_block (st_mem s) Blocalinput (proj1 Hs)) as [Hblk _];
    [discriminate|].
  assert (H0 : only_block Blocalinput (st_mem s) m0).
  { apply only_block_set. rewrite length_app, repeat_length, Hblk. lia. }
  assert (Hl0 : load_cstr (st_mem (with_mem s m0)) (Ptr Blocalinput 0)
                = Some line).
  { cbn [load_cstr with_mem st_mem]. unfold m0. rewrite get_set_block.
    change (drop 0 ?l) with l.
    replace (FETCH_MAX_LINE_CHARS - length line)
      with (S (FETCH_MAX_LINE_CHARS - length line - 1)) by lia.
    apply cstr_of_padded. eapply cstr_of_nul_free; eauto. }
  unfold localinput.
  rewrite (bind_ok _ _ _ _ _ (load_char_cstr _ _ _ _ Hl0)).
  destruct (Ascii.eqb_spec (hd NUL line) "("%char) as [E|_]; [contradiction|].
  cbn [negb orb].
  destruct (strtok_step Blocalinput "(" (Ptr Blocalinput 0) NULL
              (with_mem s m0) 0 line eq_refl Hl0)
    as (tok & sv1 & m1 & E1 & B1 & _ & T1).
  rewrite Htok in T1.
  destruct T1 as (oc & r1 & -> & _ & Hc & _ & Hsv1 & Hrest & Hnext).
  rewrite (bind_ok _ _ _ _ _ E1). cbn [fst snd with_mem st_mem] in *.
  assert (B01 : only_block Blocalinput (st_mem s) m1)
    by (eapply only_block_trans; eauto).
  destruct sv1 as [|b1 o1|l1]; [| |contradiction].
  - (* the line ends with its first part *)
    cbn [saveptr_is] in Hsv1. subst r1. cbn [tokens_opt] in Hrest.
    subst rest.
    rewrite (bind_ok _ _ (with_mem s m1) (with_mem s m1) (NULL, NULL))
      by reflexivity.
    cbn [fst snd]. exists oc, NULL, NULL, m1. auto.
  - destruct Hsv1 as (-> & r0 & -> & Hr0). cbn [tokens_opt] in Hrest.
    destruct (strtok_step Blocalinput "(" NULL (Ptr Blocalinput o1)
                (with_mem s m1) o1 r0 eq_refl Hr0)
      as (tok2 & sv2 & m2 & E2 & B2 & F2 & T2).
    rewrite (bind_ok _ _ _ _ _ E2). cbn [fst snd with_mem st_mem] in *.
    exists oc, tok2, sv2, m2. split; [reflexivity|].
    split; [eapply only_block_trans; eauto|].
    split; [apply F2; [exact (Hnext o1 eq_refl) | exact Hc]|].
    rewrite Hrest in T2. destruct rest as [|dpart rest'].
    + apply T2.
    + destruct T2 as (od & r2 & -> & _ & Hd & _). eauto.
Qed.

Lemma load_cstr_same_block (m m' : memory) (b : block) (o : nat) :
  get_block m' b = get_block m b ->
  load_cstr m' (Ptr b o) = load_cstr m (Ptr b o).
Proof. intros H. cbn [load_cstr]. now rewrite H. Qed.

(** [fetch_parse] from the test of [colonpart] on, for a command part
    [cpart] and a data part [dopt] found in [localinput]: both token
    arrays are filled and the dispatcher is called on them. *)
Lemma fetch_parse_parts_spec (M : nat) (lvl : GPIO_TypeDef -> GPIO_pinnums -> Z)
    (s : state) (oc : nat) (parenpart tokp : ptr) (cpart : cstring)
    (dopt : option cstring) :
  length (get_block (st_mem s) Blocalinput) = FETCH_MAX_LINE_CHARS ->
  length (get_block (st_mem s) Bcommandstr) = FETCH_MAX_LINE_CHARS ->
  length (get_block (st_mem s) Bdatastr) = FETCH_MAX_LINE_CHARS ->
  length (command_toks s) = FETCH_MAX_LINE_CHARS ->
  length (data_toks s) = FETCH_MAX_LINE_CHARS ->
  load_cstr (st_mem s) (Ptr Blocalinput oc) = Some cpart ->
  match dopt with
  | None => parenpart = NULL
  | Some dpart => exists od, parenpart = Ptr Blocalinput od /\
                             load_cstr (st_mem s) parenpart = Some dpart
  end ->
  exists s5,
    fetch_parse_parts M lvl (Ptr Blocalinput oc) parenpart tokp s
    = fetch_dispatch M lvl (command_toks s5) (data_toks s5) s5 /\
    array_holds Bcommandstr (st_mem s5) (command_toks s5)
      (capped (tokens ":" (fetch_remove_spaces_str cpart))) /\
    match dopt with
    | None => data_toks s5 !! 0 = Some NULL
    | Some dpart => array_holds Bdatastr (st_mem s5) (data_toks s5)
                      (capped (tokens " " dpart))
    end /\
    trace s5
    = trace s ++ overflow_msgs (tokens ":" (fetch_remove_spaces_str cpart))
              ++ match dopt with
                 | None => []
                 | Some dpart => overflow_msgs (tokens " " dpart)
                 end /\
    cmd_fns s5 = cmd_fns s /\
    get_block (st_mem s5) Binput = get_block (st_mem s) Binput /\
    get_block (st_mem s5) Blocalinput = get_block (st_mem s) Blocalinput.
Proof.
  intros Hl Hc Hd Hca Hda Hcp Hpp.
  unfold fetch_parse_parts, commandstr, datastr. cbn [is_null negb].
  (* the command part *)
  destruct (copy_part Bcommandstr oc cpart s eq_refl Hcp Hl Hc)
    as (m1 & m2 & E1 & E2 & E3 & B2 & L2).
  rewrite (bind_ok _ _ _ _ _ E1), (bind_ok _ _ _ _ _ E2),
    (bind_ok _ _ _ _ _ E3).
  destruct (fetch_remove_spaces_ok Bcommandstr cpart (with_mem s m2) L2)
    as (m3 & E4 & B3 & L3).
  rewrite (bind_ok _ _ _ _ _ E4). cbn [with_mem st_mem] in B3.
  change (with_mem (with_mem s m2) m3) with (with_mem s m3).
  pose proof (only_block_trans _ _ _ _ B2 B3) as B03.
  (* the data part *)
  match goal with
  | |- context [bind (if negb (is_null parenpart) then ?a else ?b) _ ?st] =>
      assert (Hcopy : exists m5,
                 (if negb (is_null parenpart) then a else b) st
                 = (Ok tt, with_mem s m5) /\
                 only_block Bdatastr m3 m5 /\
                 match dopt with
                 | None => True
                 | Some dpart => load_cstr m5 (Ptr Bdatastr 0) = Some dpart
                 end)
  end.
  { destruct dopt as [dpart|].
    - destruct Hpp as (od & -> & Hdp). cbn [is_null negb].
      destruct (copy_part Bdatastr od dpart (with_mem s m3) eq_refl)
        as (m4 & m5 & F1 & F2 & F3 & B5 & L5).
      + cbn [with_mem st_mem].
        rewrite (load_cstr_other _ _ _ _ _ B03) by discriminate. exact Hdp.
      + cbn [with_mem st_mem]. rewrite (proj1 B03) by discriminate. exact Hl.
      + cbn [with_mem st_mem]. rewrite (proj1 B03) by discriminate. exact Hd.
      + exists m5. split; [|split; assumption].
        rewrite (bind_ok _ _ _ _ _ F1), (bind_ok _ _ _ _ _ F2). exact F3.
    - subst parenpart. exists m3. split; [reflexivity|].
      split; [apply only_block_refl | exact I]. }
  destruct Hcopy as (m5 & E5 & B5 & L5). rewrite (bind_ok _ _ _ _ _ E5).
  (* the command tokens *)
  destruct (tok_array_spec true Bcommandstr ":" tokp (with_mem s m5)
              (fetch_remove_spaces_str cpart))
    as (r & s1 & s2 & nt & s3 & sC & T1 & T2 & T3 & T4 & FC & AC & TC).
  { cbn [with_mem st_mem].
    rewrite (load_cstr_other _ _ _ _ _ B5) by discriminate. exact L3. }
  { exact Hca. }
  change (set_tok_of true) with set_command_tok in *.
  rewrite (bind_ok _ _ _ _ _ T1), (bind_ok _ _ _ _ _ T2),
    (bind_ok _ _ _ _ _ T3), (bind_ok _ _ _ _ _ T4).
  destruct FC as (BC & OC & FnC & LC).
  cbn [arr_of negb with_mem st_mem command_toks data_toks cmd_fns trace] in *.
  (* the data tokens *)
  match goal with
  | |- context [bind (if negb (is_null parenpart) then ?a else ?b) _ ?st] =>
      assert (Hdata : exists s5,
                 (if negb (is_null parenpart) then a else b) st = (Ok tt, s5) /\
                 loop_frame false Bdatastr sC s5 /\
                 match dopt with
                 | None => data_toks s5 !! 0 = Some NULL
                 | Some dpart => array_holds Bdatastr (st_mem s5) (data_toks s5)
                                   (capped (tokens " " dpart))
                 end /\
                 trace s5 = trace sC ++ match dopt with
                                        | None => []
                                        | Some dpart => overflow_msgs (tokens " " dpart)
                                        end)
  end.
  { destruct dopt as [dpart|].
    - destruct Hpp as (od & -> & Hdp). cbn [is_null negb].
      destruct (tok_array_spec false Bdatastr " " (snd nt) sC dpart)
        as (r' & u1 & u2 & nd & u3 & sD & U1 & U2 & U3 & U4 & FD & AD & TD).
      + rewrite (load_cstr_other _ _ _ _ _ BC) by discriminate. exact L5.
      + cbn [arr_of]. rewrite OC. exact Hda.
      + change (set_tok_of false) with set_data_tok in *.
        exists sD. rewrite (bind_ok _ _ _ _ _ U1), (bind_ok _ _ _ _ _ U2),
          (bind_ok _ _ _ _ _ U3). auto.
    - subst parenpart. cbn [is_null negb].
      destruct (set_tok_of_frame false Bdatastr 0 NULL sC)
        as (sD & U & Hm & Ha & Ht & FD).
      + cbn [arr_of]. rewrite OC, Hda. unfold FETCH_MAX_LINE_CHARS. lia.
      + exists sD. split; [exact U|]. split; [exact FD|]. split.
        * cbn [arr_of] in Ha. rewrite Ha. apply list_lookup_insert_eq.
          rewrite OC, Hda. unfold FETCH_MAX_LINE_CHARS. lia.
        * now rewrite Ht, app_nil_r. }
  destruct Hdata as (s5 & E6 & (BD & OD & FnD & LD) & AD & TD).
  rewrite (bind_ok _ _ _ _ _ E6).
  cbn [arr_of negb] in *.
  rewrite (bind_ok _ _ s5 s5 (command_toks s5)) by reflexivity.
  rewrite (bind_ok _ _ s5 s5 (data_toks s5)) by reflexivity.
  exists s5. split; [reflexivity|]. split.
  { rewrite OD. eapply array_holds_frame; [exact AC|].
    apply BD. discriminate. }
  split; [exact AD|]. split; [now rewrite TD, TC, app_assoc|].
  split; [congruence|].
  split.
  - rewrite (proj1 BD), (proj1 BC), (proj1 B5), (proj1 B03) by discriminate.
    reflexivity.
  - rewrite (proj1 BD), (proj1 BC), (proj1 B5), (proj1 B03) by discriminate.
    reflexivity.
Qed.

(** [fetch_parse] on a line that has a command part. *)
Lemma fetch_parse_spec (M : nat) (lvl : GPIO_TypeDef -> GPIO_pinnums -> Z)
    (s : state) (off : nat) (line cpart : cstring) (rest : list cstring) :
  wf s -> command_line s off line ->
  tokens "(" line = cpart :: rest ->
  exists s5,
    fetch_parse M lvl (Ptr Binput off) s
    = fetch_dispatch M lvl (command_toks s5) (data_toks s5) s5 /\
    array_holds Bcommandstr (st_mem s5) (command_toks s5)
      (command_tokens_of cpart) /\
    match head rest with
    | None => data_toks s5 !! 0 = Some NULL
    | Some dpart => array_holds Bdatastr (st_mem s5) (data_toks s5)
                      (capped (tokens " " dpart))
    end /\
    trace s5
    = trace s ++ overflow_msgs (tokens ":" (fetch_remove_spaces_str cpart))
              ++ data_msgs rest /\
    cmd_fns s5 = cmd_fns s /\
    m_input (st_mem s5) = m_input (st_mem s).
Proof.
  intros Hs (Hline & Hlen & Hhd) Htok.
  destruct (fetch_parse_split M lvl s off line cpart rest Hs Hline Hlen Hhd Htok)
    as (oc & parenpart & tokp & mA & E & BA & Lc & Lp).
  pose proof Hs as ((Hl & Hc & Hd) & Hca & _ & Hda & _).
  destruct (fetch_parse_parts_spec M lvl (with_mem s mA) oc parenpart tokp
              cpart (head rest))
    as (s5 & E5 & AC & AD & T5 & F5 & I5 & _).
  - cbn [with_mem st_mem]. rewrite (proj2 BA). apply Hl.
  - cbn [with_mem st_mem]. rewrite (proj1 BA) by discriminate. apply Hc.
  - cbn [with_mem st_mem]. rewrite (proj1 BA) by discriminate. apply Hd.
  - exact Hca.
  - exact Hda.
  - exact Lc.
  - destruct rest; exact Lp.
  - exists s5. rewrite E, E5. split; [reflexivity|].
    split; [exact AC|]. split; [exact AD|]. split; [exact T5|].
    split; [exact F5|].
    change (m_input (st_mem s5)) with (get_block (st_mem s5) Binput).
    rewrite I5. cbn [with_mem st_mem]. apply (proj1 BA). discriminate.
Qed.

Lemma data_items_of_array (s5 : state) (rest : list cstring) :
  match head rest with
  | None => data_toks s5 !! 0 = Some NULL
  | Some dpart => array_holds Bdatastr (st_mem s5) (data_toks s5)
                    (capped (tokens " " dpart))
  end ->
  data_items s5 = data_tokens_of rest.
Proof.
  unfold data_items, data_tokens_of. destruct (head rest) as [dpart|].
  - apply array_holds_strings.
  - destruct (data_toks s5) as [|p arr]; [discriminate|].
    intros [= ->]. reflexivity.
Qed.

(** X10. The tokenizer of [fetch_parse], as a function of the line.  From
    a well-formed state, for a line that fits the work buffers, does not
    start with ['('] and whose non-empty fields between ['('] characters
    are [cpart :: rest], the work done before the dispatcher is this: the
    command list holds the non-empty fields between [':'] of [cpart]
    without its spaces and tabs; the data list holds the non-empty fields
    between spaces of the first field of [rest] and is empty when [rest]
    is; a list of more than [FETCH_MAX_COMMANDS + 1] tokens is dropped as
    a whole, each time with the message "Too many commands."; later fields
    of [rest] are ignored.  [fetch_parse] then returns what
    [fetch_dispatch] returns on the two lists.  The callback table and the
    caller's line are as before. *)
Theorem fetch_parse_tokenizes
    (M : nat) (lvl : GPIO_TypeDef -> GPIO_pinnums -> Z)
    (s : state) (off : nat) (line cpart : cstring) (rest : list cstring) :
  wf s -> command_line s off line ->
  tokens "(" line = cpart :: rest ->
  exists s5,
    fetch_parse M lvl (Ptr Binput off) s
    = fetch_dispatch M lvl (command_toks s5) (data_toks s5) s5 /\
    command_path s5 = command_tokens_of cpart /\
    data_items s5 = data_tokens_of rest /\
    trace s5
    = trace s ++ overflow_msgs (tokens ":" (fetch_remove_spaces_str cpart))
              ++ data_msgs rest /\
    cmd_fns s5 = cmd_fns s /\
    m_input (st_mem s5) = m_input (st_mem s).
Proof.
  intros Hs Hline Htok.
  destruct (fetch_parse_spec M lvl s off line cpart rest Hs Hline Htok)
    as (s5 & E & AC & AD & T & F & I5).
  exists s5. split; [exact E|].
  split; [exact (array_holds_strings _ _ _ _ AC)|].
  split; [now apply data_items_of_array|]. auto.
Qed.

(* In the line below, the blank between [set] and [:portd] is a tab. *)
Lemma fetch_parse_tokenizes_witness :
  wf (set_input init_state (line_buffer "Gpio : set	:portd:pin3(1  22 (x")) /\
  command_line (set_input init_state
                  (line_buffer "Gpio : set	:portd:pin3(1  22 (x")) 0
    (str "Gpio : set	:portd:pin3(1  22 (x") /\
  exists s5,
    run_line 5 low_level init_state "Gpio : set	:portd:pin3(1  22 (x"
    = fetch_dispatch 5 low_level (command_toks s5) (data_toks s5) s5 /\
    command_path s5 = map str ["Gpio"; "set"; "portd"; "pin3"]%string /\
    data_items s5 = map str ["1"; "22"]%string /\
    trace s5 = [] /\
    cmd_fns s5 = bound_handlers /\
    m_input (st_mem s5) = line_buffer "Gpio : set	:portd:pin3(1  22 (x".
Proof.
  assert (Hw : wf (set_input init_state
                     (line_buffer "Gpio : set	:portd:pin3(1  22 (x")))
    by (apply wf_set_input, wf_init_state).
  assert (Hl : command_line (set_input init_state
                     (line_buffer "Gpio : set	:portd:pin3(1  22 (x")) 0
                 (str "Gpio : set	:portd:pin3(1  22 (x"))
    by (repeat split; [vm_compute; lia | discriminate]).
  split; [exact Hw|]. split; [exact Hl|].
  exact (fetch_parse_tokenizes 5 low_level _ 0 _
           (str "Gpio : set	:portd:pin3") [str "1  22 "; str "x"]
           Hw Hl eq_refl).
Defined.

(** X11. A line that leaves no command token stops at the assertion.
    When the command part of the line is made of spaces, tabs and colons
    only, or holds more than [FETCH_MAX_COMMANDS + 1] tokens, the first
    entry of the command list is null, and [fetch_dispatch] hands it to
    the token matcher, whose first assertion fails.  No handler is called
    and nothing but the "Too many commands." messages of the two token
    loops is reported. *)
Theorem fetch_parse_without_command_token
    (M : nat) (lvl : GPIO_TypeDef -> GPIO_pinnums -> Z)
    (s : state) (off : nat) (line cpart : cstring) (rest : list cstring) :
  wf s -> command_line s off line ->
  tokens "(" line = cpart :: rest ->
  command_tokens_of cpart = [] ->
  exists s5,
    fetch_parse M lvl (Ptr Binput off) s
    = (Assert_failed "fetch_token_match() #1", s5) /\
    command_toks s5 !! 0 = Some NULL /\
    trace s5
    = trace s ++ overflow_msgs (tokens ":" (fetch_remove_spaces_str cpart))
              ++ data_msgs rest.
Proof.
  intros Hs Hline Htok Hnone.
  destruct (fetch_parse_spec M lvl s off line cpart rest Hs Hline Htok)
    as (s5 & E & [_ AC] & _ & T & _).
  rewrite Hnone in AC. exists s5. split; [|split; assumption].
  rewrite E. unfold fetch_dispatch.
  now rewrite (bind_ok _ _ s5 s5 NULL) by now apply nth_tok_ok.
Qed.

Lemma fetch_parse_without_command_token_witness :
  wf (set_input init_state (line_buffer " : ")) /\
  command_line (set_input init_state (line_buffer " : ")) 0 (str " : ") /\
  exists s5,
    run_line 5 low_level init_state " : "
    = (Assert_failed "fetch_token_match() #1", s5) /\
    command_toks s5 !! 0 = Some NULL /\
    trace s5 = [].
Proof.
  assert (Hw : wf (set_input init_state (line_buffer " : ")))
    by (apply wf_set_input, wf_init_state).
  assert (Hl : command_line (set_input init_state (line_buffer " : ")) 0
                 (str " : "))
    by (repeat split; [vm_compute; lia | discriminate]).
  split; [exact Hw|]. split; [exact Hl|].
  exact (fetch_parse_without_command_token 5 low_level _ 0 _ (str " : ") []
           Hw Hl eq_refl eq_refl).
Defined.

(** ** Whole lines, from any well-formed state *)

Lemma capped_cons (L : list cstring) (t : cstring) (more : list cstring) :
  capped L = t :: more -> L = t :: more /\ overflow_msgs L = [].
Proof.
  unfold capped, overflow_msgs.
  destruct (length L <=? FETCH_MAX_COMMANDS + 1); [auto | discriminate].
Qed.

(** A line with a command token, up to the call of the dispatcher. *)
Lemma fetch_parse_ready (M : nat) (lvl : GPIO_TypeDef -> GPIO_pinnums -> Z)
    (s : state) (off : nat) (line cpart : cstring) (rest : list cstring)
    (t : cstring) (more : list cstring) :
  wf s -> command_line s off line ->
  tokens "(" line = cpart :: rest ->
  command_tokens_of cpart = t :: more ->
  exists s5,
    fetch_parse M lvl (Ptr Binput off) s
    = fetch_dispatch M lvl (command_toks s5) (data_toks s5) s5 /\
    cmd_fns s5 = bound_handlers /\
    trace s5 = trace s ++ data_msgs rest /\
    holds_toks Bcommandstr (st_mem s5) (command_toks s5) (t :: more).
Proof.
  intros Hs Hline Htok Hcmd.
  destruct (fetch_parse_spec M lvl s off line cpart rest Hs Hline Htok)
    as (s5 & E & [AC _] & _ & T & F & _).
  rewrite Hcmd in AC. apply capped_cons in Hcmd as [_ Hmsg].
  rewrite Hmsg in T. exists s5. split; [exact E|]. split.
  - rewrite F. pose proof Hs as (_ & _ & _ & _ & _ & ->). reflexivity.
  - split; [exact T | exact AC].
Qed.




(** A [gpio] line, up to the call of [fetch_gpio]. *)
Lemma fetch_parse_gpio_ready
    (M : nat) (lvl : GPIO_TypeDef -> GPIO_pinnums -> Z)
    (s : state) (off : nat) (line cpart : cstring) (rest : list cstring)
    (tg : cstring) (more : list cstring) :
  wf s -> command_line s off line ->
  tokens "(" line = cpart :: rest ->
  command_tokens_of cpart = tg :: more ->
  caseless_eq (str "gpio") tg = true ->
  exists s5,
    fetch_parse M lvl (Ptr Binput off) s
    = fetch_gpio M lvl (command_toks s5) (data_toks s5) s5 /\
    trace s5 = trace s ++ data_msgs rest ++ [Invoke Fetch_gpio] /\
    holds_toks Bcommandstr (st_mem s5) (command_toks s5) (tg :: more).
Proof.
  intros Hs Hline Htok Hcmd Hg.
  destruct (fetch_parse_ready M lvl s off line cpart rest tg more
              Hs Hline Htok Hcmd) as (s5 & -> & Hfns & T & Hh).
  destruct (Hh 0 tg eq_refl) as (o & Hp & Hl & _).
  destruct (fetch_dispatch_entry M lvl (command_toks s5) (data_toks s5) s5
              (Ptr Bcommandstr o) tg Hfns Hp Hl 2 (str "gpio") eq_refl Hg)
    as (h & Hb & ->).
  injection Hb as <-. exists (add_events s5 [Invoke Fetch_gpio]).
  split; [reflexivity|]. split; [|exact Hh].
  cbn [add_events trace]. now rewrite T, <- app_assoc.
Qed.

Lemma port_number_inj (p q : GPIO_TypeDef) :
  port_number p = port_number q -> p = q.
Proof. destruct p, q; cbn [port_number]; congruence. Qed.

Lemma pin_number_inj (p q : GPIO_pinnums) :
  pin_number p = pin_number q -> p = q.
Proof. destruct p, q; cbn [pin_number]; congruence. Qed.

Lemma hardware_data_msgs (rest : list cstring) :
  List.filter is_hardware (data_msgs rest) = [].
Proof.
  unfold data_msgs, overflow_msgs. destruct (head rest) as [d|]; [|reflexivity].
  now destruct (length (tokens " " d) <=? FETCH_MAX_COMMANDS + 1).
Qed.

(** X13. [gpio:get], [gpio:set] and [gpio:clear] lines, from any
    well-formed state.  When the command tokens of the line start with
    ["gpio"], an action, the [ip]-th port name and the [ipn]-th pin name,
    each in any letter case and with spaces or tabs anywhere in the
    command part, [fetch_parse] returns true after exactly one hardware
    call on port [ip] and pin [ipn]: [palReadPad] followed by the level
    printed for ["get"], [palSetPad] for ["set"], [palClearPad] for
    ["clear"].  Further command tokens and the data tokens play no part. *)
Theorem fetch_parse_gpio_lines
    (M : nat) (lvl : GPIO_TypeDef -> GPIO_pinnums -> Z)
    (s : state) (off : nat) (line cpart : cstring) (rest : list cstring)
    (tg ta tp tn : cstring) (more : list cstring)
    (ip ipn : nat) (ep en : cstring) :
  wf s -> 5 <= M -> command_line s off line ->
  tokens "(" line = cpart :: rest ->
  command_tokens_of cpart = tg :: ta :: tp :: tn :: more ->
  caseless_eq (str "gpio") tg = true ->
  vocab port_names !! ip = Some ep -> caseless_eq ep tp = true ->
  vocab pin_names !! ipn = Some en -> caseless_eq en tn = true ->
  exists port pin,
    port_number port = ip /\ pin_number pin = ipn /\
    (caseless_eq (str "get") ta = true ->
     fst (fetch_parse M lvl (Ptr Binput off) s) = Ok true /\
     trace (snd (fetch_parse M lvl (Ptr Binput off) s))
     = trace s ++ data_msgs rest
       ++ [Invoke Fetch_gpio; PalReadPad port pin;
           Chprintf_d (lvl port pin)]) /\
    (caseless_eq (str "set") ta = true ->
     fst (fetch_parse M lvl (Ptr Binput off) s) = Ok true /\
     trace (snd (fetch_parse M lvl (Ptr Binput off) s))
     = trace s ++ data_msgs rest ++ [Invoke Fetch_gpio; PalSetPad port pin]) /\
    (caseless_eq (str "clear") ta = true ->
     fst (fetch_parse M lvl (Ptr Binput off) s) = Ok true /\
     trace (snd (fetch_parse M lvl (Ptr Binput off) s))
     = trace s ++ data_msgs rest ++ [Invoke Fetch_gpio; PalClearPad port pin]).
Proof.
  intros Hs HM Hline Htok Hcmd Hg Hip Hep Hipn Hen.
  destruct (fetch_parse_gpio_ready M lvl s off line cpart rest tg _
              Hs Hline Htok Hcmd Hg) as (s5 & -> & T & Hh).
  destruct (Hh 1 ta eq_refl) as (oa & Hpa & Hta & _).
  destruct (Hh 2 tp eq_refl) as (op & Hpp & Htp & _).
  destruct (Hh 3 tn eq_refl) as (on & Hpn & Htn & _).
  destruct (gpio_port_of_entry tp ip ep Hip Hep) as (port & _ & Hport).
  destruct (gpio_pin_of_valid M tn ipn en PIN0 HM Hipn Hen) as (Hpin & _).
  exists port, (gpio_pin_of M tn PIN0).
  split; [exact Hport|]. split; [exact Hpin|].
  split; [|split]; intros Ha.
  - destruct (fetch_gpio_get_entry M lvl (command_toks s5) (data_toks s5) s5
                _ _ _ ta tp tn 0 ip ipn (str "get") ep en
                HM Hpa Hta eq_refl Ha Hpp Htp Hip Hep Hpn Htn Hipn Hen eq_refl)
      as (port' & pin' & H1 & H2 & ->).
    assert (port' = port) as -> by (apply port_number_inj; congruence).
    assert (pin' = gpio_pin_of M tn PIN0) as ->
      by (apply pin_number_inj; congruence).
    cbn [fst snd add_events trace]. rewrite T, <- !app_assoc. auto.
  - destruct (fetch_gpio_set_entry M lvl (command_toks s5) (data_toks s5) s5
                _ _ _ ta tp tn 1 ip ipn (str "set") ep en
                HM Hpa Hta eq_refl Ha Hpp Htp Hip Hep Hpn Htn Hipn Hen eq_refl)
      as (port' & pin' & H1 & H2 & ->).
    assert (port' = port) as -> by (apply port_number_inj; congruence).
    assert (pin' = gpio_pin_of M tn PIN0) as ->
      by (apply pin_number_inj; congruence).
    cbn [fst snd add_events trace]. rewrite T, <- !app_assoc. auto.
  - destruct (fetch_gpio_clear_entry M lvl (command_toks s5) (data_toks s5) s5
                _ _ _ ta tp tn 2 ip ipn (str "clear") ep en
                HM Hpa Hta eq_refl Ha Hpp Htp Hip Hep Hpn Htn Hipn Hen eq_refl)
      as (port' & pin' & H1 & H2 & ->).
    assert (port' = port) as -> by (apply port_number_inj; congruence).
    assert (pin' = gpio_pin_of M tn PIN0) as ->
      by (apply pin_number_inj; congruence).
    cbn [fst snd add_events trace]. rewrite T, <- !app_assoc. auto.
Qed.

Lemma fetch_parse_gpio_lines_witness :
  wf (set_input init_state (line_buffer "GPIO: Clear :PortH: pin14 :x(7")) /\
  5 <= 5 /\
  command_line (set_input init_state
                  (line_buffer "GPIO: Clear :PortH: pin14 :x(7")) 0
    (str "GPIO: Clear :PortH: pin14 :x(7") /\
  fst (run_line 5 low_level init_state "GPIO: Clear :PortH: pin14 :x(7")
  = Ok true /\
  trace (snd (run_line 5 low_level init_state "GPIO: Clear :PortH: pin14 :x(7"))
  = [Invoke Fetch_gpio; PalClearPad GPIOH PIN14].
Proof.
  assert (Hw : wf (set_input init_state
                     (line_buffer "GPIO: Clear :PortH: pin14 :x(7")))
    by (apply wf_set_input, wf_init_state).
  assert (Hl : command_line (set_input init_state
                     (line_buffer "GPIO: Clear :PortH: pin14 :x(7")) 0
                 (str "GPIO: Clear :PortH: pin14 :x(7"))
    by (repeat split; [vm_compute; lia | discriminate]).
  split; [exact Hw|]. split; [lia|]. split; [exact Hl|].
  destruct (fetch_parse_gpio_lines 5 low_level _ 0 _
              (str "GPIO: Clear :PortH: pin14 :x") [str "7"]
              (str "GPIO") (str "Clear") (str "PortH") (str "pin14") [str "x"]
              7 14 (str "porth") (str "pin14")
              Hw (le_n 5) Hl eq_refl eq_refl eq_refl eq_refl eq_refl
              eq_refl eq_refl)
    as (port & pin & Hport & Hpin & _ & _ & Hclear).
  assert (port = GPIOH) as -> by (now apply port_number_inj).
  assert (pin = PIN14) as -> by (now apply pin_number_inj).
  exact (Hclear eq_refl).
Defined.

(** X14. Complete [gpio:configure] lines, from any well-formed state.
    When the command tokens of the line start with ["gpio"],
    ["configure"], the [ip]-th port name, the [ipn]-th pin name, the
    [a]-th direction name and the [b]-th sense name, each in any letter
    case, [fetch_parse] returns true and the only hardware call it makes
    is [palSetPadMode] on port [ip] and pin [ipn] with the bitwise or of
    the mode bits of the direction and of the sense. *)
Theorem fetch_parse_gpio_configure_line
    (M : nat) (lvl : GPIO_TypeDef -> GPIO_pinnums -> Z)
    (s : state) (off : nat) (line cpart : cstring) (rest : list cstring)
    (tg ta tp tn td tsn : cstring) (more : list cstring)
    (ip ipn a b : nat) (ep en ed es : cstring) :
  wf s -> 5 <= M -> command_line s off line ->
  tokens "(" line = cpart :: rest ->
  command_tokens_of cpart = tg :: ta :: tp :: tn :: td :: tsn :: more ->
  caseless_eq (str "gpio") tg = true ->
  caseless_eq (str "configure") ta = true ->
  vocab port_names !! ip = Some ep -> caseless_eq ep tp = true ->
  vocab pin_names !! ipn = Some en -> caseless_eq en tn = true ->
  vocab direction_names !! a = Some ed -> caseless_eq ed td = true ->
  vocab sense_names !! b = Some es -> caseless_eq es tsn = true ->
  exists port pin,
    port_number port = ip /\ pin_number pin = ipn /\
    fst (fetch_parse M lvl (Ptr Binput off) s) = Ok true /\
    List.filter is_hardware (trace (snd (fetch_parse M lvl (Ptr Binput off) s)))
    = List.filter is_hardware (trace s)
      ++ [PalSetPadMode port pin (Z.lor (direction_bits a) (sense_bits b))].
Proof.
  intros Hs HM Hline Htok Hcmd Hg Ha Hip Hep Hipn Hen Had Hed Hbs Hes.
  destruct (fetch_parse_gpio_ready M lvl s off line cpart rest tg _
              Hs Hline Htok Hcmd Hg) as (s5 & -> & T & Hh).
  destruct (Hh 1 ta eq_refl) as (oa & Hpa & Hta & _).
  destruct (Hh 2 tp eq_refl) as (op & Hpp & Htp & _).
  destruct (Hh 3 tn eq_refl) as (on & Hpn & Htn & _).
  destruct (Hh 4 td eq_refl) as (od & Hpd & Htd & _).
  destruct (Hh 5 tsn eq_refl) as (os & Hps & Hts & _).
  destruct (fetch_gpio_config_entry M lvl (command_toks s5) (data_toks s5) s5
              _ _ _ ta tp tn 3 ip ipn (str "configure") ep en
              HM Hpa Hta eq_refl Ha Hpp Htp Hip Hep Hpn Htn Hipn Hen
              _ _ eq_refl Hpd Hps)
    as (port & pin & H1 & H2 & _ & Hrun).
  exists port, pin. split; [exact H1|]. split; [exact H2|].
  rewrite (Hrun td tsn Htd Hts).
  rewrite (gpio_direction_of_entry td a ed Had Hed),
    (gpio_sense_of_entry tsn b es Hbs Hes).
  split; [reflexivity|].
  cbn [fst snd add_events trace]. rewrite T, !List.filter_app.
  rewrite hardware_data_msgs. cbn [List.filter is_hardware app].
  now rewrite app_nil_r.
Qed.

Lemma fetch_parse_gpio_configure_line_witness :
  wf (set_input init_state
        (line_buffer "gpio:Configure:portb:pin10:Output:PullUp")) /\
  5 <= 5 /\
  command_line (set_input init_state
                  (line_buffer "gpio:Configure:portb:pin10:Output:PullUp")) 0
    (str "gpio:Configure:portb:pin10:Output:PullUp") /\
  fst (run_line 5 low_level init_state
         "gpio:Configure:portb:pin10:Output:PullUp") = Ok true /\
  List.filter is_hardware
    (trace (snd (run_line 5 low_level init_state
                   "gpio:Configure:portb:pin10:Output:PullUp")))
  = [PalSetPadMode GPIOB PIN10 (Z.lor (direction_bits 1) (sense_bits 0))].
Proof.
  assert (Hw : wf (set_input init_state
                     (line_buffer "gpio:Configure:portb:pin10:Output:PullUp")))
    by (apply wf_set_input, wf_init_state).
  assert (Hl : command_line (set_input init_state
                     (line_buffer "gpio:Configure:portb:pin10:Output:PullUp")) 0
                 (str "gpio:Configure:portb:pin10:Output:PullUp"))
    by (repeat split; [vm_compute; lia | discriminate]).
  split; [exact Hw|]. split; [lia|]. split; [exact Hl|].
  destruct (fetch_parse_gpio_configure_line 5 low_level _ 0 _
              (str "gpio:Configure:portb:pin10:Output:PullUp") []
              (str "gpio") (str "Configure") (str "portb") (str "pin10")
              (str "Output") (str "PullUp") []
              1 10 1 0 (str "portb") (str "pin10") (str "output") (str "pullup")
              Hw (le_n 5) Hl eq_refl eq_refl eq_refl eq_refl eq_refl eq_refl
              eq_refl eq_refl eq_refl eq_refl eq_refl eq_refl)
    as (port & pin & Hport & Hpin & Hres).
  assert (port = GPIOB) as -> by (now apply port_number_inj).
  assert (pin = PIN10) as -> by (now apply pin_number_inj).
  exact Hres.
Defined.

(** ** The routines of [gpio.c], called on any command list *)

Lemma strncasecmp_take (n : nat) :
  forall s t : cstring, strncasecmp (take n s) t n = strncasecmp s t n.
Proof.
  induction n as [|n IH]; intros s t; [reflexivity|].
  destruct s as [|c s]; cbn [strncasecmp firstn hd tl]; [reflexivity|].
  now rewrite IH.
Qed.

Lemma gpio_port_of_prefix (t : cstring) (port : option GPIO_TypeDef) :
  gpio_port_of (lower (take 5 t)) port = gpio_port_of t port.
Proof.
  rewrite gpio_port_of_lower. unfold gpio_port_of, streq_n.
  change (strlen_lit "porta") with 5. now rewrite !strncasecmp_take.
Qed.

Lemma gpio_port_of_five (t : cstring) (k : nat) (e : cstring) :
  vocab port_names !! k = Some e -> caseless_upto 5 t e = true ->
  exists port, port_number port = k /\ gpio_port_of t None = Some port.
Proof.
  intros Hk He. apply cstr_eqb_eq in He.
  rewrite <- (gpio_port_of_prefix t), He.
  do 9 (destruct k as [|k];
        [injection Hk as <-; vm_compute; eexists; split;
         [|reflexivity]; reflexivity|]).
  discriminate Hk.
Qed.

Lemma gpio_port_of_none (t : cstring) :
  nul_free t ->
  Forall (fun e => caseless_upto 5 t e = false) (vocab port_names) ->
  gpio_port_of t None = None.
Proof.
  intros Ht Hall. unfold vocab, port_names in Hall. cbn [map] in Hall.
  repeat match goal with
         | H : Forall _ (_ :: _) |- _ =>
             let H1 := fresh "H" in
             apply Forall_cons in H as [H1 H]
         end.
  unfold gpio_port_of, streq_n. change (strlen_lit "porta") with 5.
  rewrite !strncasecmp_zero by (auto using lit_cstr_nul_free).
  repeat match goal with
         | H : caseless_upto 5 t _ = false |- _ => rewrite H; clear H
         end.
  reflexivity.
Qed.

(** X15. The port of [gpio_get], [gpio_set] and [gpio_clear], called on
    any command list.  [gpio_get_port_pin] compares the port token with
    every port name over [strlen("porta")] bytes: a token whose first five
    bytes are the [k]-th port name up to letter case selects port [k],
    whatever follows them, and the routine acts once on that port and on
    the pin chosen by the pin token.  A token whose first five bytes are no
    port name leaves the port null; the PAL call then dereferences a null
    port, which is undefined behaviour, and nothing reaches the hardware. *)
Theorem gpio_port_token_prefix
    (M : nat) (lvl : GPIO_TypeDef -> GPIO_pinnums -> Z)
    (cl : list ptr) (s : state) (pp pn : ptr) (tp tn : cstring) :
  cl !! PORT = Some pp -> load_cstr (st_mem s) pp = Some tp ->
  cl !! PIN = Some pn -> load_cstr (st_mem s) pn = Some tn ->
  (forall k e,
      vocab port_names !! k = Some e -> caseless_upto 5 tp e = true ->
      exists port,
        port_number port = k /\
        gpio_get M lvl cl s
        = (Ok (lvl port (gpio_pin_of M tn PIN0)),
           add_events s [PalReadPad port (gpio_pin_of M tn PIN0)]) /\
        gpio_set M cl s
        = (Ok tt, add_events s [PalSetPad port (gpio_pin_of M tn PIN0)]) /\
        gpio_clear M cl s
        = (Ok tt, add_events s [PalClearPad port (gpio_pin_of M tn PIN0)])) /\
  (Forall (fun e => caseless_upto 5 tp e = false) (vocab port_names) ->
   gpio_get M lvl cl s = (Undefined, s) /\
   gpio_set M cl s = (Undefined, s) /\
   gpio_clear M cl s = (Undefined, s)).
Proof.
  intros Hpp Htp Hpn Htn.
  pose proof (gpio_get_port_pin_ok M cl pp pn tp tn None PIN0 s
                Hpp Htp Hpn Htn) as E.
  split.
  - intros k e Hk He.
    destruct (gpio_port_of_five tp k e Hk He) as (port & Hport & Hp).
    rewrite Hp in E. exists port. split; [exact Hport|].
    unfold gpio_get, gpio_set, gpio_clear.
    rewrite !(bind_ok _ _ _ _ _ E). repeat split.
  - intros Hall.
    rewrite (gpio_port_of_none tp (load_cstr_nul_free _ _ _ Htp) Hall) in E.
    unfold gpio_get, gpio_set, gpio_clear.
    rewrite !(bind_ok _ _ _ _ _ E). repeat split.
Qed.

Lemma gpio_port_token_prefix_witness :
  map Lit ["gpio"; "set"; "PortAble"; "pin2"]%string !! PORT
  = Some (Lit "PortAble") /\
  map Lit ["gpio"; "set"; "PortAble"; "pin2"]%string !! PIN
  = Some (Lit "pin2") /\
  gpio_set 5 (map Lit ["gpio"; "set"; "PortAble"; "pin2"]%string) init_state
  = (Ok tt, add_events init_state [PalSetPad GPIOA PIN2]).
Proof.
  split; [reflexivity|]. split; [reflexivity|].
  destruct (proj1 (gpio_port_token_prefix 5 low_level
                     (map Lit ["gpio"; "set"; "PortAble"; "pin2"]%string)
                     init_state (Lit "PortAble") (Lit "pin2")
                     (str "PortAble") (str "pin2")
                     eq_refl eq_refl eq_refl eq_refl)
              0 (str "porta") eq_refl eq_refl)
    as (port & Hport & _ & Hset & _).
  assert (port = GPIOA) as -> by (now apply port_number_inj).
  exact Hset.
Defined.

Lemma caseless_upto_shorter (n m : nat) (s t : cstring) :
  caseless_upto n s t = true -> m <= n -> caseless_upto m s t = true.
Proof.
  unfold caseless_upto, lower. intros H Hm. apply cstr_eqb_eq in H.
  apply cstr_eqb_eq. apply (f_equal (take m)) in H.
  rewrite <- !List.firstn_map in H. rewrite !take_take in H.
  rewrite !List.firstn_map in H.
  now replace (m `min` n) with m in H by lia.
Qed.

Lemma streq_n_not_pin (t : cstring) (lit : string) (n : nat) :
  nul_free t -> 3 <= n ->
  take 3 (lit_cstr (str lit)) = str "pin" ->
  caseless_upto 3 t (str "pin") = false ->
  streq_n t lit n = false.
Proof.
  intros Ht Hn Hlit Hpin. unfold streq_n.
  rewrite strncasecmp_zero by (auto using lit_cstr_nul_free).
  destruct (caseless_upto n t (lit_cstr (str lit))) eqn:E; [|reflexivity].
  apply (caseless_upto_shorter n 3) in E; [|exact Hn].
  unfold caseless_upto in E, Hpin. rewrite Hlit in E.
  change (take 3 (str "pin")) with (str "pin") in Hpin. congruence.
Qed.

Lemma gpio_pin_of_not_pin (M : nat) (t : cstring) (pin0 : GPIO_pinnums) :
  3 <= M -> nul_free t -> caseless_upto 3 t (str "pin") = false ->
  gpio_pin_of M t pin0 = pin0.
Proof.
  intros HM Ht Hpin. unfold gpio_pin_of.
  assert (Hlen : 3 <= get_longest_str_length t (lit_cstr (str "pinX")) M).
  { unfold get_longest_str_length.
    change (length (lit_cstr (str "pinX"))) with 4. lia. }
  rewrite !(streq_n_not_pin t _ _ Ht) by (try lia; auto).
  now destruct (_ =? 4).
Qed.

(** X16. The pin of the routines of [gpio.c], called on any command
    list.  Every comparison of [gpio_get_port_pin] with a pin name runs
    over three bytes at least, so a pin token whose first three bytes are
    not ["pin"], in any letter case, matches none; the pin variable then
    keeps the value its caller gave it, which is 0 in [gpio_get],
    [gpio_set], [gpio_clear] and [gpio_config]: such a call acts on pin 0
    of the port selected by the port token. *)
Theorem gpio_pin_token_default
    (M : nat) (cl : list ptr) (s : state) (pp pn : ptr) (tp tn : cstring) :
  3 <= M ->
  cl !! PORT = Some pp -> load_cstr (st_mem s) pp = Some tp ->
  cl !! PIN = Some pn -> load_cstr (st_mem s) pn = Some tn ->
  caseless_upto 3 tn (str "pin") = false ->
  (forall port0 pin0,
      gpio_get_port_pin M cl port0 pin0 s
      = (Ok (gpio_port_of tp port0, pin0), s)) /\
  (forall k e,
      vocab port_names !! k = Some e -> caseless_upto 5 tp e = true ->
      exists port,
        port_number port = k /\
        gpio_set M cl s = (Ok tt, add_events s [PalSetPad port PIN0]) /\
        gpio_clear M cl s = (Ok tt, add_events s [PalClearPad port PIN0])).
Proof.
  intros HM Hpp Htp Hpn Htn Hpin.
  assert (E : forall port0 pin0,
             gpio_get_port_pin M cl port0 pin0 s
             = (Ok (gpio_port_of tp port0, pin0), s)).
  { intros port0 pin0.
    rewrite (gpio_get_port_pin_ok M cl pp pn tp tn port0 pin0 s
               Hpp Htp Hpn Htn).
    now rewrite (gpio_pin_of_not_pin M tn pin0 HM
                   (load_cstr_nul_free _ _ _ Htn) Hpin). }
  split; [exact E|]. intros k e Hk He.
  destruct (gpio_port_of_five tp k e Hk He) as (port & Hport & Hp).
  exists port. split; [exact Hport|].
  unfold gpio_set, gpio_clear. rewrite !(bind_ok _ _ _ _ _ (E None PIN0)), Hp.
  split; reflexivity.
Qed.

Lemma gpio_pin_token_default_witness :
  3 <= 5 /\
  gpio_clear 5 (map Lit ["gpio"; "clear"; "portc"; "led7"]%string) init_state
  = (Ok tt, add_events init_state [PalClearPad GPIOC PIN0]).
Proof.
  split; [lia|].
  destruct (proj2 (gpio_pin_token_default 5
                     (map Lit ["gpio"; "clear"; "portc"; "led7"]%string)
                     init_state (Lit "portc") (Lit "led7")
                     (str "portc") (str "led7")
                     ltac:(lia) eq_refl eq_refl eq_refl eq_refl eq_refl)
              2 (str "portc") eq_refl eq_refl)
    as (port & Hport & _ & Hclear).
  assert (port = GPIOC) as -> by (now apply port_number_inj).
  exact Hclear.
Defined.

(** ** Sessions *)

Lemma reachable_wf (M : nat) (lvl : GPIO_TypeDef -> GPIO_pinnums -> Z)
    (s : state) :
  reachable M lvl s -> wf s.
Proof.
  induction 1 as [|s line b s' _ IH Hlen Hrun]; [apply wf_init_state|].
  pose proof (run_line_ends_well M lvl s line IH Hlen) as H.
  rewrite Hrun in H. exact H.
Qed.

(** X17. No line of a session runs into undefined behaviour.  In every
    state that a session can reach from start-up, the static buffers are
    terminated, the token arrays hold only null pointers, literals and
    pointers into the static buffers, and the callback table is the one
    bound by [fetch_init]; and in such a state [fetch_parse], given any
    line shorter than the work buffers, ends with a result or at the
    assertion of the token matcher: it reads and writes within the
    buffers, calls a bound handler or none, and its loops end. *)
Theorem session_never_undefined
    (M : nat) (lvl : GPIO_TypeDef -> GPIO_pinnums -> Z) (s : state)
    (line : string) :
  reachable M lvl s ->
  String.length line < FETCH_MAX_LINE_CHARS ->
  wf s /\ cmd_fns s = bound_handlers /\
  fst (run_line M lvl s line) <> Undefined /\
  fst (run_line M lvl s line) <> Out_of_fuel /\
  wf (snd (run_line M lvl s line)).
Proof.
  intros Hr Hlen. pose proof (reachable_wf M lvl s Hr) as Hs.
  split; [exact Hs|]. split.
  { pose proof Hs as (_ & _ & _ & _ & _ & ->). reflexivity. }
  pose proof (run_line_ends_well M lvl s line Hs Hlen) as H.
  unfold ends_well in H.
  destruct (run_line M lvl s line) as [[b|msg| |] s'];
    cbn [fst snd]; try contradiction;
    (split; [discriminate|]); (split; [discriminate|]); exact H.
Qed.

Lemma session_never_undefined_witness :
  reachable 5 low_level
    (snd (run_line 5 low_level init_state "gpio:set:porta:pin1")) /\
  String.length " : " < FETCH_MAX_LINE_CHARS /\
  fst (run_line 5 low_level
         (snd (run_line 5 low_level init_state "gpio:set:porta:pin1")) " : ")
  <> Undefined.
Proof.
  assert (Hr : reachable 5 low_level
                 (snd (run_line 5 low_level init_state "gpio:set:porta:pin1"))).
  { apply (reach_line 5 low_level init_state "gpio:set:porta:pin1" true);
      [apply reach_init | vm_compute; lia | vm_compute; reflexivity]. }
  assert (Hlen : String.length " : " < FETCH_MAX_LINE_CHARS)
    by (vm_compute; lia).
  split; [exact Hr|]. split; [exact Hlen|].
  exact (proj1 (proj2 (proj2 (session_never_undefined 5 low_level _ " : "
                                Hr Hlen)))).
Defined.

Lemma open_paren_is_rejected_witness :
  wf init_state /\
  String.length "1 2 3)" < FETCH_MAX_LINE_CHARS - 1 /\
  fst (run_line 5 low_level init_state "(1 2 3)") = Ok false /\
  trace (snd (run_line 5 low_level init_state "(1 2 3)"))
  = [Errormsg "No command-(only data?)"].
Proof.
  assert (Hlen : String.length "1 2 3)" < FETCH_MAX_LINE_CHARS - 1)
    by (vm_compute; lia).
  split; [exact wf_init_state|]. split; [exact Hlen|].
  destruct (open_paren_is_rejected 5 low_level init_state "1 2 3)"
              wf_init_state Hlen) as (H1 & H2 & _).
  split; [exact H1 | exact H2].
Defined.
